(** * Corpus analysis, series library and devotional parsing

    A shallow embedding of the analysis core of [compare.py] and of the
    schema probe and generation-output parser of [devotional_generator.py],
    followed by the properties proved about it.

    Conventions of the embedding.
    - A Python [str] is a [string]; one [ascii] stands for one code point
      below 256, so [len] is [String.length].  [str.lower], [str.isspace]
      and the regex classes [\s], [\d] and [.] are the Python ones on that
      range, where [str.lower] keeps the length of a text; the properties
      that rest on this are stated for the texts of that range only.
      [str.title], whose result can leave the range, gives code points.
    - SQL [NULL] is [None]; a result set is the list of its rows in storage
      order.  A statement that can raise returns an [outcome].  [LIKE] and
      [LENGTH] read a text up to its first NUL character, and [LIKE]
      refuses a pattern of more than 50000 bytes.
    - [str.find] returns [option nat] instead of the [-1] sentinel.
    - Python dicts and [Counter]s are association lists in insertion order. *)

From Stdlib Require Import Bool Arith ZArith Lia List Ascii String.
From Stdlib Require Import Permutation Sorted.
From Stdlib Require Import Numbers.DecimalString.
From Stdlib Require Floats.PrimFloat Floats.FloatOps Floats.SpecFloat.
From Stdlib Require Numbers.Cyclic.Int63.Uint63.
Import ListNotations.

Local Open Scope string_scope.
Local Open Scope list_scope.
Local Open Scope nat_scope.

(* ===================================================================== *)
(** * Part I. The embedding                                               *)
(* ===================================================================== *)

(** ** Python string operations *)

Module PyStr.

Definition code (c : ascii) : nat := nat_of_ascii c.

(** [str.isspace] on one character; also the regex class [\s]. *)
Definition isspace (c : ascii) : bool :=
  let n := code c in
  ((9 <=? n) && (n <=? 13)) || ((28 <=? n) && (n <=? 32))
  || (n =? 133) || (n =? 160).

(** The regex class [\d]. *)
Definition isdigit (c : ascii) : bool :=
  let n := code c in (48 <=? n) && (n <=? 57).

Definition newline : ascii := ascii_of_nat 10.

(** The regex class [.] (without DOTALL). *)
Definition isdot (c : ascii) : bool := negb (Ascii.eqb c newline).

(** [str.lower] on one character. *)
Definition lower_char (c : ascii) : ascii :=
  let n := code c in
  if ((65 <=? n) && (n <=? 90))
     || ((192 <=? n) && (n <=? 222) && negb (n =? 215))
  then ascii_of_nat (n + 32) else c.

(** [s.lower()] for a text of code points below 256, none of which
    [str.lower] turns into more than one character. *)
Fixpoint lower (s : string) : string :=
  match s with
  | EmptyString => EmptyString
  | String c s' => String (lower_char c) (lower s')
  end.

Fixpoint take (n : nat) (s : string) : string :=
  match n, s with
  | S k, String c s' => String c (take k s')
  | _, _ => EmptyString
  end.

Fixpoint drop (n : nat) (s : string) : string :=
  match n, s with
  | S k, String _ s' => drop k s'
  | _, _ => s
  end.

(** [s.startswith(p)]. *)
Fixpoint startswith (s p : string) {struct p} : bool :=
  match p, s with
  | EmptyString, _ => true
  | String a p', String b s' => Ascii.eqb a b && startswith s' p'
  | String _ _, EmptyString => false
  end.

(** [s.find(sub)]: the lowest index at which [sub] occurs. *)
Fixpoint find (s sub : string) : option nat :=
  if startswith s sub then Some 0
  else match s with
       | EmptyString => None
       | String _ s' => option_map S (find s' sub)
       end.

(** [s.find(sub, pos)] for [pos >= 0]. *)
Definition find_from (s sub : string) (pos : nat) : option nat :=
  if length s <? pos then None
  else option_map (fun i => pos + i) (find (drop pos s) sub).

(** [sub in s]. *)
Definition contains (s sub : string) : bool :=
  match find s sub with Some _ => true | None => false end.

(** [s.count(sub)]: occurrences counted left to right without overlap.
    [skip] is the number of characters still covered by the last
    occurrence counted. *)
Fixpoint count_go (sub s : string) (skip : nat) : nat :=
  match s with
  | EmptyString => 0
  | String _ s' =>
      match skip with
      | S k => count_go sub s' k
      | O => if startswith s sub
             then S (count_go sub s' (length sub - 1))
             else count_go sub s' 0
      end
  end.

Definition count (s sub : string) : nat :=
  match sub with
  | EmptyString => S (length s)
  | _ => count_go sub s 0
  end.

Fixpoint lstrip (s : string) : string :=
  match s with
  | String c s' => if isspace c then lstrip s' else s
  | EmptyString => EmptyString
  end.

Fixpoint rstrip (s : string) : string :=
  match s with
  | EmptyString => EmptyString
  | String c s' =>
      match rstrip s' with
      | EmptyString => if isspace c then EmptyString else String c EmptyString
      | r => String c r
      end
  end.

(** [s.strip()]. *)
Definition strip (s : string) : string := rstrip (lstrip s).

(** [sep.join(l)]. *)
Fixpoint join (sep : string) (l : list string) : string :=
  match l with
  | [] => EmptyString
  | [x] => x
  | x :: l' => (x ++ sep ++ join sep l')%string
  end.

(** [s.split(sep, 1)] when it has two parts. *)
Definition split_once (s sep : string) : option (string * string) :=
  match find s sep with
  | Some i => Some (take i s, drop (i + length sep) s)
  | None => None
  end.

(** [s.split(sep)[0]]. *)
Definition split_head (s sep : string) : string :=
  match find s sep with
  | Some i => take i s
  | None => s
  end.

(** [s.split(sep)] for a non-empty [sep]; the fuel is the length of [s],
    which bounds the number of separators. *)
Fixpoint split_fuel (fuel : nat) (s sep : string) : list string :=
  match find s sep with
  | None => [s]
  | Some i =>
      take i s ::
      match fuel with
      | O => []
      | S f => split_fuel f (drop (i + length sep) s) sep
      end
  end.

Definition split (s sep : string) : list string :=
  split_fuel (length s) s sep.

(** Index normalisation of a slice bound, as [s[a:b]] does it. *)
Definition slice_index (len i : Z) : Z :=
  if (i <? 0)%Z then Z.max 0 (i + len) else Z.min i len.

(** [s[a:b]]. *)
Definition slice (s : string) (a b : Z) : string :=
  let len := Z.of_nat (length s) in
  let a' := slice_index len a in
  let b' := slice_index len b in
  take (Z.to_nat (b' - a')) (drop (Z.to_nat a') s).

(** [str(n)] for an integer. *)
Definition str_of_Z (n : Z) : string := NilEmpty.string_of_int (Z.to_int n).

(** The characters with the Unicode property Cased. *)
Definition iscased (c : ascii) : bool :=
  let n := code c in
  ((65 <=? n) && (n <=? 90)) || ((97 <=? n) && (n <=? 122))
  || (n =? 170) || (n =? 181) || (n =? 186)
  || ((192 <=? n) && (n <=? 214)) || ((216 <=? n) && (n <=? 246))
  || ((248 <=? n) && (n <=? 255)).

(** The title-case form of one character, as code points: two of them
    for U+00DF, one above 255 for U+00B5 and for U+00FF. *)
Definition title_char (c : ascii) : list nat :=
  let n := code c in
  if (97 <=? n) && (n <=? 122) then [n - 32]
  else if n =? 181 then [924]
  else if n =? 223 then [83; 115]
  else if (224 <=? n) && (n <=? 254) && negb (n =? 247) then [n - 32]
  else if n =? 255 then [376]
  else [n].

(** The loop of [str.title]: a character that follows a cased one is
    lowered, any other is put in title case. *)
Fixpoint title_from (s : string) (previous_is_cased : bool) : list nat :=
  match s with
  | EmptyString => []
  | String c s' =>
      (if previous_is_cased then [code (lower_char c)] else title_char c)
      ++ title_from s' (iscased c)
  end.

(** [s.title()], as code points. *)
Definition title (s : string) : list nat := title_from s false.

(** The code points of a text. *)
Definition codes (s : string) : list nat := map code (list_ascii_of_string s).

End PyStr.

(** ** Python dicts and Counters, in insertion order *)

Module Dict.

Definition dict (V : Type) : Type := list (string * V).

Fixpoint get {V : Type} (d : dict V) (k : string) : option V :=
  match d with
  | [] => None
  | (k', v) :: d' => if String.eqb k' k then Some v else get d' k
  end.

(** [d[k] = v]: an existing key keeps its place, a new key goes last. *)
Fixpoint set {V : Type} (d : dict V) (k : string) (v : V) : dict V :=
  match d with
  | [] => [(k, v)]
  | (k', v') :: d' =>
      if String.eqb k' k then (k', v) :: d' else (k', v') :: set d' k v
  end.

(** [dict(items)]. *)
Definition of_items {V : Type} (l : list (string * V)) : dict V :=
  fold_left (fun d kv => set d (fst kv) (snd kv)) l [].

Definition keys {V : Type} (d : dict V) : list string := map fst d.

(** A [Counter] reads a missing key as 0. *)
Definition counter : Type := dict nat.

Definition cget (c : counter) (k : string) : nat :=
  match get c k with Some n => n | None => 0 end.

(** [c[k] += 1]. *)
Definition incr (c : counter) (k : string) : counter := set c k (S (cget c k)).

(** One step of the stable descending sort: [x] stood before every item
    of [l], so it goes before the first item that is not larger. *)
Fixpoint insert_desc (x : string * nat) (l : list (string * nat))
  : list (string * nat) :=
  match l with
  | [] => [x]
  | y :: l' => if snd y <=? snd x then x :: y :: l' else y :: insert_desc x l'
  end.

(** [sorted(items, key=lambda x: x[1], reverse=True)]: descending by
    count, items of equal count in their original order. *)
Definition sorted_desc (l : list (string * nat)) : list (string * nat) :=
  fold_right insert_desc [] l.

(** [Counter.most_common(n)]. *)
Definition most_common (n : nat) (c : counter) : list (string * nat) :=
  firstn n (sorted_desc c).

End Dict.

(** ** Records and corpora *)

Record record : Type := mkRecord {
  rec_title : option string;
  rec_text : option string
}.

(** The rows of the transcript table, in storage order. *)
Definition corpus : Type := list record.

(** ** [ComprehensiveAnalyzer] *)

Module Analyzer.
Import PyStr Dict.

Definition target_phrases : list string :=
  [ "courts of heaven"; "court of heaven"; "DNA healing"; "wounded soul";
    "soul wound"; "wounding spirit"; "leviathan spirit"; "jezebel spirit";
    "python spirit"; "generational curse"; "territorial spirits";
    "seven mountains"; "apostolic center"; "prophetic word";
    "name it claim it"; "speak into existence"; "seed faith";
    "hundredfold return"; "breakthrough anointing"; "supernatural favor";
    "kingdom of god"; "kingdom now"; "power encounter"; "signs and wonders";
    "holy spirit"; "baptism of the spirit"; "spiritual gifts";
    "word of knowledge";
    "gospel of"; "grace of god"; "blood of christ"; "atonement";
    "justification"; "sanctification"; "repentance"; "faith alone";
    "scripture alone"; "sola scriptura" ].

(** [[row[0] for row in cursor.fetchall() if row[0]]]: the texts that are
    neither NULL nor empty. *)
Fixpoint nonempty_texts (c : corpus) : list string :=
  match c with
  | [] => []
  | r :: c' =>
      match rec_text r with
      | Some (String a t) => String a t :: nonempty_texts c'
      | _ => nonempty_texts c'
      end
  end.

Definition all_text (c : corpus) : string := join " " (nonempty_texts c).

Definition all_text_lower (c : corpus) : string := lower (all_text c).

(** The count the loop computes for one phrase. *)
Definition phrase_count (c : corpus) (phrase : string) : nat :=
  count (all_text_lower c) (lower phrase).

(** The body of [for phrase in target_phrases]. *)
Definition phrase_step (c : corpus) (min_occurrences : Z)
    (phrase_counts : dict nat) (phrase : string) : dict nat :=
  let n := phrase_count c phrase in
  if (min_occurrences <=? Z.of_nat n)%Z then set phrase_counts phrase n
  else phrase_counts.

(** [find_all_phrases] over an arbitrary candidate list. *)
Definition find_phrases (phrases : list string) (c : corpus)
    (min_occurrences : Z) : dict nat :=
  of_items (sorted_desc (fold_left (phrase_step c min_occurrences) phrases [])).

Definition find_all_phrases (c : corpus) (min_occurrences : Z) : dict nat :=
  find_phrases target_phrases c min_occurrences.

(** *** The three title patterns of [detect_series] *)

(** [\s+] followed by [k]: one or more whitespace characters, any number
    of them, then the continuation. *)
Fixpoint ws_plus (k : string -> bool) (s : string) : bool :=
  match s with
  | String c s' => isspace c && (k s' || ws_plus k s')
  | EmptyString => false
  end.

(** [\s+Part] matched at the start of [s]. *)
Definition re_part (s : string) : bool :=
  ws_plus (fun r => startswith r "Part") s.

(** [\s+-\s+Part] matched at the start of [s]. *)
Definition re_dash_part (s : string) : bool :=
  ws_plus (fun r => match r with
                    | String "-" r' => re_part r'
                    | _ => false
                    end) s.

(** [re.split(r'\s+-\s+Part|\s+Part', s)[0]]: the text before the
    leftmost position at which one of the alternatives matches. *)
Fixpoint re_split_head (s : string) : string :=
  if re_dash_part s || re_part s then EmptyString
  else match s with
       | EmptyString => EmptyString
       | String c s' => String c (re_split_head s')
       end.

(** [$]: the end of the string, or just before a final newline. *)
Definition at_end (s : string) : bool :=
  match s with
  | EmptyString => true
  | String c EmptyString => Ascii.eqb c newline
  | _ => false
  end.

(** [\d+$]. *)
Fixpoint digits_end (s : string) : bool :=
  match s with
  | String c s' => isdigit c && (at_end s' || digits_end s')
  | EmptyString => false
  end.

(** [\s+\d+$]. *)
Definition re_int_tail (s : string) : bool := ws_plus digits_end s.

(** The rest of the lazy group [(.+?)] once its first character is
    taken: it stops at the first position from which the tail matches. *)
Fixpoint lazy_dots (s : string) : option string :=
  if re_int_tail s then Some EmptyString
  else match s with
       | String c s' =>
           if isdot c then option_map (String c) (lazy_dots s') else None
       | EmptyString => None
       end.

(** [re.match(r'(.+?)\s+\d+$', title)]: group 1 of the match, if any. *)
Definition match_trailing_int (title : string) : option string :=
  match title with
  | String c s' =>
      if isdot c then option_map (String c) (lazy_dots s') else None
  | EmptyString => None
  end.

(** Pattern 1, "Series Name: Episode". *)
Definition colon_name (title : string) : option string :=
  if contains title ":" then Some (strip (split_head title ":")) else None.

(** Pattern 2, "Series - Part N". *)
Definition part_name (title : string) : option string :=
  if contains title " - Part " || contains title " Part "
  then Some (strip (re_split_head title)) else None.

(** Pattern 3, "Series Name N". *)
Definition trailing_int_name (title : string) : option string :=
  option_map strip (match_trailing_int title).

Definition incr_opt (series : counter) (name : option string) : counter :=
  match name with Some n => incr series n | None => series end.

(** The body of [for title in titles]: pattern 2 is the [elif] of
    pattern 1, pattern 3 is an [if] of its own. *)
Definition count_title (series : counter) (title : string) : counter :=
  let series :=
    match colon_name title with
    | Some n => incr series n
    | None => incr_opt series (part_name title)
    end in
  incr_opt series (trailing_int_name title).

(** [SELECT title FROM ... WHERE title IS NOT NULL]. *)
Fixpoint titles (c : corpus) : list string :=
  match c with
  | [] => []
  | r :: c' =>
      match rec_title r with
      | Some t => t :: titles c'
      | None => titles c'
      end
  end.

Definition series_counter (ts : list string) : counter :=
  fold_left count_title ts [].

Definition detect_series_titles (ts : list string) : dict nat :=
  of_items (filter (fun kv => 3 <=? snd kv) (most_common 20 (series_counter ts))).

Definition detect_series (c : corpus) : dict nat :=
  detect_series_titles (titles c).

End Analyzer.

(** ** [ComprehensiveAnalyzer.count_keywords] *)

Module Keywords.
Import PyStr Dict.

(** The dict literal the method starts from. *)
Definition keywords : dict nat :=
  of_items
    [ ("god", 0); ("jesus", 0); ("christ", 0); ("holy spirit", 0);
      ("spirit", 0);
      ("gospel", 0); ("salvation", 0); ("saved", 0); ("grace", 0);
      ("faith", 0);
      ("repent", 0); ("sin", 0); ("cross", 0); ("blood", 0);
      ("atonement", 0);
      ("healing", 0); ("miracle", 0); ("prophetic", 0); ("prophecy", 0);
      ("tongues", 0); ("anointing", 0); ("demon", 0); ("deliverance", 0);
      ("blessing", 0); ("blessed", 0); ("prosperity", 0); ("favor", 0);
      ("breakthrough", 0); ("abundance", 0); ("wealth", 0);
      ("kingdom", 0); ("church", 0); ("worship", 0); ("prayer", 0) ].

(** [' '.join([row[0].lower() for row in cursor.fetchall() if row[0]])]. *)
Definition all_text (c : corpus) : string :=
  join " " (map lower (Analyzer.nonempty_texts c)).

(** [for keyword in keywords.keys(): keywords[keyword] = all_text.count(keyword)]. *)
Definition count_loop (text : string) (ks : list string) (d : dict nat)
  : dict nat :=
  fold_left (fun d keyword => set d keyword (count text keyword)) ks d.

Definition count_keywords (c : corpus) : dict nat :=
  of_items (sorted_desc (count_loop (all_text c) (keys keywords) keywords)).

End Keywords.

(** ** The SQL functions the queries use *)

(** An SQL statement either yields its value or raises. *)
Inductive outcome (A : Type) : Type :=
| Ok (a : A)
| Raise (message : string).
Arguments Ok {A} a.
Arguments Raise {A} message.

Module Sqlite.

(** [LOWER()] folds the ASCII letters only. *)
Definition lower_char (c : ascii) : ascii :=
  let n := PyStr.code c in
  if (65 <=? n) && (n <=? 90) then ascii_of_nat (n + 32) else c.

Fixpoint lower (s : string) : string :=
  match s with
  | EmptyString => EmptyString
  | String c s' => String (lower_char c) (lower s')
  end.

(** What the functions that read a text as a C string see of it: the
    characters before the first NUL. *)
Fixpoint c_str (s : string) : string :=
  match s with
  | EmptyString => EmptyString
  | String c s' =>
      if Ascii.eqb c Ascii.zero then EmptyString else String c (c_str s')
  end.

(** The number of bytes of a text in UTF-8. *)
Fixpoint utf8_length (s : string) : Z :=
  match s with
  | EmptyString => 0%Z
  | String c s' =>
      ((if (PyStr.code c <? 128)%nat then 1 else 2) + utf8_length s')%Z
  end.

(** A pattern of more than 50000 bytes is refused. *)
Definition too_complex (pat : string) : bool :=
  (50000 <? utf8_length pat)%Z.

Definition too_complex_message : string := "LIKE or GLOB pattern too complex".

(** Two characters that [LIKE] takes for the same. *)
Definition like_char (p c : ascii) : bool :=
  Ascii.eqb (lower_char p) (lower_char c).

(** The comparison behind [LIKE], on two C strings: [%] stands for any
    run of characters, [_] for any one character, anything else for
    itself up to ASCII letter case. *)
Fixpoint pattern_compare (pat : string) : string -> bool :=
  match pat with
  | EmptyString =>
      fun text => match text with EmptyString => true | _ => false end
  | String p pat' =>
      if Ascii.eqb p "%" then
        fix any (text : string) : bool :=
          pattern_compare pat' text
          || match text with
             | EmptyString => false
             | String _ text' => any text'
             end
      else if Ascii.eqb p "_" then
        fun text =>
          match text with
          | EmptyString => false
          | String _ text' => pattern_compare pat' text'
          end
      else
        fun text =>
          match text with
          | EmptyString => false
          | String c text' => like_char p c && pattern_compare pat' text'
          end
  end.

(** [text LIKE pat] for a pattern within the limit: both are read as C
    strings. *)
Definition like (pat text : string) : bool :=
  pattern_compare (c_str pat) (c_str text).

(** A [SELECT ... WHERE] whose condition calls [LIKE] with the pattern
    [pat] on every row: the function refuses the pattern as soon as it is
    called, which it is when there is a row. *)
Definition select_where {A : Type} (pat : string) (keep : A -> bool)
    (rows : list A) : outcome (list A) :=
  match rows with
  | [] => Ok []
  | _ :: _ =>
      if too_complex pat then Raise too_complex_message
      else Ok (filter keep rows)
  end.

(** [WHERE LOWER(col) LIKE ?] with the parameter [f'%{term.lower()}%'];
    a NULL column does not satisfy it. *)
Definition lower_like (col : option string) (term : string) : bool :=
  match col with
  | Some text => like ("%" ++ PyStr.lower term ++ "%")%string (lower text)
  | None => false
  end.

End Sqlite.

(** ** The context inspector *)

Module Context.
Import PyStr.

Record occurrence : Type := mkOccurrence {
  occ_title : option string;
  occ_context : string;
  occ_position : nat
}.

(** The context string built for a match at [pos]. *)
Definition context_at (text search_term : string) (context_chars : Z)
    (pos : nat) : string :=
  let start := Z.max 0 (Z.of_nat pos - context_chars) in
  let stop := Z.min (Z.of_nat (length text))
                    (Z.of_nat pos + Z.of_nat (length search_term) + context_chars) in
  ("..." ++ strip (slice text start stop) ++ "...")%string.

(** The [while True] loop over one text, started at [pos].  [None] means
    that the fuel ran out before [find] failed. *)
Fixpoint scan (fuel : nat) (title : option string)
    (text search_term : string) (context_chars : Z) (pos : nat)
  : option (list occurrence) :=
  match fuel with
  | O => None
  | S fuel' =>
      match find_from (lower text) (lower search_term) pos with
      | None => Some []
      | Some p =>
          option_map
            (cons (mkOccurrence title
                     (context_at text search_term context_chars p) p))
            (scan fuel' title text search_term context_chars
                  (p + length search_term))
      end
  end.

(** The rows that satisfy the condition of the query. *)
Definition matched (c : corpus) (search_term : string) : corpus :=
  filter (fun r => Sqlite.lower_like (rec_text r) search_term) c.

(** [cursor.execute] and [fetchall]: the rows returned, or the exception
    of the query. *)
Definition select (c : corpus) (search_term : string) : outcome corpus :=
  Sqlite.select_where ("%" ++ lower search_term ++ "%")%string
                      (fun r => Sqlite.lower_like (rec_text r) search_term) c.

(** The body of the [for] loop over the rows, with the fuel each text is
    scanned with. *)
Definition scan_record (fuel : string -> nat) (search_term : string)
    (context_chars : Z) (r : record) : option (list occurrence) :=
  match rec_text r with
  | Some (String a t) =>
      let text := String a t in
      scan (fuel text) (rec_title r) text search_term context_chars 0
  | _ => Some []
  end.

(** The [for] loop over the rows. *)
Fixpoint scan_rows (fuel : string -> nat) (search_term : string)
    (context_chars : Z) (rows : corpus) : option (list occurrence) :=
  match rows with
  | [] => Some []
  | r :: rows' =>
      match scan_record fuel search_term context_chars r,
            scan_rows fuel search_term context_chars rows' with
      | Some here, Some rest => Some (here ++ rest)
      | _, _ => None
      end
  end.

(** [find_all_contexts] with the fuel each text is scanned with: [None]
    when a scan has not ended, [Some (Raise e)] when the query raises,
    [Some (Ok results)] when the function returns. *)
Definition find_all_contexts_fuel (fuel : string -> nat) (c : corpus)
    (search_term : string) (context_chars : Z)
  : option (outcome (list occurrence)) :=
  match select c search_term with
  | Raise e => Some (Raise e)
  | Ok rows => option_map Ok (scan_rows fuel search_term context_chars rows)
  end.

(** One more round than the text has characters is enough for a
    non-empty search term. *)
Definition find_all_contexts (c : corpus) (search_term : string)
    (context_chars : Z) : option (outcome (list occurrence)) :=
  find_all_contexts_fuel (fun text => S (length text)) c search_term
                         context_chars.

End Context.

(** ** Python floats, as far as the comparison table needs them *)

Module PyFloat.

Definition float : Set := PrimFloat.float.

(** [float(n)] for a count; exact below 2^53. *)
Definition of_count (n : Z) : float := PrimFloat.of_uint63 (Uint63.of_Z n).

(** [a / b] on two counts. *)
Definition truediv (a b : Z) : float :=
  PrimFloat.div (of_count a) (of_count b).

(** [num / den] rounded to the nearest integer, ties to even. *)
Definition round_half_even (num den : Z) : Z :=
  let q := (num / den)%Z in
  match (2 * (num mod den) ?= den)%Z with
  | Lt => q
  | Gt => (q + 1)%Z
  | Eq => if Z.even q then q else (q + 1)%Z
  end.

(** Ten times [m * 2^e], rounded to an integer. *)
Definition tenths (m : positive) (e : Z) : Z :=
  if (0 <=? e)%Z then (10 * Z.pos m * 2 ^ e)%Z
  else round_half_even (10 * Z.pos m) (2 ^ (- e)).

Definition sign_str (s : bool) : string := if s then "-" else "".

(** [f"{x:.1f}"] for a float. *)
Definition format_1f (x : float) : string :=
  match FloatOps.Prim2SF x with
  | SpecFloat.S754_zero s => (sign_str s ++ "0.0")%string
  | SpecFloat.S754_infinity s => (sign_str s ++ "inf")%string
  | SpecFloat.S754_nan => "nan"
  | SpecFloat.S754_finite s m e =>
      let t := tenths m e in
      (sign_str s ++ PyStr.str_of_Z (t / 10) ++ "."
       ++ PyStr.str_of_Z (t mod 10))%string
  end.

End PyFloat.

(** ** The topic comparison of two corpora *)

Module Compare.

(** The value of [pct1] and [pct2]: a float, or the integer of the
    [else] branch. *)
Inductive pct : Type :=
| PctFloat (x : PyFloat.float)
| PctInt (n : Z).

Record comparison_row : Type := mkRow {
  row_topic : list nat;
  row_count1 : Z;
  row_pct1 : string;
  row_count2 : Z;
  row_pct2 : string;
  row_difference : Z
}.

(** [SELECT COUNT( * ) FROM t WHERE col IS NOT NULL], which gives
    [total_count1] and [total_count2]. *)
Definition total_count (c : corpus) : Z :=
  Z.of_nat (List.length
              (filter (fun r => match rec_text r with
                                | Some _ => true
                                | None => false
                                end) c)).

(** [SELECT COUNT( * ) FROM t WHERE LOWER(col) LIKE ?]. *)
Definition topic_count (c : corpus) (topic : string) : outcome Z :=
  match Sqlite.select_where ("%" ++ PyStr.lower topic ++ "%")%string
                            (fun r => Sqlite.lower_like (rec_text r) topic) c
  with
  | Ok rows => Ok (Z.of_nat (List.length rows))
  | Raise e => Raise e
  end.

(** [(count / total * 100) if total > 0 else 0]. *)
Definition percentage (count total : Z) : pct :=
  if (0 <? total)%Z
  then PctFloat (PrimFloat.mul (PyFloat.truediv count total)
                               (PyFloat.of_count 100))
  else PctInt 0.

(** [f"{pct:.1f}%"]. *)
Definition format_pct (p : pct) : string :=
  match p with
  | PctFloat x => (PyFloat.format_1f x ++ "%")%string
  | PctInt n => (PyStr.str_of_Z n ++ ".0%")%string
  end.

(** The body of [for topic in topics]: the row appended, or the
    exception of one of the two queries.  [row_topic] holds the code
    points of [topic.title()]. *)
Definition compare_topic (c1 c2 : corpus) (topic : string)
  : outcome comparison_row :=
  match topic_count c1 topic with
  | Raise e => Raise e
  | Ok count1 =>
      match topic_count c2 topic with
      | Raise e => Raise e
      | Ok count2_val =>
          let pct1 := percentage count1 (total_count c1) in
          let pct2 := percentage count2_val (total_count c2) in
          Ok (mkRow (PyStr.title topic) count1 (format_pct pct1)
                    count2_val (format_pct pct2) (count1 - count2_val))
      end
  end.

(** The loop over the topics: the rows, or the first exception. *)
Fixpoint run_comparison (c1 c2 : corpus) (topics : list string)
  : outcome (list comparison_row) :=
  match topics with
  | [] => Ok []
  | topic :: topics' =>
      match compare_topic c1 c2 topic with
      | Raise e => Raise e
      | Ok row =>
          match run_comparison c1 c2 topics' with
          | Raise e => Raise e
          | Ok rows => Ok (row :: rows)
          end
      end
  end.

End Compare.


(** ** Schema detection *)

Module Schema.

(** A column of a table.  A generated column is hidden: a statement
    resolves its name, [PRAGMA table_info] does not list it. *)
Record column : Type := mkColumn {
  col_name : string;
  col_hidden : bool
}.

(** Columns that are not hidden. *)
Definition plain (names : list string) : list column :=
  map (fun n => mkColumn n false) names.

(** One entry of [sqlite_master] with its columns and its rows, one cell
    per column; a cell holds a text or NULL. *)
Record table : Type := mkTable {
  tbl_type : string;
  tbl_name : string;
  tbl_columns : list column;
  tbl_rows : list (list (option string))
}.

(** The names [PRAGMA table_info] lists. *)
Definition table_info (t : table) : list string :=
  map col_name (filter (fun c => negb (col_hidden c)) (tbl_columns t)).

(** The catalogue of a database, in the order [sqlite_master] lists it. *)
Definition database : Type := list table.

(** [type='table' AND (name='transcripts' OR name='video_transcripts')]. *)
Definition accepted_table (t : table) : bool :=
  String.eqb (tbl_type t) "table"
  && (String.eqb (tbl_name t) "transcripts"
      || String.eqb (tbl_name t) "video_transcripts").

(** [x in columns]. *)
Definition mem (x : string) (columns : list string) : bool :=
  existsb (String.eqb x) columns.

(** [detect_schema] of compare.py; [(None, None)] is the sentinel. *)
Definition detect_schema (db : database) : option string * option string :=
  match List.find accepted_table db with
  | None => (None, None)
  | Some t =>
      let table_name := tbl_name t in
      let columns := table_info t in
      if mem "transcript_text" columns
      then (Some table_name, Some "transcript_text")
      else if mem "transcript" columns
      then (Some table_name, Some "transcript")
      else (None, None)
  end.

(** What [sqlite3.connect] and the first statement find at a path. *)
Inductive opened : Type :=
| Opened (db : database)
| OpenError (message : string).

(** SQL resolves a column name without regard to ASCII letter case. *)
Definition same_identifier (a b : string) : bool :=
  String.eqb (Sqlite.lower a) (Sqlite.lower b).

Fixpoint column_index (columns : list column) (name : string) : option nat :=
  match columns with
  | [] => None
  | c :: columns' =>
      if same_identifier (col_name c) name then Some 0
      else option_map S (column_index columns' name)
  end.

(** The length [LENGTH] gives for one cell, the number of characters
    before the first NUL; NULL cells are left out of the [SUM]. *)
Definition cell_length (row : list (option string)) (i : nat) : nat :=
  match nth i row None with
  | Some text => String.length (Sqlite.c_str text)
  | None => 0
  end.

(** [SELECT SUM(LENGTH(col)) FROM t], followed by [or 0]. *)
Definition sum_length (t : table) (col : string) : outcome nat :=
  match column_index (tbl_columns t) col with
  | None => Raise ("no such column: " ++ col)%string
  | Some i => Ok (fold_right (fun row acc => cell_length row i + acc) 0 (tbl_rows t))
  end.

Record db_info : Type := mkInfo {
  info_table_name : string;
  info_transcript_col : string;
  info_count : nat;
  info_total_chars : nat
}.

(** [get_database_info] of devotional_generator.py: the result and the
    messages passed to [st.error].  [None] is the sentinel; it is returned
    by the [if not result] test and by the [except] clause, which a failed
    connection or a query on a column that does not exist reaches. *)
Definition get_database_info (o : opened) : option db_info * list string :=
  match o with
  | OpenError e => (None, ["Database error: " ++ e]%string)
  | Opened db =>
      match List.find accepted_table db with
      | None => (None, [])
      | Some t =>
          let table_name := tbl_name t in
          let count := List.length (tbl_rows t) in
          let columns := table_info t in
          let transcript_col :=
            if mem "transcript_text" columns then "transcript_text"
            else "transcript" in
          match sum_length t transcript_col with
          | Raise e => (None, ["Database error: " ++ e]%string)
          | Ok total_chars =>
              (Some (mkInfo table_name transcript_col count total_chars), [])
          end
      end
  end.

End Schema.


(** ** The series library *)

Module Library.

Section Store.

(** Python values handed to [json.dumps], the encoder itself, and the
    value of the literal [[]]. *)
Variable json : Type.
Variable json_dumps : json -> string.
Variable empty_list : json.

(** [datetime.now().isoformat()] at the n-th reading of the clock. *)
Variable isoformat_now : nat -> string.

(** A row of [series_library]. *)
Record series_row : Type := mkSeries {
  series_id : Z;
  series_title : string;
  topic : string;
  num_posts : Z;
  audience : string;
  style : string;
  post_length : string;
  date_created : string;
  source_databases : string;
  total_words : Z;
  total_cost : PyFloat.float;
  status : string;
  tags : option string;
  notes : option string
}.

(** A row of [posts]. *)
Record post_row : Type := mkPost {
  post_id : Z;
  post_series_id : Z;
  post_number : Z;
  post_title : string;
  html_content : string;
  markdown_content : string;
  word_count : Z;
  sources_used : string;
  post_date_created : string
}.

(** The two tables in rowid order, with the AUTOINCREMENT sequence of
    each. *)
Record library : Type := mkLibrary {
  series_rows : list series_row;
  post_rows : list post_row;
  series_seq : Z;
  posts_seq : Z
}.

(** The library file ([None] before its tables exist) and the number of
    clock readings so far. *)
Record world : Type := mkWorld {
  store : option library;
  ticks : nat
}.

(** One entry of [series_data['posts']]; the optional keys are read with
    [.get]. *)
Record post_data : Type := mkPostData {
  pd_post_num : Z;
  pd_title : option string;
  pd_html : string;
  pd_markdown : option string;
  pd_word_count : option Z;
  pd_sources : option json
}.

(** The argument of [save_series_to_library].  [sd_status] is a ['status']
    entry the dict may carry. *)
Record series_data : Type := mkSeriesData {
  sd_title : string;
  sd_topic : string;
  sd_num_posts : Z;
  sd_audience : string;
  sd_style : string;
  sd_post_length : string;
  sd_source_databases : json;
  sd_total_words : Z;
  sd_cost : option PyFloat.float;
  sd_status : option string;
  sd_posts : list post_data
}.

Definition empty_library : library := mkLibrary [] [] 0 0.

(** [init_series_library]: both tables are created if they do not exist. *)
Definition init_series_library (s : option library) : library :=
  match s with
  | Some lib => lib
  | None => empty_library
  end.

Definition or_default {A : Type} (o : option A) (d : A) : A :=
  match o with Some a => a | None => d end.

(** The loop body of [for post in series_data['posts']]: one INSERT, one
    clock reading. *)
Definition insert_post (sid : Z) (acc : list post_row * Z * nat)
    (post : post_data) : list post_row * Z * nat :=
  let '(rows, seq, t) := acc in
  let row :=
    mkPost (seq + 1) sid (pd_post_num post)
           (or_default (pd_title post)
                       ("Post " ++ PyStr.str_of_Z (pd_post_num post))%string)
           (pd_html post)
           (or_default (pd_markdown post) "")
           (or_default (pd_word_count post) 0%Z)
           (json_dumps (or_default (pd_sources post) empty_list))
           (isoformat_now t) in
  (rows ++ [row], (seq + 1)%Z, S t).

Definition save_series_to_library (w : world) (sd : series_data) : Z * world :=
  let lib := init_series_library (store w) in
  let sid := (series_seq lib + 1)%Z in
  let row :=
    mkSeries sid (sd_title sd) (sd_topic sd) (sd_num_posts sd)
             (sd_audience sd) (sd_style sd) (sd_post_length sd)
             (isoformat_now (ticks w))
             (json_dumps (sd_source_databases sd))
             (sd_total_words sd)
             (or_default (sd_cost sd) PrimFloat.zero)
             "draft" None None in
  let '(posts, pseq, t) :=
    fold_left (insert_post sid) (sd_posts sd)
              (post_rows lib, posts_seq lib, S (ticks w)) in
  (sid, mkWorld (Some (mkLibrary (series_rows lib ++ [row]) posts sid pseq)) t).

(** One step of the sort behind [ORDER BY post_number]; rows of equal
    number stay in rowid order. *)
Fixpoint insert_by_number (p : post_row) (l : list post_row) : list post_row :=
  match l with
  | [] => [p]
  | q :: l' =>
      if (post_number p <=? post_number q)%Z then p :: q :: l'
      else q :: insert_by_number p l'
  end.

Definition order_by_number (l : list post_row) : list post_row :=
  fold_right insert_by_number [] l.

Record details : Type := mkDetails {
  det_series : series_row;
  det_posts : list post_row
}.

Definition get_series_details (w : world) (sid : Z) : option details * world :=
  let lib := init_series_library (store w) in
  let w' := mkWorld (Some lib) (ticks w) in
  match List.find (fun s => (series_id s =? sid)%Z) (series_rows lib) with
  | None => (None, w')
  | Some series_data =>
      let posts :=
        order_by_number
          (filter (fun p => (post_series_id p =? sid)%Z) (post_rows lib)) in
      (Some (mkDetails series_data posts), w')
  end.

Definition delete_series (w : world) (sid : Z) : world :=
  let lib := init_series_library (store w) in
  let posts := filter (fun p => negb (post_series_id p =? sid)%Z) (post_rows lib) in
  let series := filter (fun s => negb (series_id s =? sid)%Z) (series_rows lib) in
  mkWorld (Some (mkLibrary series posts (series_seq lib) (posts_seq lib)))
          (ticks w).

(** The columns [get_all_series] and [search_series] select. *)
Record summary : Type := mkSummary {
  sum_series_id : Z;
  sum_series_title : string;
  sum_topic : string;
  sum_num_posts : Z;
  sum_audience : string;
  sum_date_created : string;
  sum_status : string;
  sum_total_words : Z
}.

Definition summarize (s : series_row) : summary :=
  mkSummary (series_id s) (series_title s) (topic s) (num_posts s)
            (audience s) (date_created s) (status s) (total_words s).

(** One step of the sort behind [ORDER BY date_created DESC]. *)
Fixpoint insert_by_date_desc (s : series_row) (l : list series_row)
  : list series_row :=
  match l with
  | [] => [s]
  | r :: l' =>
      if String.leb (date_created r) (date_created s) then s :: r :: l'
      else r :: insert_by_date_desc s l'
  end.

Definition order_by_date_desc (l : list series_row) : list series_row :=
  fold_right insert_by_date_desc [] l.

Definition get_all_series (w : world) : list summary * world :=
  let lib := init_series_library (store w) in
  (map summarize (order_by_date_desc (series_rows lib)),
   mkWorld (Some lib) (ticks w)).

Definition search_series (w : world) (search_term : string)
  : outcome (list summary) * world :=
  let lib := init_series_library (store w) in
  let pat := ("%" ++ search_term ++ "%")%string in
  (match Sqlite.select_where pat
                             (fun s => Sqlite.like pat (series_title s)
                                       || Sqlite.like pat (topic s))
                             (series_rows lib) with
   | Ok rows => Ok (map summarize (order_by_date_desc rows))
   | Raise e => Raise e
   end,
   mkWorld (Some lib) (ticks w)).

(** [UPDATE series_library SET status = ? WHERE series_id = ?], issued by
    the library page after it has initialised the library. *)
Definition update_status (w : world) (new_status : string) (sid : Z) : world :=
  let lib := init_series_library (store w) in
  let series :=
    map (fun s =>
           if (series_id s =? sid)%Z
           then mkSeries (series_id s) (series_title s) (topic s) (num_posts s)
                         (audience s) (style s) (post_length s) (date_created s)
                         (source_databases s) (total_words s) (total_cost s)
                         new_status (tags s) (notes s)
           else s)
        (series_rows lib) in
  mkWorld (Some (mkLibrary series (post_rows lib) (series_seq lib) (posts_seq lib)))
          (ticks w).

(** The operations on the library, and the world each leaves behind. *)
Inductive operation : Type :=
| OpInit
| OpSave (sd : series_data)
| OpGetAll
| OpGetDetails (sid : Z)
| OpDelete (sid : Z)
| OpSearch (search_term : string)
| OpUpdateStatus (new_status : string) (sid : Z).

Definition run (w : world) (o : operation) : world :=
  match o with
  | OpInit => mkWorld (Some (init_series_library (store w))) (ticks w)
  | OpSave sd => snd (save_series_to_library w sd)
  | OpGetAll => snd (get_all_series w)
  | OpGetDetails sid => snd (get_series_details w sid)
  | OpDelete sid => delete_series w sid
  | OpSearch search_term => snd (search_series w search_term)
  | OpUpdateStatus new_status sid => update_status w new_status sid
  end.

Definition run_all (w : world) (ops : list operation) : world :=
  fold_left run ops w.

(** Before anything has run: no library file, clock unread. *)
Definition initial_world : world := mkWorld None 0.

(** *** Vocabulary of the library properties *)

(** Every post row refers to a series row that exists. *)
Definition no_orphans (lib : library) : Prop :=
  forall p, In p (post_rows lib) ->
            exists s, In s (series_rows lib) /\ series_id s = post_series_id p.

Definition orphan_free (w : world) : Prop :=
  match store w with
  | Some lib => no_orphans lib
  | None => True
  end.

(** No series row has an id above the AUTOINCREMENT sequence. *)
Definition ids_bounded (lib : library) : Prop :=
  forall s, In s (series_rows lib) -> (series_id s <= series_seq lib)%Z.

Definition well_formed (w : world) : Prop :=
  match store w with
  | Some lib => no_orphans lib /\ ids_bounded lib
  | None => True
  end.

(** The rows the loop of [save_series_to_library] inserts for a list of
    posts, the sequence standing at [seq] and the clock at [t]. *)
Fixpoint new_post_rows (sid seq : Z) (t : nat) (posts : list post_data)
  : list post_row :=
  match posts with
  | [] => []
  | post :: posts' =>
      mkPost (seq + 1) sid (pd_post_num post)
             (or_default (pd_title post)
                         ("Post " ++ PyStr.str_of_Z (pd_post_num post))%string)
             (pd_html post)
             (or_default (pd_markdown post) "")
             (or_default (pd_word_count post) 0%Z)
             (json_dumps (or_default (pd_sources post) empty_list))
             (isoformat_now t)
      :: new_post_rows sid (seq + 1) (S t) posts'
  end.

(** The same input with another ['status'] entry. *)
Definition with_status (sd : series_data) (st : option string) : series_data :=
  mkSeriesData (sd_title sd) (sd_topic sd) (sd_num_posts sd) (sd_audience sd)
               (sd_style sd) (sd_post_length sd) (sd_source_databases sd)
               (sd_total_words sd) (sd_cost sd) st (sd_posts sd).

(** The operations that change or remove the series [sid]. *)
Definition touches (sid : Z) (o : operation) : bool :=
  match o with
  | OpDelete s => (s =? sid)%Z
  | OpUpdateStatus _ s => (s =? sid)%Z
  | _ => false
  end.

(** Posts in ascending order of post number. *)
Definition by_number (l : list post_row) : Prop :=
  StronglySorted (fun p q => (post_number p <= post_number q)%Z) l.

End Store.

End Library.


(** ** The devotional parser *)

Module Devotional.
Import PyStr.

Definition START : string := "---DEVOTIONAL START---".
Definition END_ : string := "---DEVOTIONAL END---".
Definition TITLE : string := "TITLE:".
Definition NARRATIVE : string := "NARRATIVE:".
Definition KEY_SCRIPTURES : string := "KEY SCRIPTURES:".

Record devotional : Type := mkDevotional {
  dev_title : string;
  dev_narrative : list string;
  dev_scriptures : list string
}.

Definition nonempty (s : string) : bool :=
  match s with EmptyString => false | _ => true end.

(** [[p.strip() for p in text.split('\n\n') if p.strip()]]. *)
Definition paragraphs (narrative_text : string) : list string :=
  filter nonempty
         (map strip (split narrative_text (String newline (String newline "")))).

(** The loop over the lines of the scripture block.  The second accepted
    bullet is U+2022, which no string of the model starts with. *)
Fixpoint scripture_lines (lines : list string) : list string :=
  match lines with
  | [] => []
  | line :: lines' =>
      let line := strip line in
      if startswith line "-" then
        let scripture := strip (drop 1 line) in
        if nonempty scripture then scripture :: scripture_lines lines'
        else scripture_lines lines'
      else scripture_lines lines'
  end.

(** The body of [for section in sections[1:]]; [None] is a [continue]. *)
Definition parse_section (section : string) : option devotional :=
  if negb (contains section END_) then None
  else
    let section := strip (split_head section END_) in
    match split_once section TITLE with
    | None => None
    | Some (_, remaining) =>
        match split_once remaining NARRATIVE with
        | None => None
        | Some (title_part, rest) =>
            let title := strip title_part in
            match split_once rest KEY_SCRIPTURES with
            | None => None
            | Some (narrative_part, scripture_part) =>
                let narrative_paras := paragraphs (strip narrative_part) in
                let scriptures :=
                  scripture_lines
                    (split (strip scripture_part) (String newline "")) in
                Some (mkDevotional title narrative_paras scriptures)
            end
        end
    end.

Fixpoint parse_sections (sections : list string) : list devotional :=
  match sections with
  | [] => []
  | section :: sections' =>
      match parse_section section with
      | Some d => d :: parse_sections sections'
      | None => parse_sections sections'
      end
  end.

(** The units of a response: what follows each start marker. *)
Definition units (content : string) : list string := tl (split content START).

Definition parse_devotionals (content : string) : list devotional :=
  parse_sections (units content).

(** What the generation service answers: a text, or an exception raised
    by the call. *)
Inductive response : Type :=
| Text (content : string)
| Failure (message : string).

(** [generate_devotionals] after the request is sent: the devotionals
    returned and the messages passed to [st.error]. *)
Definition generate_devotionals (r : response) : list devotional * list string :=
  match r with
  | Text content => (parse_devotionals content, [])
  | Failure e => ([], ["Error generating devotionals: " ++ e]%string)
  end.

End Devotional.


(** ** Vocabulary of the properties *)

(** A list of items in descending order of count. *)
Definition desc_by_count (l : list (string * nat)) : Prop :=
  StronglySorted (fun a b => snd b <= snd a) l.

(** The name the [if]/[elif] pair of [detect_series] extracts: the colon
    name when the title has a colon, the Part name otherwise. *)
Definition primary_name (title : string) : option string :=
  match Analyzer.colon_name title with
  | Some n => Some n
  | None => Analyzer.part_name title
  end.

(** 1 when an extracted name is [n], 0 otherwise. *)
Definition hit (o : option string) (n : string) : nat :=
  match o with
  | Some m => if String.eqb m n then 1 else 0
  | None => 0
  end.

(** The number of titles from which [f] extracts the name [n]. *)
Fixpoint hits (f : string -> option string) (ts : list string) (n : string)
  : nat :=
  match ts with
  | [] => 0
  | t :: ts' => hit (f t) n + hits f ts' n
  end.


(** The start positions [str.count] counts, [base] being the position of
    the first character of [s]. *)
Fixpoint positions_go (sub s : string) (skip base : nat) : list nat :=
  match s with
  | EmptyString => []
  | String _ s' =>
      match skip with
      | S k => positions_go sub s' k (S base)
      | O => if PyStr.startswith s sub
             then base :: positions_go sub s' (String.length sub - 1) (S base)
             else positions_go sub s' 0 (S base)
      end
  end.


Definition record_positions (search_term : string) (r : record) : list nat :=
  match rec_text r with
  | Some text =>
      positions_go (PyStr.lower search_term) (PyStr.lower text) 0 0
  | None => []
  end.



(** [t] is the first table of the catalogue with an accepted name. *)
Definition first_accepted (db : Schema.database) (t : Schema.table) : Prop :=
  exists before after,
    db = before ++ t :: after
    /\ Schema.accepted_table t = true
    /\ forall u, In u before -> Schema.accepted_table u = false.

(** No table of the catalogue has an accepted name. *)
Definition no_accepted (db : Schema.database) : Prop :=
  forall u, In u db -> Schema.accepted_table u = false.

(** The table has no column, listed or hidden, that SQL would take for
    [transcript_text] or for [transcript]. *)
Definition field_absent (t : Schema.table) : Prop :=
  Schema.column_index (Schema.tbl_columns t) "transcript_text" = None
  /\ Schema.column_index (Schema.tbl_columns t) "transcript" = None.


(** The text holds the lowered topic somewhere, up to ASCII letter case. *)
Definition contains_ci (text topic : string) : Prop :=
  exists before mid after,
    text = (before ++ mid ++ after)%string
    /\ Sqlite.lower mid = Sqlite.lower (PyStr.lower topic).

(** The topic has none of the two wildcards of [LIKE]. *)
Fixpoint wildcard_free (topic : string) : bool :=
  match topic with
  | EmptyString => true
  | String c topic' =>
      negb (Ascii.eqb c "%") && negb (Ascii.eqb c "_") && wildcard_free topic'
  end.

(** The text has no NUL character. *)
Fixpoint nul_free (s : string) : bool :=
  match s with
  | EmptyString => true
  | String c s' => negb (Ascii.eqb c Ascii.zero) && nul_free s'
  end.

(** [p] matches the start of [s] character by character, up to ASCII
    letter case. *)
Fixpoint ci_prefix (p s : string) : bool :=
  match p, s with
  | EmptyString, _ => true
  | String a p', String c s' => Sqlite.like_char a c && ci_prefix p' s'
  | String _ _, EmptyString => false
  end.

(** Ten records with text, three of them about grace, and twenty records
    with text, eight of them about grace. *)
Definition corpus_a : corpus :=
  repeat (mkRecord (Some "Sermon") (Some "Amazing Grace, how sweet")) 3
  ++ repeat (mkRecord (Some "Sermon") (Some "Faith and works")) 7.

Definition corpus_b : corpus :=
  repeat (mkRecord (Some "Talk") (Some "grace upon GRACE")) 8
  ++ repeat (mkRecord (Some "Talk") (Some "Prayer")) 12.



(** [sep] occurs in [s] after [a] and before [b], and nowhere earlier. *)
Definition first_split (s sep a b : string) : Prop :=
  s = (a ++ sep ++ b)%string
  /\ forall a' b', s = (a' ++ sep ++ b')%string ->
                   String.length a <= String.length a'.

(** The three labels occur in the text, in their order. *)
Definition labels_in_order (body : string) : Prop :=
  exists a b c d,
    body = (a ++ Devotional.TITLE ++ b ++ Devotional.NARRATIVE ++ c
            ++ Devotional.KEY_SCRIPTURES ++ d)%string.

(** A unit is well formed when it has an end marker and the text before
    its first end marker holds the three labels in order. *)
Definition well_formed_unit (unit : string) : Prop :=
  exists body rest,
    first_split unit Devotional.END_ body rest /\ labels_in_order body.

(** [ds] holds, in order, one devotional for each well-formed unit of
    [us] and nothing for the others. *)
Inductive parsed : list string -> list Devotional.devotional -> Prop :=
| parsed_nil : parsed [] []
| parsed_keep (u : string) (us : list string) (d : Devotional.devotional)
    (ds : list Devotional.devotional) :
    well_formed_unit u -> Devotional.parse_section u = Some d ->
    parsed us ds -> parsed (u :: us) (d :: ds)
| parsed_skip (u : string) (us : list string)
    (ds : list Devotional.devotional) :
    ~ well_formed_unit u -> parsed us ds -> parsed (u :: us) ds.


(** ** Sample data *)

(** Three titles of one series and two of another. *)
Definition series_corpus : corpus :=
  [ mkRecord (Some "Romans: Part 1") None;
    mkRecord (Some "Hope 1") None;
    mkRecord (Some "Romans: Part 2") None;
    mkRecord None (Some "untitled");
    mkRecord (Some "Hope 2") None;
    mkRecord (Some "Romans: Part 3") None ].

(** A transcript table with both text columns, in a catalogue where it
    comes after a table of another name and an index on that table which
    is named [transcripts]. *)
Definition sample_table : Schema.table :=
  Schema.mkTable "table" "video_transcripts"
                 (Schema.plain ["id"; "title"; "transcript"; "transcript_text"])
                 [[Some "1"; Some "Hope 1"; None; Some "the holy spirit"]].

Definition sample_db : Schema.database :=
  [ Schema.mkTable "table" "notes" (Schema.plain ["id"; "body"]) [];
    Schema.mkTable "index" "transcripts" [] [];
    sample_table ].

(** A transcript table whose text column is spelled [Transcript]. *)
Definition capital_table : Schema.table :=
  Schema.mkTable "table" "transcripts" (Schema.plain ["id"; "Transcript"])
                 [[Some "1"; Some "abc"]].

(** A transcript table whose text column is generated from another. *)
Definition generated_table : Schema.table :=
  Schema.mkTable "table" "transcripts"
                 [Schema.mkColumn "id" false; Schema.mkColumn "body" false;
                  Schema.mkColumn "transcript" true]
                 [[Some "1"; Some "ab"; Some "abx"]].

(** A transcript table without a text column. *)
Definition bare_table : Schema.table :=
  Schema.mkTable "table" "transcripts" (Schema.plain ["id"; "title"]) [].

(** One well-formed unit. *)
Definition sample_unit : string :=
  " TITLE: Walking in Grace NARRATIVE: Grace meets us. KEY SCRIPTURES: - John 1:16 ---DEVOTIONAL END--- ".

(** A series of two posts, JSON values being their own text. *)
Definition sample_posts : list (Library.post_data string) :=
  [ Library.mkPostData string 1 None "<p>one</p>" None None None;
    Library.mkPostData string 2 (Some "Second") "<p>two</p>" None None
                       (Some "[1]") ].

Definition sample_series : Library.series_data string :=
  Library.mkSeriesData string "Grace" "grace" 2 "adults" "warm" "short"
                       "{}" 1600 None (Some "published") sample_posts.

Definition sample_clock (n : nat) : string :=
  ("2025-01-01T00:00:0" ++ PyStr.str_of_Z (Z.of_nat n))%string.

Definition sample_save (w : Library.world) : Z * Library.world :=
  Library.save_series_to_library string (fun j => j) "[]" sample_clock w
                                 sample_series.


(** ** Vocabulary of the further properties *)

(** [sub] occurs in [s] at position [q]. *)
Definition occurs_at (sub s : string) (q : nat) : Prop :=
  PyStr.startswith (PyStr.drop q s) sub = true.

(** Positions in ascending order, each at least [len] after the one
    before. *)
Definition spaced (len : nat) (l : list nat) : Prop :=
  StronglySorted (fun p q => p + len <= q) l.

(** The occurrences [find_all_contexts] reports for one row. *)
Definition record_occurrences (search_term : string) (context_chars : Z)
    (r : record) : list Context.occurrence :=
  match rec_text r with
  | Some text =>
      map (fun p => Context.mkOccurrence
                      (rec_title r)
                      (Context.context_at text search_term context_chars p) p)
          (record_positions search_term r)
  | None => []
  end.

(** A text of ASCII characters only. *)
Fixpoint is_ascii (s : string) : bool :=
  match s with
  | EmptyString => true
  | String c s' => (PyStr.code c <? 128) && is_ascii s'
  end.


(** ** The library page *)

Module LibraryPage.
Import Library.

(** One step of the stable sort behind
    [sorted(all_series, key=lambda x: x[1])]. *)
Fixpoint insert_by_title (s : summary) (l : list summary) : list summary :=
  match l with
  | [] => [s]
  | r :: l' =>
      if String.leb (sum_series_title s) (sum_series_title r) then s :: r :: l'
      else r :: insert_by_title s l'
  end.

Definition sort_by_title (l : list summary) : list summary :=
  fold_right insert_by_title [] l.

(** The list the page shows: the search or the whole listing, filtered by
    status unless the filter is "All", in the chosen order. *)
Definition all_series (w : world) (search_term filter_status sort_order : string)
  : outcome (list summary) * world :=
  let w0 := mkWorld (Some (init_series_library (store w))) (ticks w) in
  let '(fetched, w1) :=
    match search_term with
    | EmptyString => (Ok (fst (get_all_series w0)), snd (get_all_series w0))
    | _ => search_series w0 search_term
    end in
  match fetched with
  | Raise e => (Raise e, w1)
  | Ok found =>
      let filtered :=
        if negb (String.eqb filter_status "All")
        then filter (fun s => String.eqb (PyStr.lower (sum_status s))
                                         (PyStr.lower filter_status)) found
        else found in
      let sorted :=
        if String.eqb sort_order "Oldest First" then rev filtered
        else if String.eqb sort_order "A-Z" then sort_by_title filtered
        else filtered in
      (Ok sorted, w1)
  end.

End LibraryPage.

(** ** Vocabulary of the library listing *)

(** No two series rows share an id. *)
Definition ids_unique (lib : Library.library) : Prop :=
  NoDup (map Library.series_id (Library.series_rows lib)).

(** Summaries in descending order of creation date. *)
Definition newest_first (l : list Library.summary) : Prop :=
  StronglySorted
    (fun a b => String.leb (Library.sum_date_created b)
                           (Library.sum_date_created a) = true) l.

(** [series_title LIKE ? OR topic LIKE ?] for the pattern [%term%]. *)
Definition series_matches (search_term : string) (s : Library.summary) : bool :=
  Sqlite.like ("%" ++ search_term ++ "%")%string (Library.sum_series_title s)
  || Sqlite.like ("%" ++ search_term ++ "%")%string (Library.sum_topic s).

(** The text holds the term, ASCII letter case apart. *)
Definition holds_ci (text search_term : string) : Prop :=
  exists before mid after,
    text = (before ++ mid ++ after)%string
    /\ Sqlite.lower mid = Sqlite.lower search_term.

(** A series row with another status. *)
Definition set_status (s : Library.series_row) (new_status : string)
  : Library.series_row :=
  Library.mkSeries (Library.series_id s) (Library.series_title s)
                   (Library.topic s) (Library.num_posts s)
                   (Library.audience s) (Library.style s)
                   (Library.post_length s) (Library.date_created s)
                   (Library.source_databases s) (Library.total_words s)
                   (Library.total_cost s) new_status (Library.tags s)
                   (Library.notes s).


(** ** Vocabulary of the parser output *)

(** [x] is a piece of [s]. *)
Definition piece_of (x s : string) : Prop :=
  exists a b, s = (a ++ x ++ b)%string.

(** A field that stripping leaves as it is and that holds neither
    devotional marker. *)
Definition clean_field (s : string) : Prop :=
  PyStr.strip s = s
  /\ PyStr.contains s Devotional.START = false
  /\ PyStr.contains s Devotional.END_ = false.

(* ===================================================================== *)
(** * Part II. Properties                                                 *)
(* ===================================================================== *)

(** ** Facts about the string operations *)

Section StringFacts.
Import PyStr.

Lemma str_length_app (a b : string) :
  length (a ++ b)%string = length a + length b.
Proof. induction a as [|c a IH]; simpl; [reflexivity | now rewrite IH]. Qed.

Lemma app_assoc_str (a b c : string) :
  ((a ++ b) ++ c = a ++ (b ++ c))%string.
Proof. induction a as [|x a IH]; simpl; [reflexivity | now rewrite IH]. Qed.

Lemma app_empty_r (a : string) : (a ++ "")%string = a.
Proof. induction a as [|x a IH]; simpl; [reflexivity | now rewrite IH]. Qed.

Lemma lower_app (a b : string) :
  lower (a ++ b)%string = (lower a ++ lower b)%string.
Proof. induction a as [|c a IH]; simpl; [reflexivity | now rewrite IH]. Qed.

Lemma length_lower (s : string) : length (lower s) = length s.
Proof. induction s as [|c s IH]; simpl; [reflexivity | now rewrite IH]. Qed.

Lemma startswith_length (s p : string) :
  startswith s p = true -> length p <= length s.
Proof.
  revert s; induction p as [|a p IH]; intros [|b s]; simpl; intros H;
    try lia; try discriminate.
  apply andb_true_iff in H as [_ H]. apply IH in H. lia.
Qed.

Lemma startswith_app (p r : string) : startswith (p ++ r)%string p = true.
Proof.
  induction p as [|a p IH]; simpl; [reflexivity|].
  now rewrite Ascii.eqb_refl, IH.
Qed.

Lemma startswith_split (s p : string) :
  startswith s p = true -> s = (p ++ drop (length p) s)%string.
Proof.
  revert s; induction p as [|a p IH]; intros [|b s]; simpl; intros H;
    try reflexivity; try discriminate.
  apply andb_true_iff in H as [E H]. apply Ascii.eqb_eq in E. subst b.
  f_equal. now apply IH.
Qed.

(** A prefix test that succeeds on [s ++ t] but not on [s] reaches past
    the end of [s]. *)
Lemma startswith_app_only (s t p : string) :
  startswith (s ++ t)%string p = true -> startswith s p = false ->
  length s < length p.
Proof.
  revert s; induction p as [|a p IH]; intros [|b s]; simpl; intros H1 H2;
    try discriminate; try lia.
  apply andb_true_iff in H1 as [E H1]. rewrite E in H2. simpl in H2.
  specialize (IH _ H1 H2). lia.
Qed.

Lemma startswith_app_keep (s t p : string) :
  startswith s p = true -> startswith (s ++ t)%string p = true.
Proof.
  revert s; induction p as [|a p IH]; intros [|b s]; simpl; intros H;
    try reflexivity; try discriminate.
  apply andb_true_iff in H as [E H]. rewrite E. simpl. now apply IH.
Qed.

(** A text too short to hold [sub] after the skipped characters counts no
    occurrence. *)
Lemma count_go_short (sub s : string) (k : nat) :
  length s < length sub + k -> count_go sub s k = 0.
Proof.
  revert k; induction s as [|c s IH]; intros k H; simpl; [reflexivity|].
  simpl in H. destruct k as [|k].
  - destruct (startswith (String c s) sub) eqn:E.
    + apply startswith_length in E. simpl in E. lia.
    + apply IH. lia.
  - apply IH. lia.
Qed.

(** Text added at the end never lowers a count. *)
Lemma count_go_app (sub s t : string) (k : nat) :
  count_go sub s k <= count_go sub (s ++ t)%string k.
Proof.
  revert k; induction s as [|c s IH]; intros k; simpl; [lia|].
  destruct k as [|k]; [|apply IH].
  destruct (startswith (String c s) sub) eqn:E.
  - apply (startswith_app_keep _ t) in E. simpl in E. rewrite E.
    apply le_n_S, IH.
  - destruct (startswith (String c (s ++ t)) sub) eqn:E'.
    + pose proof (startswith_app_only (String c s) t sub E' E) as L.
      simpl in L. rewrite count_go_short by lia. lia.
    + apply IH.
Qed.

Lemma count_app (s t sub : string) : count s sub <= count (s ++ t)%string sub.
Proof.
  unfold count. destruct sub as [|a sub].
  - rewrite str_length_app. lia.
  - apply count_go_app.
Qed.

Lemma join_snoc (sep : string) (l : list string) (x : string) :
  exists suffix, join sep (l ++ [x]) = (join sep l ++ suffix)%string.
Proof.
  induction l as [|y l IH].
  - exists x. reflexivity.
  - destruct IH as [suffix IH]. destruct l as [|z l].
    + exists (sep ++ x)%string. reflexivity.
    + exists suffix. change (join sep ((y :: z :: l) ++ [x]))
        with (y ++ sep ++ join sep ((z :: l) ++ [x]))%string.
      rewrite IH. change (join sep (y :: z :: l))
        with (y ++ sep ++ join sep (z :: l))%string.
      now rewrite !app_assoc_str.
Qed.

End StringFacts.

(** ** Facts about dicts, counters and the descending sort *)

Section DictFacts.
Import Dict.

Context {V : Type}.

Lemma get_set (d : dict V) (k k' : string) (v : V) :
  get (set d k v) k' = if String.eqb k k' then Some v else get d k'.
Proof.
  induction d as [|[k0 v0] d IH]; simpl.
  - reflexivity.
  - destruct (String.eqb k0 k) eqn:E; simpl.
    + apply String.eqb_eq in E. subst k0. now destruct (String.eqb k k').
    + rewrite IH. destruct (String.eqb k0 k') eqn:E'; [|reflexivity].
      apply String.eqb_eq in E'. subst k0.
      now rewrite String.eqb_sym, E.
Qed.

Lemma get_in (d : dict V) (k : string) (v : V) :
  get d k = Some v -> In (k, v) d.
Proof.
  induction d as [|[k0 v0] d IH]; simpl; [discriminate|].
  destruct (String.eqb k0 k) eqn:E.
  - apply String.eqb_eq in E. intros [= ->]. left. now subst.
  - intros H. right. now apply IH.
Qed.


Lemma in_get (d : dict V) (k : string) (v : V) :
  NoDup (keys d) -> In (k, v) d -> get d k = Some v.
Proof.
  induction d as [|[k0 v0] d IH]; simpl; [tauto|].
  intros N [H|H]; inversion N as [|? ? N1 N2]; subst.
  - injection H as -> ->. now rewrite String.eqb_refl.
  - destruct (String.eqb k0 k) eqn:E; [|now apply IH].
    apply String.eqb_eq in E. subst k0. exfalso. apply N1.
    unfold keys. now apply (in_map fst) in H.
Qed.

(** Reading a dict with distinct keys does not depend on its order. *)
Lemma get_perm (d d' : dict V) (k : string) :
  NoDup (keys d) -> Permutation d d' -> get d k = get d' k.
Proof.
  intros N P.
  assert (N' : NoDup (keys d')).
  { eapply Permutation_NoDup; [|exact N]. now apply Permutation_map. }
  destruct (get d k) as [v|] eqn:E.
  - symmetry. apply in_get; [exact N'|].
    eapply Permutation_in; [exact P|]. now apply get_in.
  - destruct (get d' k) as [v'|] eqn:E'; [|reflexivity].
    apply get_in in E'. apply Permutation_sym in P.
    eapply Permutation_in in E'; [|exact P].
    apply in_get in E'; [congruence | exact N].
Qed.

Lemma set_fresh (d : dict V) (k : string) (v : V) :
  ~ In k (keys d) -> set d k v = d ++ [(k, v)].
Proof.
  induction d as [|[k0 v0] d IH]; simpl; intros H; [reflexivity|].
  destruct (String.eqb k0 k) eqn:E.
  - apply String.eqb_eq in E. tauto.
  - f_equal. apply IH. tauto.
Qed.

Lemma keys_set_old (d : dict V) (k : string) (v : V) :
  In k (keys d) -> keys (set d k v) = keys d.
Proof.
  induction d as [|[k0 v0] d IH]; simpl; intros H; [tauto|].
  destruct (String.eqb k0 k) eqn:E; simpl; [reflexivity|].
  f_equal. apply IH. apply String.eqb_neq in E. tauto.
Qed.

Lemma keys_set_nodup (d : dict V) (k : string) (v : V) :
  NoDup (keys d) -> NoDup (keys (set d k v)).
Proof.
  intros N. destruct (in_dec string_dec k (keys d)) as [H|H].
  - now rewrite keys_set_old.
  - rewrite set_fresh by exact H. unfold keys. rewrite map_app. simpl.
    apply NoDup_app; [exact N | repeat constructor; simpl; tauto |].
    intros x Hx [<-|[]]. apply H, Hx.
Qed.

Lemma of_items_from (l acc : dict V) :
  NoDup (keys (acc ++ l)) ->
  fold_left (fun d kv => set d (fst kv) (snd kv)) l acc = acc ++ l.
Proof.
  revert acc; induction l as [|[k v] l IH]; intros acc N; simpl.
  - now rewrite app_nil_r.
  - assert (F : ~ In k (keys acc)).
    { unfold keys in N. rewrite map_app in N. simpl in N.
      apply NoDup_remove_2 in N. intros H. apply N, in_or_app. now left. }
    rewrite set_fresh by exact F. rewrite IH; rewrite <- app_assoc; [reflexivity|].
    exact N.
Qed.

(** [dict(items)] keeps a list of items with distinct keys as it is. *)
Lemma of_items_nodup (l : dict V) : NoDup (keys l) -> of_items l = l.
Proof. intros N. unfold of_items. now rewrite of_items_from. Qed.

End DictFacts.

Section SortFacts.
Import Dict.

Lemma insert_desc_perm (x : string * nat) (l : list (string * nat)) :
  Permutation (insert_desc x l) (x :: l).
Proof.
  induction l as [|y l IH]; simpl; [reflexivity|].
  destruct (snd y <=? snd x); [reflexivity|].
  rewrite IH. apply perm_swap.
Qed.

Lemma sorted_desc_perm (l : list (string * nat)) :
  Permutation (sorted_desc l) l.
Proof.
  induction l as [|x l IH]; simpl; [reflexivity|].
  rewrite insert_desc_perm. now constructor.
Qed.

Lemma insert_desc_sorted (x : string * nat) (l : list (string * nat)) :
  desc_by_count l -> desc_by_count (insert_desc x l).
Proof.
  unfold desc_by_count. induction l as [|y l IH]; simpl; intros S.
  - repeat constructor.
  - inversion S as [|? ? S1 S2]; subst.
    destruct (snd y <=? snd x) eqn:E.
    + apply Nat.leb_le in E. constructor; [exact S|].
      constructor; [exact E|].
      rewrite Forall_forall in *. intros z Hz. specialize (S2 z Hz). lia.
    + apply Nat.leb_gt in E. constructor; [now apply IH|].
      rewrite Forall_forall in *. intros z Hz.
      apply (Permutation_in _ (insert_desc_perm x l)) in Hz.
      destruct Hz as [<-|Hz]; [lia | now apply S2].
Qed.

Lemma sorted_desc_sorted (l : list (string * nat)) :
  desc_by_count (sorted_desc l).
Proof.
  induction l as [|x l IH]; simpl; [constructor | now apply insert_desc_sorted].
Qed.

Lemma sorted_desc_keys_nodup (l : list (string * nat)) :
  NoDup (keys l) -> NoDup (keys (sorted_desc l)).
Proof.
  intros N. eapply Permutation_NoDup; [|exact N].
  apply Permutation_map, Permutation_sym, sorted_desc_perm.
Qed.

End SortFacts.

(** ** The frequency aggregator *)

Section FrequencyFacts.
Import PyStr Dict Analyzer.

Lemma nonempty_texts_app (c c' : corpus) :
  nonempty_texts (c ++ c') = nonempty_texts c ++ nonempty_texts c'.
Proof.
  induction c as [|r c IH]; simpl; [reflexivity|].
  destruct (rec_text r) as [[|a t]|]; simpl; now rewrite ?IH.
Qed.

(** One more record leaves the text buffer as it was or extends it at the
    end. *)
Lemma all_text_snoc (c : corpus) (r : record) :
  exists suffix, all_text (c ++ [r]) = (all_text c ++ suffix)%string.
Proof.
  unfold all_text. rewrite nonempty_texts_app. simpl.
  destruct (rec_text r) as [[|a t]|]; simpl.
  - exists EmptyString. now rewrite app_nil_r, app_empty_r.
  - apply join_snoc.
  - exists EmptyString. now rewrite app_nil_r, app_empty_r.
Qed.

Lemma phrase_count_snoc (c : corpus) (r : record) (phrase : string) :
  phrase_count c phrase <= phrase_count (c ++ [r]) phrase.
Proof.
  unfold phrase_count, all_text_lower.
  destruct (all_text_snoc c r) as [suffix ->].
  rewrite lower_app. apply count_app.
Qed.

Lemma phrase_loop_get (c : corpus) (m : Z) (phrases : list string)
    (d : dict nat) (p : string) :
  get (fold_left (phrase_step c m) phrases d) p =
  if existsb (String.eqb p) phrases && (m <=? Z.of_nat (phrase_count c p))%Z
  then Some (phrase_count c p) else get d p.
Proof.
  revert d; induction phrases as [|x phrases IH]; intros d; simpl.
  - reflexivity.
  - rewrite IH. unfold phrase_step.
    destruct (existsb (String.eqb p) phrases) eqn:Ex; simpl.
    + rewrite orb_true_r. simpl.
      destruct (m <=? Z.of_nat (phrase_count c p))%Z eqn:T; [reflexivity|].
      destruct (m <=? Z.of_nat (phrase_count c x))%Z eqn:Tx; [|reflexivity].
      rewrite get_set. destruct (String.eqb x p) eqn:E; [|reflexivity].
      apply String.eqb_eq in E. congruence.
    + rewrite orb_false_r.
      destruct (String.eqb p x) eqn:E; simpl.
      * apply String.eqb_eq in E. subst x.
        destruct (m <=? Z.of_nat (phrase_count c p))%Z; [|reflexivity].
        now rewrite get_set, String.eqb_refl.
      * destruct (m <=? Z.of_nat (phrase_count c x))%Z; [|reflexivity].
        rewrite get_set. now rewrite String.eqb_sym, E.
Qed.

Lemma phrase_loop_nodup (c : corpus) (m : Z) (phrases : list string)
    (d : dict nat) :
  NoDup (keys d) -> NoDup (keys (fold_left (phrase_step c m) phrases d)).
Proof.
  revert d; induction phrases as [|x phrases IH]; intros d N; simpl; [exact N|].
  apply IH. unfold phrase_step.
  destruct (m <=? Z.of_nat (phrase_count c x))%Z; [|exact N].
  now apply keys_set_nodup.
Qed.

(** What the returned mapping holds for a phrase: its count over the whole
    buffer when it is a candidate that reaches the threshold, nothing
    otherwise. *)
Lemma find_phrases_get (phrases : list string) (c : corpus) (m : Z)
    (p : string) :
  get (find_phrases phrases c m) p =
  if existsb (String.eqb p) phrases && (m <=? Z.of_nat (phrase_count c p))%Z
  then Some (phrase_count c p) else None.
Proof.
  unfold find_phrases.
  assert (N : NoDup (keys (fold_left (phrase_step c m) phrases []))).
  { apply phrase_loop_nodup. constructor. }
  rewrite of_items_nodup by now apply sorted_desc_keys_nodup.
  rewrite <- (get_perm _ _ p N) by (apply Permutation_sym, sorted_desc_perm).
  now rewrite phrase_loop_get.
Qed.

Lemma find_phrases_sorted (phrases : list string) (c : corpus) (m : Z) :
  desc_by_count (find_phrases phrases c m).
Proof.
  unfold find_phrases.
  rewrite of_items_nodup.
  - apply sorted_desc_sorted.
  - apply sorted_desc_keys_nodup, phrase_loop_nodup. constructor.
Qed.

(** C9. The count the aggregator computes for a phrase never goes down
    when a record is appended to the corpus; whatever the candidate list
    and the threshold ([find_all_phrases] being the case of the built-in
    list), a phrase reported before the addition is reported after it,
    each time with its count over the whole buffer. *)
Theorem find_phrases_monotone (phrases : list string) (min_occurrences : Z)
    (c : corpus) (r : record) (phrase : string) :
  find_all_phrases c min_occurrences
  = find_phrases target_phrases c min_occurrences
  /\ phrase_count c phrase <= phrase_count (c ++ [r]) phrase
  /\ (forall n : nat,
        get (find_phrases phrases c min_occurrences) phrase = Some n ->
        n = phrase_count c phrase
        /\ (min_occurrences <= Z.of_nat n)%Z
        /\ get (find_phrases phrases (c ++ [r]) min_occurrences) phrase
           = Some (phrase_count (c ++ [r]) phrase)).
Proof.
  pose proof (phrase_count_snoc c r phrase) as M.
  split; [reflexivity|]. split; [exact M|].
  intros n. rewrite !find_phrases_get.
  destruct (existsb (String.eqb phrase) phrases); simpl; [|discriminate].
  destruct (min_occurrences <=? Z.of_nat (phrase_count c phrase))%Z eqn:T;
    [|discriminate].
  intros [= <-]. apply Z.leb_le in T.
  repeat split; [exact T|].
  assert (T' : (min_occurrences <=? Z.of_nat (phrase_count (c ++ [r]) phrase))%Z
               = true) by (apply Z.leb_le; lia).
  now rewrite T'.
Qed.

End FrequencyFacts.

(** ** The series detector *)

Section SeriesFacts.
Import PyStr Dict Analyzer.

Lemma cget_incr (c : counter) (k k' : string) :
  cget (incr c k) k' = if String.eqb k k' then S (cget c k') else cget c k'.
Proof.
  unfold incr, cget at 1. rewrite get_set.
  destruct (String.eqb k k') eqn:E; [|reflexivity].
  apply String.eqb_eq in E. now subst.
Qed.

Lemma cget_incr_opt (c : counter) (o : option string) (n : string) :
  cget (incr_opt c o) n = cget c n + hit o n.
Proof.
  destruct o as [m|]; simpl; [|lia].
  rewrite cget_incr. destruct (String.eqb m n); lia.
Qed.

Lemma count_title_primary (c : counter) (title : string) :
  count_title c title =
  incr_opt (incr_opt c (primary_name title)) (trailing_int_name title).
Proof.
  unfold count_title, primary_name. now destruct (colon_name title).
Qed.

Lemma cget_count_title (c : counter) (title n : string) :
  cget (count_title c title) n =
  cget c n + hit (primary_name title) n + hit (trailing_int_name title) n.
Proof. now rewrite count_title_primary, !cget_incr_opt. Qed.

Lemma cget_fold_count_title (ts : list string) (c : counter) (n : string) :
  cget (fold_left count_title ts c) n =
  cget c n + hits primary_name ts n + hits trailing_int_name ts n.
Proof.
  revert c; induction ts as [|t ts IH]; intros c; simpl; [lia|].
  rewrite IH, cget_count_title. lia.
Qed.

Lemma incr_opt_nodup (c : counter) (o : option string) :
  NoDup (keys c) -> NoDup (keys (incr_opt c o)).
Proof. destruct o; simpl; [apply keys_set_nodup | trivial]. Qed.

Lemma series_counter_nodup (ts : list string) :
  NoDup (keys (series_counter ts)).
Proof.
  unfold series_counter.
  assert (G : forall c, NoDup (keys c) ->
                        NoDup (keys (fold_left count_title ts c))).
  { induction ts as [|t ts IH]; intros c N; simpl; [exact N|].
    apply IH. rewrite count_title_primary. now do 2 apply incr_opt_nodup. }
  apply G. constructor.
Qed.

Lemma keys_firstn {V : Type} (n : nat) (l : dict V) :
  keys (firstn n l) = firstn n (keys l).
Proof. unfold keys. now rewrite firstn_map. Qed.

Lemma nodup_firstn {A : Type} (n : nat) (l : list A) :
  NoDup l -> NoDup (firstn n l).
Proof.
  intros N. rewrite <- (firstn_skipn n l) in N.
  now apply NoDup_app_remove_r in N.
Qed.

Lemma in_firstn {A : Type} (n : nat) (l : list A) (x : A) :
  In x (firstn n l) -> In x l.
Proof.
  intros H. rewrite <- (firstn_skipn n l). apply in_or_app. now left.
Qed.

Lemma sorted_firstn {A : Type} (R : A -> A -> Prop) (n : nat) (l : list A) :
  StronglySorted R l -> StronglySorted R (firstn n l).
Proof.
  revert n; induction l as [|x l IH]; intros [|n] S; simpl; try constructor.
  - inversion S; subst. now apply IH.
  - inversion S as [|? ? S1 S2]; subst. rewrite Forall_forall in *.
    intros y Hy. apply S2. now apply in_firstn in Hy.
Qed.

Lemma sorted_filter {A : Type} (R : A -> A -> Prop) (f : A -> bool)
    (l : list A) :
  StronglySorted R l -> StronglySorted R (filter f l).
Proof.
  induction l as [|x l IH]; intros S; simpl; [constructor|].
  inversion S as [|? ? S1 S2]; subst.
  destruct (f x); [|now apply IH].
  constructor; [now apply IH|].
  rewrite Forall_forall in *. intros y Hy. apply S2.
  now apply filter_In in Hy.
Qed.

Lemma keys_filter_nodup {V : Type} (f : string * V -> bool) (l : dict V) :
  NoDup (keys l) -> NoDup (keys (filter f l)).
Proof.
  induction l as [|x l IH]; simpl; intros N; [constructor|].
  inversion N as [|? ? N1 N2]; subst.
  destruct (f x); simpl; [|now apply IH].
  constructor; [|now apply IH].
  intros H. apply N1. unfold keys in *. apply in_map_iff in H as [y [E Hy]].
  apply filter_In in Hy as [Hy _]. rewrite <- E. now apply in_map.
Qed.

Lemma most_common_nodup (n : nat) (c : counter) :
  NoDup (keys c) -> NoDup (keys (most_common n c)).
Proof.
  intros N. unfold most_common. rewrite keys_firstn.
  now apply nodup_firstn, sorted_desc_keys_nodup.
Qed.

(** The returned dict is the filtered head of the sorted counter. *)
Lemma detect_series_titles_eq (ts : list string) :
  detect_series_titles ts =
  filter (fun kv => 3 <=? snd kv) (most_common 20 (series_counter ts)).
Proof.
  unfold detect_series_titles. apply of_items_nodup.
  apply keys_filter_nodup, most_common_nodup, series_counter_nodup.
Qed.

Lemma detect_series_titles_in (ts : list string) (k : string) (v : nat) :
  In (k, v) (detect_series_titles ts) ->
  3 <= v /\ cget (series_counter ts) k = v.
Proof.
  rewrite detect_series_titles_eq. intros H.
  apply filter_In in H as [H T]. cbn [snd] in T. apply Nat.leb_le in T.
  split; [exact T|].
  unfold most_common in H. apply in_firstn in H.
  apply (Permutation_in _ (sorted_desc_perm _)) in H.
  unfold cget. now rewrite (in_get _ _ _ (series_counter_nodup ts) H).
Qed.

End SeriesFacts.

Section SeriesClaims.
Import PyStr Dict Analyzer.

(** C1, as stated, fails: the title below has a colon and a " - Part "
    delimiter; the colon pattern extracts "Acts", the Part pattern would
    extract "Acts: Grace", and only the counter of "Acts" is incremented. *)
Lemma detect_series_colon_shadows_part :
  colon_name "Acts: Grace - Part Two" = Some "Acts"
  /\ part_name "Acts: Grace - Part Two" = Some "Acts: Grace"
  /\ trailing_int_name "Acts: Grace - Part Two" = None
  /\ series_counter ["Acts: Grace - Part Two"] = [("Acts", 1)]
  /\ cget (series_counter ["Acts: Grace - Part Two"]) "Acts: Grace" = 0.
Proof. repeat split; vm_compute; reflexivity. Qed.

(** C1, amended. The colon pattern and the trailing-integer pattern are
    applied to every title; the Part pattern is applied to the titles
    without a colon only.  The counter of a name is the number of titles
    whose colon-or-else-Part name it is plus the number of titles whose
    trailing-integer name it is; for a title with a colon the
    colon-or-else-Part name is the colon name, whatever its Part name. *)
Theorem series_counter_counts (ts : list string) (n : string) :
  cget (series_counter ts) n
  = hits primary_name ts n + hits trailing_int_name ts n
  /\ (forall title m, colon_name title = Some m -> primary_name title = Some m)
  /\ (forall title, colon_name title = None ->
                    primary_name title = part_name title).
Proof.
  split; [|split].
  - unfold series_counter. now rewrite cget_fold_count_title.
  - intros title m H. unfold primary_name. now rewrite H.
  - intros title H. unfold primary_name. now rewrite H.
Qed.

(** C5. The result of [detect_series] has at most 20 names, each with its
    counter, which is at least 3, in descending order of count and without
    repeats; a name whose counter is 2 is not in it.  "Romans: Part 1"
    adds one to "Romans" by the colon pattern and "Hope 2" adds one to
    "Hope" by the trailing-integer pattern (its only pattern). *)
Theorem detect_series_result (c : corpus) :
  List.length (detect_series c) <= 20
  /\ (forall k v, In (k, v) (detect_series c) ->
        3 <= v /\ cget (series_counter (titles c)) k = v)
  /\ desc_by_count (detect_series c)
  /\ NoDup (keys (detect_series c))
  /\ (forall k, cget (series_counter (titles c)) k = 2 ->
        get (detect_series c) k = None)
  /\ colon_name "Romans: Part 1" = Some "Romans"
  /\ (forall s, cget (count_title s "Romans: Part 1") "Romans"
                = S (cget s "Romans"))
  /\ primary_name "Hope 2" = None
  /\ trailing_int_name "Hope 2" = Some "Hope"
  /\ (forall s, cget (count_title s "Hope 2") "Hope" = S (cget s "Hope")).
Proof.
  unfold detect_series.
  pose proof (detect_series_titles_in (titles c)) as I.
  split; [|split; [exact I|]]; [|repeat split].
  - rewrite detect_series_titles_eq.
    etransitivity; [apply filter_length_le|].
    unfold most_common. rewrite length_firstn. lia.
  - rewrite detect_series_titles_eq.
    apply sorted_filter, sorted_firstn, sorted_desc_sorted.
  - rewrite detect_series_titles_eq.
    apply keys_filter_nodup, most_common_nodup, series_counter_nodup.
  - intros k H.
    destruct (get (detect_series_titles (titles c)) k) as [v|] eqn:G;
      [|reflexivity].
    apply get_in, I in G. lia.
  - intros s. rewrite cget_count_title.
    change (hit (primary_name "Romans: Part 1") "Romans") with 1.
    change (hit (trailing_int_name "Romans: Part 1") "Romans") with 0. lia.
  - intros s. rewrite cget_count_title.
    change (hit (primary_name "Hope 2") "Hope") with 0.
    change (hit (trailing_int_name "Hope 2") "Hope") with 1. lia.
Qed.

End SeriesClaims.

(** ** The context scanner *)

Section ScanFacts.
Import PyStr Context.

Lemma positions_go_length (sub s : string) (k at_ : nat) :
  List.length (positions_go sub s k at_) = count_go sub s k.
Proof.
  revert k at_; induction s as [|c s IH]; intros k at_; simpl; [reflexivity|].
  destruct k as [|k]; [|apply IH].
  destruct (startswith (String c s) sub); simpl; now rewrite IH.
Qed.

(** Skipping [k] characters is dropping them. *)
Lemma positions_go_skip (sub s : string) (k at_ : nat) :
  positions_go sub s k at_ = positions_go sub (drop k s) 0 (at_ + k).
Proof.
  revert k at_; induction s as [|c s IH]; intros k at_.
  - now destruct k.
  - destruct k as [|k].
    + simpl drop. now rewrite Nat.add_0_r.
    + simpl. rewrite IH. f_equal. lia.
Qed.

Lemma drop_drop (a b : nat) (s : string) : drop a (drop b s) = drop (b + a) s.
Proof.
  revert s; induction b as [|b IH]; intros s; simpl; [reflexivity|].
  destruct s as [|c s]; [now destruct a | apply IH].
Qed.

Lemma length_drop (n : nat) (s : string) : length (drop n s) = length s - n.
Proof.
  revert s; induction n as [|n IH]; intros [|c s]; simpl; auto.
Qed.

Lemma find_none_positions (sub s : string) (at_ : nat) :
  sub <> EmptyString -> find s sub = None -> positions_go sub s 0 at_ = [].
Proof.
  intros NE. revert at_; induction s as [|c s IH]; intros at_ H;
    [reflexivity|].
  simpl in H |- *. destruct sub as [|a sub]; [congruence|].
  change (match s with
          | EmptyString => false
          | String b s' => _
          end) with (startswith (String c s) (String a sub)) in *.
  destruct (startswith (String c s) (String a sub)); [discriminate|].
  destruct (find s (String a sub)); [discriminate|]. now apply IH.
Qed.

Lemma find_bound (s sub : string) (i : nat) :
  find s sub = Some i -> i + length sub <= length s.
Proof.
  revert i; induction s as [|c s IH]; intros i H.
  - simpl in H. destruct (startswith "" sub) eqn:E; [|discriminate].
    injection H as <-. now apply startswith_length in E.
  - cbn [find] in H. destruct (startswith (String c s) sub) eqn:E.
    + injection H as <-. now apply startswith_length in E.
    + destruct (find s sub) as [j|]; [|discriminate]. injection H as <-.
      specialize (IH j eq_refl). simpl. lia.
Qed.

(** The first occurrence is the first position counted, and counting
    resumes right after it. *)
Lemma find_some_positions (sub s : string) (i at_ : nat) :
  sub <> EmptyString -> find s sub = Some i ->
  positions_go sub s 0 at_ =
  (at_ + i) :: positions_go sub (drop (i + length sub) s) 0
                            (at_ + i + length sub).
Proof.
  intros NE. revert i at_; induction s as [|c s IH]; intros i at_ H.
  - apply find_bound in H. destruct sub; [congruence | simpl in H; lia].
  - cbn [find] in H. cbn [positions_go].
    destruct (startswith (String c s) sub) eqn:E.
    + injection H as <-. rewrite positions_go_skip. rewrite Nat.add_0_r.
      destruct sub as [|a sub]; [congruence|]. simpl length.
      replace (S (length sub) - 1) with (length sub) by lia.
      simpl drop. f_equal. f_equal. lia.
    + destruct (find s sub) as [j|] eqn:F; [|discriminate]. injection H as <-.
      rewrite (IH j (S at_) eq_refl). simpl drop.
      f_equal; [lia | f_equal; lia].
Qed.

(** The loop, given one round more than there are characters left, ends
    and reports the positions [str.count] counts from [pos] on. *)
Lemma scan_positions (fuel : nat) (title : option string)
    (text search_term : string) (context_chars : Z) (pos : nat) :
  search_term <> EmptyString ->
  pos <= length text ->
  length text < pos + fuel ->
  exists occs,
    scan fuel title text search_term context_chars pos = Some occs
    /\ map occ_position occs =
       positions_go (lower search_term) (drop pos (lower text)) 0 pos
    /\ Forall (fun o => occ_title o = title
                        /\ occ_context o =
                           context_at text search_term context_chars
                                      (occ_position o)) occs.
Proof.
  intros NE.
  assert (NE' : lower search_term <> EmptyString)
    by (destruct search_term; [congruence | discriminate]).
  revert pos; induction fuel as [|fuel IH]; intros pos B L; [lia|].
  cbn [scan]. unfold find_from.
  rewrite length_lower. apply Nat.ltb_ge in B. rewrite B.
  apply Nat.ltb_ge in B.
  destruct (find (drop pos (lower text)) (lower search_term)) as [i|] eqn:F;
    simpl.
  - pose proof (find_bound _ _ _ F) as FB.
    rewrite length_drop, !length_lower in FB.
    assert (1 <= length search_term)
      by (destruct search_term; [congruence | simpl; lia]).
    destruct (IH (pos + i + length search_term)) as [occs [E [P Q]]];
      [lia | lia |].
    rewrite E. simpl. eexists. split; [reflexivity|]. split.
    + simpl. rewrite (find_some_positions _ _ _ pos NE' F).
      rewrite drop_drop, length_lower, P. f_equal. f_equal. f_equal. lia.
    + constructor; [now split | exact Q].
  - exists []. repeat split; [|constructor].
    now rewrite (find_none_positions _ _ pos NE' F).
Qed.

(** With an empty search term the loop never ends: no amount of fuel is
    enough. *)
Lemma scan_empty_term (fuel : nat) (title : option string) (text : string)
    (context_chars : Z) (pos : nat) :
  pos <= length text ->
  scan fuel title text EmptyString context_chars pos = None.
Proof.
  revert pos; induction fuel as [|fuel IH]; intros pos L; [reflexivity|].
  cbn [scan]. unfold find_from. rewrite length_lower.
  destruct (length text <? pos) eqn:B; [apply Nat.ltb_lt in B; lia|].
  change (lower EmptyString) with EmptyString.
  assert (F : forall s, find s EmptyString = Some 0) by (now intros [|? ?]).
  rewrite F. simpl. rewrite !Nat.add_0_r. now rewrite IH.
Qed.



End ScanFacts.

Section ScanClaims.
Import PyStr Context.

(** The query returns the rows that satisfy its condition when the table
    is empty or the pattern within the limit, and raises otherwise. *)
Lemma select_where_ok {A : Type} (pat : string) (keep : A -> bool)
    (rows : list A) :
  rows = [] \/ Sqlite.too_complex pat = false ->
  Sqlite.select_where pat keep rows = Ok (filter keep rows).
Proof.
  intros [->|T]; [reflexivity|]. unfold Sqlite.select_where.
  destruct rows; [reflexivity | now rewrite T].
Qed.

Lemma select_where_raise {A : Type} (pat : string) (keep : A -> bool)
    (rows : list A) :
  rows <> [] -> Sqlite.too_complex pat = true ->
  Sqlite.select_where pat keep rows = Raise Sqlite.too_complex_message.
Proof.
  intros N T. unfold Sqlite.select_where.
  destruct rows; [congruence | now rewrite T].
Qed.

(** What the query returns, it returns as the rows that satisfy its
    condition. *)
Lemma select_ok_matched (c : corpus) (search_term : string) (rows : corpus) :
  select c search_term = Ok rows -> rows = matched c search_term.
Proof.
  unfold select, Sqlite.select_where, matched. destruct c as [|r c].
  - now intros [= <-].
  - destruct (Sqlite.too_complex _); [discriminate|]. now intros [= <-].
Qed.



End ScanClaims.

(** ** Schema detection *)

Section SchemaFacts.
Import Schema.

Lemma find_first_accepted (db : database) (t : table) :
  List.find accepted_table db = Some t <-> first_accepted db t.
Proof.
  unfold first_accepted. split.
  - induction db as [|u db IH]; simpl; [discriminate|].
    destruct (accepted_table u) eqn:A.
    + intros [= ->]. exists [], db. simpl. repeat split; tauto.
    + intros H. destruct (IH H) as [before [after [E [At B]]]].
      exists (u :: before), after. subst db. repeat split; [exact At|].
      intros v [<-|Hv]; [exact A | now apply B].
  - intros [before [after [-> [At B]]]].
    induction before as [|u before IH]; simpl.
    + now rewrite At.
    + rewrite (B u) by now left. apply IH. intros v Hv. apply B. now right.
Qed.

Lemma find_no_accepted (db : database) :
  List.find accepted_table db = None <-> no_accepted db.
Proof.
  unfold no_accepted. split.
  - intros H u Hu. destruct (accepted_table u) eqn:A; [|reflexivity].
    now rewrite (find_none _ _ H u Hu) in A.
  - intros H. induction db as [|u db IH]; simpl; [reflexivity|].
    rewrite (H u) by now left. apply IH. intros v Hv. apply H. now right.
Qed.

Lemma accepted_table_spec (t : table) :
  accepted_table t = true <->
  tbl_type t = "table"
  /\ (tbl_name t = "transcripts" \/ tbl_name t = "video_transcripts").
Proof.
  unfold accepted_table.
  rewrite andb_true_iff, orb_true_iff, !String.eqb_eq. tauto.
Qed.

(** A column the Python test finds is a column SQL resolves. *)
Lemma mem_column_index (x : string) (t : table) :
  mem x (table_info t) = true ->
  exists i, column_index (tbl_columns t) x = Some i.
Proof.
  unfold mem, table_info.
  induction (tbl_columns t) as [|c columns IH]; simpl; [discriminate|].
  destruct (col_hidden c); simpl.
  - intros H. destruct (same_identifier (col_name c) x); [eauto|].
    destruct (IH H) as [i ->]. simpl. eauto.
  - intros H. apply orb_true_iff in H as [H|H].
    + apply String.eqb_eq in H. rewrite <- H. unfold same_identifier.
      rewrite String.eqb_refl. eauto.
    + destruct (same_identifier (col_name c) x); [eauto|].
      destruct (IH H) as [i ->]. simpl. eauto.
Qed.

Lemma column_index_none_mem (x : string) (t : table) :
  column_index (tbl_columns t) x = None -> mem x (table_info t) = false.
Proof.
  intros H. destruct (mem x (table_info t)) eqn:M; [|reflexivity].
  apply mem_column_index in M as [i M]. congruence.
Qed.

(** C3, as stated, fails: the two entry points do not treat the same
    tables as lacking the text field.  On a table whose text column is
    spelled [Transcript], [detect_schema], which looks for the exact
    names in the list of [PRAGMA table_info], returns its sentinel, while
    [get_database_info], whose query resolves [transcript] without
    regard to letter case, returns a result; and so they do on a table
    whose column [transcript] is a generated one, which the list does
    not hold. *)
Lemma schema_letter_case :
  mem "transcript_text" (table_info capital_table) = false
  /\ mem "transcript" (table_info capital_table) = false
  /\ detect_schema [capital_table] = (None, None)
  /\ get_database_info (Opened [capital_table])
     = (Some (mkInfo "transcripts" "transcript" 1 3), [])
  /\ detect_schema [generated_table] = (None, None)
  /\ get_database_info (Opened [generated_table])
     = (Some (mkInfo "transcripts" "transcript" 1 3), []).
Proof. repeat split; reflexivity. Qed.

(** C3, amended. Both entry points take the first table of the catalogue
    named [transcripts] or [video_transcripts] and return their sentinel
    ([(None, None)], respectively [None]) when there is none; on that
    table both choose [transcript_text] when [PRAGMA table_info] lists a
    column of exactly this name, and [transcript] otherwise.
    [detect_schema] returns its sentinel when the list holds neither name
    exactly.  [get_database_info] returns its result when the query
    resolves the chosen name to a column, which it does without regard to
    letter case and for hidden columns too, and its sentinel, through the
    [except] clause, when it does not or when the database cannot be
    opened.  Neither raises. *)
Theorem schema_detection (db : database) :
  (no_accepted db ->
     detect_schema db = (None, None)
     /\ get_database_info (Opened db) = (None, []))
  /\ (forall t, first_accepted db t ->
        (mem "transcript_text" (table_info t) = true ->
           detect_schema db = (Some (tbl_name t), Some "transcript_text")
           /\ exists total,
                get_database_info (Opened db)
                = (Some (mkInfo (tbl_name t) "transcript_text"
                                (List.length (tbl_rows t)) total), []))
        /\ (mem "transcript_text" (table_info t) = false ->
            mem "transcript" (table_info t) = true ->
            detect_schema db = (Some (tbl_name t), Some "transcript")
            /\ exists total,
                 get_database_info (Opened db)
                 = (Some (mkInfo (tbl_name t) "transcript"
                                 (List.length (tbl_rows t)) total), []))
        /\ (field_absent t ->
            detect_schema db = (None, None)
            /\ fst (get_database_info (Opened db)) = None)
        /\ tbl_type t = "table"
        /\ (tbl_name t = "transcripts" \/ tbl_name t = "video_transcripts")
        /\ (mem "transcript_text" (table_info t) = false ->
            mem "transcript" (table_info t) = false ->
            detect_schema db = (None, None))
        /\ (mem "transcript_text" (table_info t) = false ->
            (exists i, column_index (tbl_columns t) "transcript" = Some i) ->
            exists total,
              get_database_info (Opened db)
              = (Some (mkInfo (tbl_name t) "transcript"
                              (List.length (tbl_rows t)) total), []))
        /\ (mem "transcript_text" (table_info t) = false ->
            column_index (tbl_columns t) "transcript" = None ->
            get_database_info (Opened db)
            = (None, ["Database error: no such column: transcript"])))
  /\ (forall e, get_database_info (OpenError e)
                = (None, ["Database error: " ++ e]%string)).
Proof.
  split; [|split].
  - intros H. apply find_no_accepted in H.
    unfold detect_schema, get_database_info. now rewrite H.
  - intros t H.
    assert (A : accepted_table t = true) by (destruct H as [? [? [_ [A _]]]]; exact A).
    apply accepted_table_spec in A. destruct A as [A1 A2].
    apply find_first_accepted in H.
    unfold detect_schema, get_database_info. rewrite H.
    split; [|split; [|split; [|split; [exact A1|split; [exact A2|]]]]].
    + intros M. rewrite M. split; [reflexivity|].
      unfold sum_length. destruct (mem_column_index _ _ M) as [i ->]. eauto.
    + intros M1 M2. rewrite M1, M2. split; [reflexivity|].
      unfold sum_length. destruct (mem_column_index _ _ M2) as [i ->]. eauto.
    + intros [F1 F2].
      rewrite (column_index_none_mem _ _ F1), (column_index_none_mem _ _ F2).
      split; [reflexivity|]. unfold sum_length. now rewrite F2.
    + split; [|split].
      * intros M1 M2. now rewrite M1, M2.
      * intros M1 [i E]. rewrite M1. unfold sum_length. rewrite E. eauto.
      * intros M1 E. rewrite M1. unfold sum_length. now rewrite E.
  - reflexivity.
Qed.

End SchemaFacts.

(** ** The topic comparison *)

Section LikeFacts.

Ltac each_char c :=
  destruct c as [[] [] [] [] [] [] [] []]; vm_compute; try reflexivity;
  try discriminate.

Lemma sql_lower_char_idem (c : ascii) :
  Sqlite.lower_char (Sqlite.lower_char c) = Sqlite.lower_char c.
Proof. each_char c. Qed.

Lemma py_lower_char_wild (c : ascii) :
  (Ascii.eqb (PyStr.lower_char c) "%" = Ascii.eqb c "%")
  /\ (Ascii.eqb (PyStr.lower_char c) "_" = Ascii.eqb c "_").
Proof. each_char c; split; reflexivity. Qed.

Lemma wildcard_free_lower (topic : string) :
  wildcard_free (PyStr.lower topic) = wildcard_free topic.
Proof.
  induction topic as [|c topic IH]; simpl; [reflexivity|].
  destruct (py_lower_char_wild c) as [-> ->]. now rewrite IH.
Qed.

Lemma sql_lower_app (a b : string) :
  Sqlite.lower (a ++ b)%string = (Sqlite.lower a ++ Sqlite.lower b)%string.
Proof. induction a as [|c a IH]; simpl; [reflexivity | now rewrite IH]. Qed.

Lemma sql_lower_idem (s : string) :
  Sqlite.lower (Sqlite.lower s) = Sqlite.lower s.
Proof.
  induction s as [|c s IH]; simpl; [reflexivity|].
  now rewrite sql_lower_char_idem, IH.
Qed.

(** A split of the lowered text is the lowering of a split of the text. *)
Lemma sql_lower_split (s a b : string) :
  Sqlite.lower s = (a ++ b)%string ->
  exists a' b', s = (a' ++ b')%string
                /\ Sqlite.lower a' = a /\ Sqlite.lower b' = b.
Proof.
  revert s; induction a as [|x a IH]; intros s H.
  - exists EmptyString, s. now repeat split.
  - destruct s as [|c s]; [discriminate|]. simpl in H.
    injection H as Hc Hs. destruct (IH s Hs) as [a' [b' [-> [Ea Eb]]]].
    exists (String c a'), b'. simpl. now rewrite Hc, Ea, Eb.
Qed.

Lemma like_percent (s : string) : Sqlite.pattern_compare "%" s = true.
Proof. induction s as [|c s IH]; simpl in *; [reflexivity | exact IH]. Qed.

(** [%] in front of a pattern: the rest matches from some position on. *)
Lemma like_any (q s : string) :
  Sqlite.pattern_compare (String "%" q) s = true <->
  exists before after, s = (before ++ after)%string
                       /\ Sqlite.pattern_compare q after = true.
Proof.
  induction s as [|c s IH].
  - simpl. rewrite orb_false_r. split.
    + intros H. exists EmptyString, EmptyString. now split.
    + intros [[|? ?] [after [E H]]]; [|discriminate].
      simpl in E. now subst after.
  - change (Sqlite.pattern_compare (String "%" q) (String c s))
      with (Sqlite.pattern_compare q (String c s)
            || Sqlite.pattern_compare (String "%" q) s).
    rewrite orb_true_iff, IH. split.
    + intros [H|[before [after [-> H]]]].
      * exists EmptyString, (String c s). now split.
      * exists (String c before), after. now split.
    + intros [[|x before] [after [E H]]].
      * simpl in E. subst after. now left.
      * injection E as -> ->. right. eauto.
Qed.

(** A pattern without wildcards followed by [%] is a prefix test. *)
Lemma like_literal (p s : string) :
  wildcard_free p = true ->
  Sqlite.pattern_compare (p ++ "%")%string s = ci_prefix p s.
Proof.
  revert s; induction p as [|a p IH]; intros s W.
  - apply like_percent.
  - simpl in W. apply andb_true_iff in W as [W W3].
    apply andb_true_iff in W as [W1 W2].
    apply negb_true_iff in W1, W2.
    simpl. rewrite W1, W2. destruct s as [|c s]; [reflexivity|].
    now rewrite IH.
Qed.

Lemma like_char_eq (a c : ascii) :
  Sqlite.like_char a c = true <-> Sqlite.lower_char c = Sqlite.lower_char a.
Proof. unfold Sqlite.like_char. rewrite Ascii.eqb_eq. split; congruence. Qed.

Lemma ci_prefix_spec (p s : string) :
  ci_prefix p s = true <->
  exists mid after, s = (mid ++ after)%string
                    /\ Sqlite.lower mid = Sqlite.lower p.
Proof.
  revert s; induction p as [|a p IH]; intros s.
  - simpl. split; [|reflexivity]. intros _. exists EmptyString, s. now split.
  - destruct s as [|c s]; simpl.
    + split; [discriminate|]. intros [[|? ?] [after [E H]]]; discriminate.
    + rewrite andb_true_iff, like_char_eq, IH. split.
      * intros [Hc [mid [after [-> H]]]].
        exists (String c mid), after. simpl. now rewrite Hc, H.
      * intros [[|x mid] [after [E H]]]; [discriminate|].
        injection E as -> ->. simpl in H. injection H as Hc H. eauto.
Qed.

(** *** Texts read as C strings *)

Lemma c_str_nul_free (s : string) : nul_free s = true -> Sqlite.c_str s = s.
Proof.
  induction s as [|c s IH]; simpl; [reflexivity|]. intros H.
  apply andb_true_iff in H as [H1 H2]. apply negb_true_iff in H1.
  now rewrite H1, IH.
Qed.

Lemma nul_free_app (a b : string) :
  nul_free (a ++ b)%string = nul_free a && nul_free b.
Proof.
  induction a as [|c a IH]; simpl; [reflexivity|].
  now rewrite IH, andb_assoc.
Qed.

Lemma nul_free_c_str (s : string) : nul_free (Sqlite.c_str s) = true.
Proof.
  induction s as [|c s IH]; simpl; [reflexivity|].
  destruct (Ascii.eqb c Ascii.zero) eqn:E; [reflexivity|]. simpl.
  now rewrite E, IH.
Qed.

(** The C string is the text up to its first NUL. *)
Lemma c_str_prefix (s : string) :
  Sqlite.c_str s = s
  \/ exists rest, s = (Sqlite.c_str s ++ String Ascii.zero rest)%string.
Proof.
  induction s as [|c s IH]; simpl; [now left|].
  destruct (Ascii.eqb c Ascii.zero) eqn:E.
  - apply Ascii.eqb_eq in E. subst c. right. now exists s.
  - destruct IH as [IH|[rest IH]].
    + left. now rewrite IH.
    + right. exists rest. simpl. now rewrite <- IH.
Qed.

Lemma py_lower_char_nul (c : ascii) :
  Ascii.eqb (PyStr.lower_char c) Ascii.zero = Ascii.eqb c Ascii.zero.
Proof. each_char c. Qed.

Lemma sql_lower_char_nul (c : ascii) :
  Ascii.eqb (Sqlite.lower_char c) Ascii.zero = Ascii.eqb c Ascii.zero.
Proof. each_char c. Qed.

Lemma nul_free_lower (s : string) : nul_free (PyStr.lower s) = nul_free s.
Proof.
  induction s as [|c s IH]; simpl; [reflexivity|].
  now rewrite py_lower_char_nul, IH.
Qed.

Lemma c_str_sql_lower (s : string) :
  Sqlite.c_str (Sqlite.lower s) = Sqlite.lower (Sqlite.c_str s).
Proof.
  induction s as [|c s IH]; simpl; [reflexivity|].
  rewrite sql_lower_char_nul. destruct (Ascii.eqb c Ascii.zero);
    [reflexivity|]. simpl. now rewrite IH.
Qed.

(** The pattern of a query is read whole when the term has no NUL. *)
Lemma c_str_pattern (term : string) :
  nul_free term = true ->
  Sqlite.c_str ("%" ++ term ++ "%")%string = ("%" ++ term ++ "%")%string.
Proof.
  intros H. apply c_str_nul_free. rewrite !nul_free_app, H. reflexivity.
Qed.

(** The [WHERE] clause of the topic query, for a topic without wildcards
    and without NUL: the text, up to its first NUL, holds the lowered
    topic up to ASCII letter case. *)
Lemma lower_like_contains (text topic : string) :
  wildcard_free topic = true -> nul_free topic = true ->
  Sqlite.lower_like (Some text) topic = true
  <-> contains_ci (Sqlite.c_str text) topic.
Proof.
  intros W N. unfold Sqlite.lower_like, Sqlite.like, contains_ci.
  rewrite c_str_pattern by now rewrite nul_free_lower.
  rewrite c_str_sql_lower.
  change ("%" ++ PyStr.lower topic ++ "%")%string
    with (String "%" (PyStr.lower topic ++ "%")).
  rewrite like_any. split.
  - intros [before [after [E H]]].
    rewrite like_literal in H by now rewrite wildcard_free_lower.
    apply ci_prefix_spec in H as [mid [after' [-> H]]].
    apply sql_lower_split in E as [b' [r' [-> [Eb Er]]]].
    apply sql_lower_split in Er as [m' [a' [-> [Em Ea]]]].
    exists b', m', a'. split; [reflexivity|].
    now rewrite <- H, <- Em, sql_lower_idem.
  - intros [before [mid [after [-> H]]]].
    exists (Sqlite.lower before), (Sqlite.lower (mid ++ after)).
    split; [apply sql_lower_app|].
    rewrite like_literal by now rewrite wildcard_free_lower.
    apply ci_prefix_spec. exists (Sqlite.lower mid), (Sqlite.lower after).
    split; [apply sql_lower_app|]. now rewrite sql_lower_idem.
Qed.

End LikeFacts.

Section CompareClaims.
Import Compare.







(** The corpora of the example, evaluated. *)
Example compare_grace :
  total_count corpus_a = 10%Z /\ total_count corpus_b = 20%Z
  /\ run_comparison corpus_a corpus_b ["grace"]
     = Ok [mkRow (PyStr.codes "Grace") 3 "30.0%" 8 "40.0%" (-5)].
Proof. repeat split; vm_compute; reflexivity. Qed.

End CompareClaims.

(** ** The series library *)

Section LibraryFacts.
Import Library.

Variable json : Type.
Variable json_dumps : json -> string.
Variable empty_list : json.
Variable isoformat_now : nat -> string.

Local Abbreviation save := (save_series_to_library json json_dumps empty_list
                                               isoformat_now).
Local Abbreviation run_op := (run json json_dumps empty_list isoformat_now).
Local Abbreviation run_ops := (run_all json json_dumps empty_list isoformat_now).
Local Abbreviation new_rows := (new_post_rows json json_dumps empty_list
                                          isoformat_now).

(** The series row [save_series_to_library] inserts. *)
Local Abbreviation new_series sid w sd :=
  (mkSeries sid (sd_title json sd) (sd_topic json sd) (sd_num_posts json sd)
            (sd_audience json sd) (sd_style json sd) (sd_post_length json sd)
            (isoformat_now (ticks w))
            (json_dumps (sd_source_databases json sd))
            (sd_total_words json sd)
            (or_default (sd_cost json sd) PrimFloat.zero)
            "draft" None None).

Lemma fold_insert_post (sid : Z) (posts : list (post_data json))
    (rows : list post_row) (seq : Z) (t : nat) :
  fold_left (insert_post json json_dumps empty_list isoformat_now sid) posts
            (rows, seq, t)
  = (rows ++ new_rows sid seq t posts,
     (seq + Z.of_nat (List.length posts))%Z, t + List.length posts).
Proof.
  revert rows seq t; induction posts as [|post posts IH]; intros rows seq t.
  - simpl. rewrite app_nil_r. f_equal; [f_equal; lia | lia].
  - cbn [fold_left insert_post new_post_rows List.length]. rewrite IH.
    rewrite <- app_assoc. simpl app. f_equal; [f_equal; lia | lia].
Qed.

(** What a save returns and leaves behind. *)
Lemma save_spec (w : world) (sd : series_data json) :
  save w sd =
  let lib := init_series_library (store w) in
  let sid := (series_seq lib + 1)%Z in
  (sid,
   mkWorld
     (Some (mkLibrary
              (series_rows lib ++ [new_series sid w sd])
              (post_rows lib
               ++ new_rows sid (posts_seq lib) (S (ticks w)) (sd_posts json sd))
              sid
              (posts_seq lib + Z.of_nat (List.length (sd_posts json sd)))%Z))
     (S (ticks w) + List.length (sd_posts json sd))).
Proof. unfold save_series_to_library. now rewrite fold_insert_post. Qed.

Lemma new_rows_series (sid seq : Z) (t : nat) (posts : list (post_data json)) :
  Forall (fun p => post_series_id p = sid) (new_rows sid seq t posts).
Proof.
  revert seq t; induction posts as [|post posts IH]; intros seq t; simpl;
    constructor; [reflexivity | apply IH].
Qed.

Lemma new_rows_content (sid seq : Z) (t : nat) (posts : list (post_data json)) :
  map (fun p => (post_number p, html_content p)) (new_rows sid seq t posts)
  = map (fun post => (pd_post_num json post, pd_html json post)) posts.
Proof.
  revert seq t; induction posts as [|post posts IH]; intros seq t; simpl;
    [reflexivity | now rewrite IH].
Qed.

Lemma filter_all {A : Type} (f : A -> bool) (l : list A) :
  Forall (fun x => f x = true) l -> filter f l = l.
Proof.
  induction 1 as [|x l H _ IH]; simpl; [reflexivity | now rewrite H, IH].
Qed.

Lemma filter_none {A : Type} (f : A -> bool) (l : list A) :
  Forall (fun x => f x = false) l -> filter f l = [].
Proof.
  induction 1 as [|x l H _ IH]; simpl; [reflexivity | now rewrite H, IH].
Qed.

Lemma insert_by_number_perm (p : post_row) (l : list post_row) :
  Permutation (insert_by_number p l) (p :: l).
Proof.
  induction l as [|q l IH]; simpl; [reflexivity|].
  destruct (post_number p <=? post_number q)%Z; [reflexivity|].
  rewrite IH. apply perm_swap.
Qed.

Lemma order_by_number_perm (l : list post_row) :
  Permutation (order_by_number l) l.
Proof.
  induction l as [|p l IH]; simpl; [reflexivity|].
  rewrite insert_by_number_perm. now constructor.
Qed.

Lemma insert_by_number_sorted (p : post_row) (l : list post_row) :
  by_number l -> by_number (insert_by_number p l).
Proof.
  unfold by_number. induction l as [|q l IH]; simpl; intros S.
  - repeat constructor.
  - inversion S as [|? ? S1 S2]; subst.
    destruct (post_number p <=? post_number q)%Z eqn:E.
    + apply Z.leb_le in E. constructor; [exact S|].
      constructor; [exact E|].
      rewrite Forall_forall in *. intros z Hz. specialize (S2 z Hz). lia.
    + apply Z.leb_gt in E. constructor; [now apply IH|].
      rewrite Forall_forall in *. intros z Hz.
      apply (Permutation_in _ (insert_by_number_perm p l)) in Hz.
      destruct Hz as [<-|Hz]; [lia | now apply S2].
Qed.

Lemma order_by_number_sorted (l : list post_row) :
  by_number (order_by_number l).
Proof.
  induction l as [|p l IH]; simpl;
    [constructor | now apply insert_by_number_sorted].
Qed.

(** Rows already in ascending order come back as they are. *)
Lemma order_by_number_id (l : list post_row) :
  by_number l -> order_by_number l = l.
Proof.
  unfold by_number. induction l as [|p l IH]; intros S; simpl; [reflexivity|].
  inversion S as [|? ? S1 S2]; subst. rewrite IH by exact S1.
  destruct l as [|q l]; [reflexivity|]. simpl.
  inversion S2 as [|? ? H _]; subst. apply Z.leb_le in H. now rewrite H.
Qed.


Lemma init_no_orphans (w : world) :
  orphan_free w -> no_orphans (init_series_library (store w)).
Proof.
  unfold orphan_free. destruct (store w) as [lib|]; simpl; [trivial|].
  intros _ p [].
Qed.

Lemma init_ids_bounded (w : world) :
  well_formed w -> ids_bounded (init_series_library (store w)).
Proof.
  unfold well_formed. destruct (store w) as [lib|]; simpl; [tauto|].
  intros _ s [].
Qed.

Lemma update_row_id (new_status : string) (sid : Z) (rows : list series_row)
    (s' : series_row) :
  In s' (map (fun s =>
                if (series_id s =? sid)%Z
                then mkSeries (series_id s) (series_title s) (topic s)
                              (num_posts s) (audience s) (style s)
                              (post_length s) (date_created s)
                              (source_databases s) (total_words s)
                              (total_cost s) new_status (tags s) (notes s)
                else s) rows) ->
  exists s, In s rows /\ series_id s' = series_id s.
Proof.
  intros H. apply in_map_iff in H as [s [E H]]. exists s. split; [exact H|].
  subst s'. now destruct (series_id s =? sid)%Z.
Qed.

Lemma in_update_row (new_status : string) (sid : Z) (rows : list series_row)
    (s : series_row) :
  In s rows ->
  exists s', In s' (map (fun s =>
                if (series_id s =? sid)%Z
                then mkSeries (series_id s) (series_title s) (topic s)
                              (num_posts s) (audience s) (style s)
                              (post_length s) (date_created s)
                              (source_databases s) (total_words s)
                              (total_cost s) new_status (tags s) (notes s)
                else s) rows)
             /\ series_id s' = series_id s.
Proof.
  intros H. eexists. split; [apply in_map, H|].
  now destruct (series_id s =? sid)%Z.
Qed.

(** Every operation leaves a library, and leaves it without orphans if it
    found it so. *)
Lemma run_no_orphans (w : world) (o : operation json) :
  no_orphans (init_series_library (store w)) ->
  exists lib, store (run_op w o) = Some lib /\ no_orphans lib.
Proof.
  intros N. set (lib := init_series_library (store w)) in *.
  destruct o as [|sd| |sid|sid|term|st sid]; cbn [run].
  - exists lib. now split.
  - rewrite save_spec. cbn. fold lib. eexists. split; [reflexivity|].
    intros p Hp. cbn in Hp |- *. apply in_app_or in Hp as [Hp|Hp].
    + destruct (N p Hp) as [s [Hs E]]. exists s. split; [|exact E].
      apply in_or_app. now left.
    + eexists. split; [apply in_or_app; right; left; reflexivity|]. cbn.
      pose proof (new_rows_series (series_seq lib + 1) (posts_seq lib)
                    (S (ticks w)) (sd_posts json sd)) as F.
      rewrite Forall_forall in F. symmetry. now apply F.
  - exists lib. now split.
  - unfold get_series_details. fold lib.
    destruct (List.find _ (series_rows lib)); exists lib; now split.
  - unfold delete_series. fold lib. eexists. split; [reflexivity|].
    intros p Hp. cbn in Hp |- *. apply filter_In in Hp as [Hp Ne].
    destruct (N p Hp) as [s [Hs E]]. exists s. split; [|exact E].
    apply filter_In. split; [exact Hs | now rewrite E].
  - exists lib. now split.
  - unfold update_status. fold lib. eexists. split; [reflexivity|].
    intros p Hp. cbn in Hp |- *. destruct (N p Hp) as [s [Hs E]].
    destruct (in_update_row st sid _ _ Hs) as [s' [Hs' E']].
    exists s'. split; [exact Hs' | congruence].
Qed.

Lemma run_ids_bounded (w : world) (o : operation json) :
  ids_bounded (init_series_library (store w)) ->
  exists lib, store (run_op w o) = Some lib /\ ids_bounded lib.
Proof.
  intros B. set (lib := init_series_library (store w)) in *.
  destruct o as [|sd| |sid|sid|term|st sid]; cbn [run].
  - exists lib. now split.
  - rewrite save_spec. cbn. fold lib. eexists. split; [reflexivity|].
    intros s Hs. cbn in Hs |- *. apply in_app_or in Hs as [Hs|[<-|[]]].
    + specialize (B s Hs). lia.
    + cbn. lia.
  - exists lib. now split.
  - unfold get_series_details. fold lib.
    destruct (List.find _ (series_rows lib)); exists lib; now split.
  - unfold delete_series. fold lib. eexists. split; [reflexivity|].
    intros s Hs. cbn in Hs |- *. apply filter_In in Hs as [Hs _]. now apply B.
  - exists lib. now split.
  - unfold update_status. fold lib. eexists. split; [reflexivity|].
    intros s' Hs. cbn in Hs |- *.
    destruct (update_row_id st sid _ _ Hs) as [s [Hs' E]]. rewrite E.
    now apply B.
Qed.

Lemma run_orphan_free (w : world) (o : operation json) :
  orphan_free w -> orphan_free (run_op w o).
Proof.
  intros H. apply init_no_orphans in H.
  destruct (run_no_orphans w o H) as [lib [E N]].
  unfold orphan_free. now rewrite E.
Qed.

Lemma run_well_formed (w : world) (o : operation json) :
  well_formed w -> well_formed (run_op w o).
Proof.
  intros H. pose proof (init_ids_bounded w H) as B.
  assert (O : orphan_free w).
  { unfold well_formed, orphan_free in *. destruct (store w); tauto. }
  apply init_no_orphans in O.
  destruct (run_no_orphans w o O) as [lib [E N]].
  destruct (run_ids_bounded w o B) as [lib' [E' B']].
  assert (lib' = lib) as -> by congruence.
  unfold well_formed. rewrite E. now split.
Qed.

Lemma run_ops_well_formed (w : world) (ops : list (operation json)) :
  well_formed w -> well_formed (run_ops w ops).
Proof.
  revert w; induction ops as [|o ops IH]; intros w H; [exact H|].
  apply IH, run_well_formed, H.
Qed.

Lemma run_ops_orphan_free (w : world) (ops : list (operation json)) :
  orphan_free w -> orphan_free (run_ops w ops).
Proof.
  revert w; induction ops as [|o ops IH]; intros w H; [exact H|].
  apply IH, run_orphan_free, H.
Qed.

Lemma find_app_skip {A : Type} (f : A -> bool) (l l' : list A) :
  Forall (fun x => f x = false) l -> List.find f (l ++ l') = List.find f l'.
Proof.
  induction 1 as [|x l H _ IH]; simpl; [reflexivity | now rewrite H].
Qed.

Lemma strongly_sorted_weaken {A : Type} (R R' : A -> A -> Prop) (l : list A) :
  (forall x y, R x y -> R' x y) -> StronglySorted R l -> StronglySorted R' l.
Proof.
  intros H. induction 1 as [|x l S IH F]; constructor; [exact IH|].
  eapply Forall_impl; [|exact F]. intros y. apply H.
Qed.

Lemma new_rows_sorted (sid seq : Z) (t : nat) (posts : list (post_data json)) :
  StronglySorted Z.le (map (pd_post_num json) posts) ->
  by_number (new_rows sid seq t posts).
Proof.
  unfold by_number.
  revert seq t; induction posts as [|post posts IH]; intros seq t S; simpl.
  - constructor.
  - simpl in S. inversion S as [|? ? S1 S2]; subst.
    constructor; [now apply IH|].
    rewrite Forall_forall in *. intros q Hq. cbn.
    apply S2. apply (in_map (fun p => (post_number p, html_content p))) in Hq.
    rewrite new_rows_content in Hq. apply in_map_iff in Hq as [post' [E Hq]].
    injection E as <- _. now apply in_map.
Qed.

(** In a well-formed library, a save followed by a fetch of the returned
    id gives the inserted series row and the inserted post rows, ordered. *)
Lemma save_fetch (w : world) (sd : series_data json) :
  well_formed w ->
  fst (get_series_details (snd (save w sd)) (fst (save w sd)))
  = Some (mkDetails
            (new_series (series_seq (init_series_library (store w)) + 1)%Z w sd)
            (order_by_number
               (new_rows (series_seq (init_series_library (store w)) + 1)%Z
                         (posts_seq (init_series_library (store w)))
                         (S (ticks w)) (sd_posts json sd)))).
Proof.
  intros W. pose proof (init_ids_bounded w W) as B.
  assert (N : no_orphans (init_series_library (store w))).
  { apply init_no_orphans. unfold well_formed, orphan_free in *.
    destruct (store w); tauto. }
  rewrite save_spec. set (lib := init_series_library (store w)) in *.
  cbn [fst snd]. unfold get_series_details.
  cbn [store init_series_library series_rows post_rows ticks].
  rewrite find_app_skip.
  2:{ rewrite Forall_forall. intros s Hs. specialize (B s Hs).
      apply Z.eqb_neq. lia. }
  cbn [List.find series_id]. rewrite Z.eqb_refl. cbn [fst].
  do 3 f_equal. rewrite filter_app, filter_none, filter_all; [reflexivity | |].
  - eapply Forall_impl; [|apply new_rows_series].
    intros p E. cbn in E. now rewrite E, Z.eqb_refl.
  - rewrite Forall_forall. intros p Hp. destruct (N p Hp) as [s [Hs E]].
    specialize (B s Hs). apply Z.eqb_neq. lia.
Qed.

Lemma initial_well_formed : well_formed initial_world.
Proof. exact I. Qed.

(** C7. In every library reached by the library operations, a series that
    is saved and then fetched by the returned id comes back with as many
    posts as were saved, in ascending order of post number, holding the
    saved post numbers each with the very HTML saved with it; when the
    posts were saved in strictly ascending order of number they come back
    in the order saved. *)
Theorem save_then_fetch (ops : list (operation json)) (sd : series_data json) :
  exists d,
    fst (get_series_details (snd (save (run_ops initial_world ops) sd))
                            (fst (save (run_ops initial_world ops) sd)))
    = Some d
    /\ series_id (det_series d) = fst (save (run_ops initial_world ops) sd)
    /\ List.length (det_posts d) = List.length (sd_posts json sd)
    /\ by_number (det_posts d)
    /\ Forall (fun p => post_series_id p
                        = fst (save (run_ops initial_world ops) sd))
              (det_posts d)
    /\ Permutation
         (map (fun p => (post_number p, html_content p)) (det_posts d))
         (map (fun post => (pd_post_num json post, pd_html json post))
              (sd_posts json sd))
    /\ (StronglySorted Z.lt (map (pd_post_num json) (sd_posts json sd)) ->
        map (fun p => (post_number p, html_content p)) (det_posts d)
        = map (fun post => (pd_post_num json post, pd_html json post))
              (sd_posts json sd)).
Proof.
  pose proof (run_ops_well_formed _ ops initial_well_formed) as W.
  set (w := run_ops initial_world ops) in *.
  eexists. split; [apply save_fetch, W|].
  cbn [det_series det_posts series_id].
  set (rows := new_rows _ _ _ _).
  assert (C : map (fun p => (post_number p, html_content p)) rows
              = map (fun post => (pd_post_num json post, pd_html json post))
                    (sd_posts json sd)) by apply new_rows_content.
  split; [now rewrite save_spec|]. split; [|split; [|split; [|split]]].
  - rewrite (Permutation_length (order_by_number_perm rows)).
    rewrite <- (length_map (fun p => (post_number p, html_content p))), C.
    apply length_map.
  - apply order_by_number_sorted.
  - rewrite save_spec. cbn [fst]. rewrite Forall_forall. intros p Hp.
    apply (Permutation_in _ (order_by_number_perm rows)) in Hp.
    pose proof (new_rows_series (series_seq (init_series_library (store w)) + 1)
                  (posts_seq (init_series_library (store w))) (S (ticks w))
                  (sd_posts json sd)) as F.
    rewrite Forall_forall in F. now apply F.
  - rewrite <- C. apply Permutation_map, order_by_number_perm.
  - intros S. rewrite order_by_number_id; [exact C|].
    apply new_rows_sorted.
    eapply strongly_sorted_weaken; [|exact S]. intros x y. apply Z.lt_le_incl.
Qed.

(** C8. Whatever the library and the id, after [delete_series] the library
    has no post row and no series row with that id; no operation on the
    library creates an orphaned post row, so none exists in any library
    the operations reach. *)
Theorem delete_series_cascade (w : world) (sid : Z) :
  (exists lib,
     store (delete_series w sid) = Some lib
     /\ (forall p, In p (post_rows lib) -> post_series_id p <> sid)
     /\ (forall s, In s (series_rows lib) -> series_id s <> sid))
  /\ (forall o : operation json, orphan_free w -> orphan_free (run_op w o))
  /\ (forall ops : list (operation json),
        orphan_free (run_ops initial_world ops)).
Proof.
  split; [|split].
  - unfold delete_series. eexists. split; [reflexivity|]. cbn. split.
    + intros p Hp. apply filter_In in Hp as [_ Hp].
      apply negb_true_iff, Z.eqb_neq in Hp. exact Hp.
    + intros s Hs. apply filter_In in Hs as [_ Hs].
      apply negb_true_iff, Z.eqb_neq in Hs. exact Hs.
  - intros o. apply run_orphan_free.
  - intros ops. apply run_ops_orphan_free. exact I.
Qed.

(** The series [sid] is in the library and every row with its id is a
    draft. *)
Local Abbreviation draft_in sid lib :=
  ((exists s, In s (series_rows lib) /\ series_id s = sid)
   /\ (forall s, In s (series_rows lib) -> series_id s = sid ->
                 status s = "draft")).

Lemma run_keeps_draft (sid : Z) (w : world) (o : operation json)
    (lib : library) :
  store w = Some lib -> draft_in sid lib ->
  touches json sid o = false ->
  exists lib', store (run_op w o) = Some lib' /\ draft_in sid lib'.
Proof.
  intros E [[s0 [H0 E0]] D] T.
  assert (EI : init_series_library (store w) = lib) by now rewrite E.
  destruct o as [|sd| |sid'|sid'|term|st sid']; cbn [run touches] in *.
  - rewrite EI. exists lib. repeat split; eauto.
  - rewrite save_spec. cbn. rewrite EI. eexists. split; [reflexivity|].
    cbn. split.
    + exists s0. split; [apply in_or_app; now left | exact E0].
    + intros s Hs Es. apply in_app_or in Hs as [Hs|[<-|[]]];
        [now apply D | reflexivity].
  - unfold get_all_series. rewrite EI. exists lib. repeat split; eauto.
  - unfold get_series_details. rewrite EI.
    destruct (List.find _ (series_rows lib)); exists lib; repeat split; eauto.
  - unfold delete_series. rewrite EI. eexists. split; [reflexivity|].
    cbn. split.
    + exists s0. split; [|exact E0]. apply filter_In. split; [exact H0|].
      rewrite E0. apply negb_true_iff, Z.eqb_neq. apply Z.eqb_neq in T.
      congruence.
    + intros s Hs. apply filter_In in Hs as [Hs _]. now apply D.
  - unfold search_series. rewrite EI. exists lib. repeat split; eauto.
  - unfold update_status. rewrite EI. eexists. split; [reflexivity|].
    apply Z.eqb_neq in T. cbn. split.
    + exists s0. split; [|exact E0]. apply in_map_iff. exists s0.
      split; [|exact H0].
      assert (F : (series_id s0 =? sid')%Z = false)
        by (apply Z.eqb_neq; congruence).
      now rewrite F.
    + intros s Hs Es. apply in_map_iff in Hs as [s1 [E1 H1]].
      destruct (series_id s1 =? sid')%Z eqn:F.
      * apply Z.eqb_eq in F. subst s. cbn in Es. congruence.
      * subst s1. now apply D.
Qed.

Lemma run_ops_keep_draft (sid : Z) (later : list (operation json)) (w : world)
    (lib : library) :
  store w = Some lib -> draft_in sid lib ->
  forallb (fun o => negb (touches json sid o)) later = true ->
  exists lib', store (run_ops w later) = Some lib' /\ draft_in sid lib'.
Proof.
  revert w lib; induction later as [|o later IH]; intros w lib E D T.
  - exists lib. now split.
  - simpl in T. apply andb_true_iff in T as [T1 T2].
    apply negb_true_iff in T1.
    destruct (run_keeps_draft sid w o lib E D T1) as [lib1 [E1 D1]].
    exact (IH _ _ E1 D1 T2).
Qed.

Lemma fetch_draft (sid : Z) (w : world) (lib : library) :
  store w = Some lib -> draft_in sid lib ->
  exists d, fst (get_series_details w sid) = Some d
            /\ series_id (det_series d) = sid
            /\ status (det_series d) = "draft".
Proof.
  intros E [[s0 [H0 E0]] D]. unfold get_series_details. rewrite E.
  cbn [init_series_library].
  destruct (List.find (fun s => (series_id s =? sid)%Z) (series_rows lib))
    as [s|] eqn:F.
  - apply find_some in F as [Hs Es]. apply Z.eqb_eq in Es.
    eexists. split; [reflexivity|]. cbn. split; [exact Es | now apply D].
  - exfalso. pose proof (find_none _ _ F s0 H0) as C. cbn in C.
    apply Z.eqb_neq in C. congruence.
Qed.

Lemma insert_by_date_desc_perm (s : series_row) (l : list series_row) :
  Permutation (insert_by_date_desc s l) (s :: l).
Proof.
  induction l as [|r l IH]; simpl; [reflexivity|].
  destruct (String.leb (date_created r) (date_created s)); [reflexivity|].
  rewrite IH. apply perm_swap.
Qed.

Lemma order_by_date_desc_perm (l : list series_row) :
  Permutation (order_by_date_desc l) l.
Proof.
  induction l as [|s l IH]; simpl; [reflexivity|].
  rewrite insert_by_date_desc_perm. now constructor.
Qed.

(** After a save in a well-formed library, the saved series is there and
    is a draft. *)
Lemma save_draft_in (w : world) (sd : series_data json) :
  well_formed w ->
  exists lib, store (snd (save w sd)) = Some lib
              /\ draft_in (fst (save w sd)) lib.
Proof.
  intros W. pose proof (init_ids_bounded w W) as B.
  rewrite save_spec. cbn. eexists. split; [reflexivity|]. cbn. split.
  - eexists. split; [apply in_or_app; right; left; reflexivity | reflexivity].
  - intros s Hs Es. apply in_app_or in Hs as [Hs|[<-|[]]]; [|reflexivity].
    specialize (B s Hs). lia.
Qed.

(** C10. In every library reached by the library operations,
    [save_series_to_library] stores the new series with status "draft"
    whatever ['status'] entry its argument carries: the save does not
    depend on that entry, the series fetched by the returned id and the
    series listed by [get_all_series] are drafts, and the series stays a
    draft through any later operations other than a status update or a
    deletion of that series. *)
Theorem saved_series_is_draft (ops : list (operation json))
    (sd : series_data json) (st : option string) :
  save (run_ops initial_world ops) (with_status json sd st)
  = save (run_ops initial_world ops) sd
  /\ (exists d,
        fst (get_series_details (snd (save (run_ops initial_world ops) sd))
                                (fst (save (run_ops initial_world ops) sd)))
        = Some d
        /\ series_id (det_series d) = fst (save (run_ops initial_world ops) sd)
        /\ status (det_series d) = "draft")
  /\ (exists s,
        In s (fst (get_all_series (snd (save (run_ops initial_world ops) sd))))
        /\ sum_series_id s = fst (save (run_ops initial_world ops) sd)
        /\ sum_status s = "draft")
  /\ (forall later : list (operation json),
        forallb (fun o => negb (touches json
                                  (fst (save (run_ops initial_world ops) sd)) o))
                later = true ->
        exists d,
          fst (get_series_details
                 (run_ops (snd (save (run_ops initial_world ops) sd)) later)
                 (fst (save (run_ops initial_world ops) sd)))
          = Some d
          /\ series_id (det_series d)
             = fst (save (run_ops initial_world ops) sd)
          /\ status (det_series d) = "draft").
Proof.
  pose proof (run_ops_well_formed _ ops initial_well_formed) as W.
  set (w := run_ops initial_world ops) in *.
  destruct (save_draft_in w sd W) as [lib [E D]].
  split; [reflexivity|]. split; [|split].
  - exact (fetch_draft _ _ _ E D).
  - unfold get_all_series. rewrite E. cbn [init_series_library fst].
    destruct D as [[s [Hs Es]] D].
    exists (summarize s). split; [|split].
    + apply in_map.
      apply (Permutation_in _ (Permutation_sym (order_by_date_desc_perm _))).
      exact Hs.
    + exact Es.
    + cbn. now apply D.
  - intros later T.
    destruct (run_ops_keep_draft _ later _ _ E D T) as [lib' [E' D']].
    exact (fetch_draft _ _ _ E' D').
Qed.

End LibraryFacts.


(** ** Splitting at a separator *)

Section SplitFacts.
Import PyStr.

Lemma length_take (n : nat) (s : string) :
  length (take n s) = Nat.min n (length s).
Proof.
  revert s; induction n as [|n IH]; intros [|c s]; simpl; auto.
Qed.

Lemma take_drop (n : nat) (s : string) : (take n s ++ drop n s)%string = s.
Proof.
  revert s; induction n as [|n IH]; intros [|c s]; simpl; auto.
  now rewrite IH.
Qed.

Lemma take_app_exact (a b : string) : take (length a) (a ++ b)%string = a.
Proof. induction a as [|c a IH]; simpl; [now destruct b | now rewrite IH]. Qed.

Lemma drop_app_exact (a b : string) : drop (length a) (a ++ b)%string = b.
Proof. induction a as [|c a IH]; simpl; [reflexivity | exact IH]. Qed.


(** Where [find] succeeds, the separator stands. *)
Lemma find_some_split (s sep : string) (i : nat) :
  find s sep = Some i ->
  s = (take i s ++ sep ++ drop (i + length sep) s)%string
  /\ i + length sep <= length s.
Proof.
  revert i; induction s as [|c s IH]; intros i H.
  - simpl in H. destruct (startswith "" sep) eqn:E; [|discriminate].
    injection H as <-. pose proof (startswith_length _ _ E) as L.
    destruct sep; [now split | simpl in L; lia].
  - cbn [find] in H. destruct (startswith (String c s) sep) eqn:E.
    + injection H as <-. split; [|now apply startswith_length in E].
      cbn [take]. simpl append at 1. now apply startswith_split.
    + destruct (find s sep) as [j|]; [|discriminate]. injection H as <-.
      destruct (IH j eq_refl) as [E1 L]. split; [|simpl; lia].
      cbn [take]. simpl. now f_equal.
Qed.

(** [find] succeeds no later than any occurrence of the separator. *)
Lemma find_app (a sep b : string) :
  exists i, find (a ++ sep ++ b)%string sep = Some i /\ i <= length a.
Proof.
  induction a as [|c a IH].
  - exists 0. split; [|lia]. simpl append.
    destruct (sep ++ b)%string eqn:E; cbn [find];
      rewrite <- E, startswith_app; reflexivity.
  - simpl append. cbn [find].
    destruct (startswith (String c (a ++ sep ++ b)) sep).
    + exists 0. split; [reflexivity | lia].
    + destruct IH as [i [-> L]]. exists (S i). split; [reflexivity|simpl; lia].
Qed.

Lemma split_once_first (s sep a b : string) :
  split_once s sep = Some (a, b) <-> first_split s sep a b.
Proof.
  unfold split_once, first_split. split.
  - destruct (find s sep) as [i|] eqn:F; [|discriminate]. intros [= <- <-].
    destruct (find_some_split _ _ _ F) as [E L]. split; [exact E|].
    intros a' b' E'. rewrite length_take.
    destruct (find_app a' sep b') as [j [F' L']]. rewrite <- E' in F'.
    assert (j = i) by congruence. lia.
  - intros [E M]. destruct (find_app a sep b) as [i [F L]].
    rewrite <- E in F. rewrite F.
    destruct (find_some_split _ _ _ F) as [E' L'].
    specialize (M _ _ E'). rewrite length_take in M.
    assert (i = length a) by lia. subst i.
    rewrite E at 1 2. rewrite take_app_exact.
    rewrite <- (drop_drop (length sep) (length a)).
    now rewrite !drop_app_exact.
Qed.

Lemma contains_iff (s sep : string) :
  contains s sep = true <-> exists a b, s = (a ++ sep ++ b)%string.
Proof.
  unfold contains. split.
  - destruct (find s sep) as [i|] eqn:F; [|discriminate]. intros _.
    destruct (find_some_split _ _ _ F) as [E _]. eauto.
  - intros [a [b ->]]. now destruct (find_app a sep b) as [i [-> _]].
Qed.

Lemma split_head_first (s sep : string) :
  contains s sep = true ->
  exists b, first_split s sep (split_head s sep) b.
Proof.
  unfold contains, split_head. destruct (find s sep) as [i|] eqn:F;
    [|discriminate].
  intros _. exists (drop (i + length sep) s). apply split_once_first.
  unfold split_once. now rewrite F.
Qed.

Lemma first_split_unique (s sep a b a' b' : string) :
  first_split s sep a b -> first_split s sep a' b' -> a = a' /\ b = b'.
Proof.
  intros H H'. apply split_once_first in H, H'. split; congruence.
Qed.

(** An occurrence of the separator survives in what a first split leaves
    behind, with everything that followed it. *)
Lemma split_once_suffix (a sep r : string) :
  exists a0 rest x,
    split_once (a ++ sep ++ r)%string sep = Some (a0, rest)
    /\ rest = (x ++ r)%string.
Proof.
  unfold split_once. destruct (find_app a sep r) as [i [F L]]. rewrite F.
  exists (take i (a ++ sep ++ r)), (drop (i + length sep) (a ++ sep ++ r)),
         (take (length a - i) (drop (i + length sep) (a ++ sep ++ r))).
  split; [reflexivity|].
  rewrite <- (take_drop (length a - i)) at 1. f_equal.
  rewrite drop_drop.
  replace (i + length sep + (length a - i)) with (length a + length sep)
    by lia.
  rewrite <- drop_drop. now rewrite !drop_app_exact.
Qed.

End SplitFacts.

(** ** The devotional parser *)

Section DevotionalFacts.
Import PyStr Devotional.

Lemma lstrip_prefix (s : string) : exists w, s = (w ++ lstrip s)%string.
Proof.
  induction s as [|c s [w IH]]; simpl.
  - now exists EmptyString.
  - destruct (isspace c).
    + exists (String c w). simpl. now f_equal.
    + now exists EmptyString.
Qed.

Lemma rstrip_suffix (s : string) : exists w, s = (rstrip s ++ w)%string.
Proof.
  induction s as [|c s [w IH]]; simpl.
  - now exists EmptyString.
  - destruct (rstrip s) as [|x r] eqn:R.
    + destruct (isspace c).
      * exists (String c s). reflexivity.
      * exists s. reflexivity.
    + exists w. simpl. now f_equal.
Qed.

(** Leading whitespace ends at the latest where a non-space character
    stands. *)
Lemma lstrip_app (a r : string) (c : ascii) :
  isspace c = false ->
  lstrip (a ++ String c r)%string = (lstrip a ++ String c r)%string.
Proof.
  intros H. induction a as [|x a IH]; simpl.
  - now rewrite H.
  - destruct (isspace x); [exact IH | reflexivity].
Qed.

Lemma rstrip_app (p d : string) (c : ascii) :
  isspace c = false ->
  rstrip (p ++ String c d)%string = (p ++ String c (rstrip d))%string.
Proof.
  intros H. induction p as [|x p IH].
  - simpl. rewrite H. now destruct (rstrip d).
  - simpl append. cbn [rstrip]. rewrite IH.
    destruct p; reflexivity.
Qed.

Lemma strip_middle (a m d : string) (c1 c2 : ascii) :
  isspace c1 = false -> isspace c2 = false ->
  strip (a ++ String c1 (m ++ String c2 d))%string
  = (lstrip a ++ String c1 (m ++ String c2 (rstrip d)))%string.
Proof.
  intros H1 H2. unfold strip. rewrite lstrip_app by exact H1.
  change (lstrip a ++ String c1 (m ++ String c2 d))%string
    with (lstrip a ++ (String c1 m ++ String c2 d))%string.
  rewrite <- app_assoc_str, rstrip_app by exact H2.
  now rewrite app_assoc_str.
Qed.

(** Stripping a text keeps the labels it holds. *)
Lemma labels_in_order_strip (body : string) :
  labels_in_order (strip body) <-> labels_in_order body.
Proof.
  unfold labels_in_order. split.
  - intros [a [b [c [d E]]]]. unfold strip in E.
    destruct (lstrip_prefix body) as [w1 E1].
    destruct (rstrip_suffix (lstrip body)) as [w2 E2].
    exists (w1 ++ a)%string, b, c, (d ++ w2)%string.
    rewrite E1 at 1. rewrite E2 at 1. rewrite E.
    now rewrite !app_assoc_str.
  - intros [a [b [c [d ->]]]].
    exists (lstrip a), b, c, (rstrip d).
    set (m := ("ITLE:" ++ b ++ NARRATIVE ++ c ++ "KEY SCRIPTURES")%string).
    assert (E : forall x y : string,
               (x ++ TITLE ++ b ++ NARRATIVE ++ c ++ KEY_SCRIPTURES ++ y
                = x ++ String "T" (m ++ String ":" y))%string).
    { intros x y. subst m. rewrite !app_assoc_str. reflexivity. }
    rewrite !E. apply strip_middle; reflexivity.
Qed.

(** The three splits of [parse_section] succeed exactly on a text with
    the labels in order. *)
Lemma label_splits (section : string) :
  labels_in_order section <->
  exists pre remaining title_part rest narrative_part scripture_part,
    split_once section TITLE = Some (pre, remaining)
    /\ split_once remaining NARRATIVE = Some (title_part, rest)
    /\ split_once rest KEY_SCRIPTURES = Some (narrative_part, scripture_part).
Proof.
  unfold labels_in_order. split.
  - intros [a [b [c [d ->]]]].
    destruct (split_once_suffix a TITLE (b ++ NARRATIVE ++ c ++ KEY_SCRIPTURES ++ d))
      as [pre [remaining [x [E1 ->]]]].
    rewrite <- app_assoc_str.
    destruct (split_once_suffix (x ++ b) NARRATIVE (c ++ KEY_SCRIPTURES ++ d))
      as [title_part [rest [y [E2 ->]]]].
    rewrite <- app_assoc_str.
    destruct (split_once_suffix (y ++ c) KEY_SCRIPTURES d)
      as [narrative_part [scripture_part [z [E3 _]]]].
    rewrite !app_assoc_str in *.
    exists pre. eexists. exists title_part. eexists.
    exists narrative_part, scripture_part.
    split; [exact E1|]. split; [exact E2 | exact E3].
  - intros [pre [remaining [title_part [rest [narrative_part
             [scripture_part [E1 [E2 E3]]]]]]]].
    apply split_once_first in E1 as [-> _].
    apply split_once_first in E2 as [-> _].
    apply split_once_first in E3 as [-> _].
    now exists pre, title_part, narrative_part, scripture_part.
Qed.

(** A unit is parsed exactly when it is well formed. *)
Lemma parse_section_some (unit : string) :
  (exists d, parse_section unit = Some d) <-> well_formed_unit unit.
Proof.
  unfold well_formed_unit, parse_section. split.
  - intros [d H]. destruct (contains unit END_) eqn:C; [|discriminate].
    simpl in H. destruct (split_head_first _ _ C) as [rest F].
    exists (split_head unit END_), rest. split; [exact F|].
    apply labels_in_order_strip, label_splits.
    destruct (split_once (strip (split_head unit END_)) TITLE)
      as [[pre remaining]|] eqn:E1; [|discriminate].
    destruct (split_once remaining NARRATIVE) as [[title_part rest']|] eqn:E2;
      [|discriminate].
    destruct (split_once rest' KEY_SCRIPTURES)
      as [[narrative_part scripture_part]|] eqn:E3; [|discriminate].
    exists pre, remaining, title_part, rest', narrative_part, scripture_part.
    now repeat split.
  - intros [body [rest [F L]]].
    assert (C : contains unit END_ = true).
    { apply contains_iff. destruct F as [-> _]. eauto. }
    rewrite C. simpl.
    destruct (split_head_first _ _ C) as [rest' F'].
    destruct (first_split_unique _ _ _ _ _ _ F F') as [<- _].
    apply labels_in_order_strip, label_splits in L
      as [pre [remaining [title_part [rest2 [narrative_part
             [scripture_part [E1 [E2 E3]]]]]]]].
    rewrite E1, E2, E3. eauto.
Qed.

(** What a parsed unit yields: the stripped texts between the labels. *)
Lemma parse_section_fields (unit : string) (d : devotional) :
  parse_section unit = Some d ->
  exists body rest pre remaining title_part rest2 narrative_part scripture_part,
    first_split unit END_ body rest
    /\ first_split (strip body) TITLE pre remaining
    /\ first_split remaining NARRATIVE title_part rest2
    /\ first_split rest2 KEY_SCRIPTURES narrative_part scripture_part
    /\ dev_title d = strip title_part
    /\ dev_narrative d = paragraphs (strip narrative_part)
    /\ dev_scriptures d
       = scripture_lines (split (strip scripture_part) (String newline "")).
Proof.
  unfold parse_section. destruct (contains unit END_) eqn:C; [|discriminate].
  simpl. destruct (split_head_first _ _ C) as [rest F].
  destruct (split_once (strip (split_head unit END_)) TITLE)
    as [[pre remaining]|] eqn:E1; [|discriminate].
  destruct (split_once remaining NARRATIVE) as [[title_part rest2]|] eqn:E2;
    [|discriminate].
  destruct (split_once rest2 KEY_SCRIPTURES)
    as [[narrative_part scripture_part]|] eqn:E3; [|discriminate].
  intros [= <-]. apply split_once_first in E1, E2, E3.
  exists (split_head unit END_), rest, pre, remaining, title_part, rest2,
         narrative_part, scripture_part.
  repeat split; try assumption; try apply F; try apply E1; try apply E2;
    try apply E3.
Qed.

Lemma parse_sections_parsed (us : list string) : parsed us (parse_sections us).
Proof.
  induction us as [|u us IH]; simpl; [constructor|].
  destruct (parse_section u) as [d|] eqn:E.
  - apply parsed_keep; [apply parse_section_some; eauto | exact E | exact IH].
  - apply parsed_skip; [|exact IH].
    intros W. apply parse_section_some in W as [d W]. congruence.
Qed.

Lemma split_fuel_cons (fuel : nat) (s sep : string) :
  exists x l, split_fuel fuel s sep = x :: l.
Proof. destruct fuel; simpl; destruct (find s sep); eauto. Qed.

Lemma find_empty (sep : string) :
  sep <> EmptyString -> find EmptyString sep = None.
Proof. destruct sep; [congruence | reflexivity]. Qed.

(** Joining the pieces of a split with the separator gives the text
    back, when the fuel is at least the length of the text. *)
Lemma split_fuel_join (fuel : nat) (s sep : string) :
  sep <> EmptyString -> length s <= fuel ->
  join sep (split_fuel fuel s sep) = s.
Proof.
  intros NE. revert s; induction fuel as [|fuel IH]; intros s L.
  - destruct s; [|simpl in L; lia]. cbn [split_fuel].
    now rewrite find_empty.
  - cbn [split_fuel]. destruct (find s sep) as [i|] eqn:F; [|reflexivity].
    destruct (find_some_split _ _ _ F) as [E B].
    assert (1 <= length sep) by (destruct sep; [congruence | simpl; lia]).
    assert (L' : length (drop (i + length sep) s) <= fuel)
      by (rewrite length_drop; lia).
    specialize (IH _ L').
    destruct (split_fuel_cons fuel (drop (i + length sep) s) sep)
      as [x [l El]].
    rewrite El in *.
    change (join sep (take i s :: x :: l))
      with (take i s ++ sep ++ join sep (x :: l))%string.
    now rewrite IH, <- E.
Qed.

(** The text before the first occurrence holds no occurrence. *)
Lemma find_take_none (s sep : string) (i : nat) :
  sep <> EmptyString -> find s sep = Some i -> find (take i s) sep = None.
Proof.
  intros NE. revert i; induction s as [|c s IH]; intros i F.
  - now rewrite find_empty in F.
  - cbn [find] in F. destruct (startswith (String c s) sep) eqn:E.
    + injection F as <-. simpl take. now apply find_empty.
    + destruct (find s sep) as [j|] eqn:Fj; [|discriminate].
      injection F as <-. cbn [take find].
      destruct (startswith (String c (take j s)) sep) eqn:E'.
      * apply (startswith_app_keep _ (drop j s)) in E'. simpl in E'.
        rewrite take_drop in E'. congruence.
      * now rewrite (IH j eq_refl).
Qed.

Lemma split_fuel_pieces (fuel : nat) (s sep : string) :
  sep <> EmptyString -> length s <= fuel ->
  Forall (fun piece => contains piece sep = false) (split_fuel fuel s sep).
Proof.
  intros NE. revert s; induction fuel as [|fuel IH]; intros s L.
  - destruct s; [|simpl in L; lia]. cbn [split_fuel].
    rewrite find_empty by exact NE.
    repeat constructor. unfold contains. now rewrite find_empty.
  - cbn [split_fuel]. destruct (find s sep) as [i|] eqn:F.
    + destruct (find_some_split _ _ _ F) as [_ B].
      assert (1 <= length sep) by (destruct sep; [congruence | simpl; lia]).
      constructor.
      * unfold contains. now rewrite (find_take_none _ _ _ NE F).
      * apply IH. rewrite length_drop. lia.
    + repeat constructor. unfold contains. now rewrite F.
Qed.

(** C6. For every text the generation service returns, the parser
    returns, in order, one devotional for each well-formed unit and
    nothing else.  The units are the texts that follow the start markers
    (the response is its prefix and its units joined by the marker, none
    of them holding a marker); a unit is parsed exactly when it has an end
    marker and the text before its first end marker holds the labels
    [TITLE:], [NARRATIVE:] and [KEY SCRIPTURES:] in this order, its fields
    being the stripped texts between the labels; every other unit is
    skipped on its own.  The function always returns a list, the empty one
    when the request itself fails. *)
Theorem parse_devotionals_units (content : string) :
  parsed (units content) (parse_devotionals content)
  /\ (exists prefix,
        content = join START (prefix :: units content)
        /\ Forall (fun u => contains u START = false)
                  (prefix :: units content))
  /\ (forall u, (exists d, parse_section u = Some d) <-> well_formed_unit u)
  /\ (forall u d, parse_section u = Some d ->
        exists body rest pre remaining title_part rest2 narrative_part
               scripture_part,
          first_split u END_ body rest
          /\ first_split (strip body) TITLE pre remaining
          /\ first_split remaining NARRATIVE title_part rest2
          /\ first_split rest2 KEY_SCRIPTURES narrative_part scripture_part
          /\ dev_title d = strip title_part
          /\ dev_narrative d = paragraphs (strip narrative_part)
          /\ dev_scriptures d
             = scripture_lines
                 (split (strip scripture_part) (String newline "")))
  /\ generate_devotionals (Text content) = (parse_devotionals content, [])
  /\ (forall e, fst (generate_devotionals (Failure e)) = []).
Proof.
  split; [apply parse_sections_parsed|]. split; [|split; [|split; [|split]]].
  - unfold units, split.
    assert (NE : START <> EmptyString) by discriminate.
    pose proof (split_fuel_join (length content) content START NE (le_n _)) as J.
    pose proof (split_fuel_pieces (length content) content START NE (le_n _))
      as P.
    destruct (split_fuel_cons (length content) content START) as [x [l E]].
    rewrite E in *. exists x. simpl tl. now split.
  - apply parse_section_some.
  - apply parse_section_fields.
  - reflexivity.
  - reflexivity.
Qed.

End DevotionalFacts.


(** ** The properties at the sample data *)

Section Instances.
Import PyStr Dict.

(** A title with a colon and a Part delimiter, and one with a trailing
    integer: both count for "Acts". *)
Lemma series_counter_counts_witness :
  primary_name "Acts: Grace - Part Two" = Some "Acts"
  /\ cget (Analyzer.series_counter ["Acts: Grace - Part Two"; "Acts 2"]) "Acts"
     = 2.
Proof.
  destruct (series_counter_counts ["Acts: Grace - Part Two"; "Acts 2"] "Acts")
    as [E [P _]].
  split; [apply P; reflexivity | exact E].
Defined.


(** The sample catalogue, a catalogue whose table has no text column and
    one whose text column is spelled with a capital. *)
Lemma schema_detection_witness :
  Schema.detect_schema sample_db
  = (Some "video_transcripts", Some "transcript_text")
  /\ Schema.detect_schema [bare_table] = (None, None)
  /\ fst (Schema.get_database_info (Schema.Opened [bare_table])) = None
  /\ (exists total,
        Schema.get_database_info (Schema.Opened [capital_table])
        = (Some (Schema.mkInfo "transcripts" "transcript" 1 total), [])).
Proof.
  destruct (schema_detection sample_db) as [_ [H _]].
  destruct (schema_detection [bare_table]) as [_ [H' _]].
  destruct (schema_detection [capital_table]) as [_ [H'' _]].
  assert (F : first_accepted sample_db sample_table).
  { exists [Schema.mkTable "table" "notes" (Schema.plain ["id"; "body"]) [];
            Schema.mkTable "index" "transcripts" [] []], [].
    repeat split. intros u [<-|[<-|[]]]; reflexivity. }
  assert (F' : first_accepted [bare_table] bare_table).
  { exists [], []. repeat split. intros u []. }
  assert (F'' : first_accepted [capital_table] capital_table).
  { exists [], []. repeat split. intros u []. }
  destruct (H sample_table F) as [G _].
  destruct (H' bare_table F') as [_ [_ [G' _]]].
  destruct (H'' capital_table F'') as [_ [_ [_ [_ [_ [_ [G'' _]]]]]]].
  split; [exact (proj1 (G eq_refl))|].
  split; [exact (proj1 (G' (conj eq_refl eq_refl)))|].
  split; [exact (proj2 (G' (conj eq_refl eq_refl)))|].
  exact (G'' eq_refl (ex_intro _ 1 eq_refl)).
Defined.


(** "Hope" is counted twice and left out, "Romans" three times and kept. *)
Lemma detect_series_result_witness :
  cget (Analyzer.series_counter (Analyzer.titles series_corpus)) "Hope" = 2
  /\ get (Analyzer.detect_series series_corpus) "Hope" = None
  /\ get (Analyzer.detect_series series_corpus) "Romans" = Some 3.
Proof.
  destruct (detect_series_result series_corpus) as [_ [_ [_ [_ [H _]]]]].
  split; [reflexivity|]. split; [apply H; reflexivity | reflexivity].
Defined.

(** A response with one well-formed unit and one cut short. *)
Lemma parse_devotionals_units_witness :
  well_formed_unit sample_unit
  /\ List.length (Devotional.parse_devotionals
                    ("1. ---DEVOTIONAL START---" ++ sample_unit
                     ++ "2. ---DEVOTIONAL START--- TITLE: cut short")%string)
     = 1.
Proof.
  destruct (parse_devotionals_units "") as [_ [_ [H _]]].
  split; [|reflexivity].
  apply H. eexists. reflexivity.
Defined.

(** The sample series, saved into a new library and fetched. *)
Lemma save_then_fetch_witness :
  exists d,
    fst (Library.get_series_details
           (snd (sample_save (Library.initial_world)))
           (fst (sample_save (Library.initial_world)))) = Some d
    /\ map (fun p => (Library.post_number p, Library.html_content p))
           (Library.det_posts d)
       = [(1%Z, "<p>one</p>"); (2%Z, "<p>two</p>")].
Proof.
  destruct (save_then_fetch string (fun j => j) "[]" sample_clock []
                            sample_series) as [d [E [_ [_ [_ [_ [_ S]]]]]]].
  exists d. split; [exact E|]. apply S.
  repeat constructor; cbn; lia.
Defined.

(** The sample series, saved and deleted. *)
Lemma delete_series_cascade_witness :
  Library.orphan_free
    (Library.run string (fun j => j) "[]" sample_clock
                 (snd (sample_save Library.initial_world))
                 (Library.OpDelete string 1)).
Proof.
  destruct (delete_series_cascade string (fun j => j) "[]" sample_clock
              (snd (sample_save Library.initial_world)) 1) as [_ [H _]].
  apply H. intros p [<-|[<-|[]]]; eexists; (split; [left; reflexivity|]);
    reflexivity.
Defined.

(** A second record that holds the phrase once more. *)
Lemma find_phrases_monotone_witness :
  get (Analyzer.find_phrases ["holy spirit"]
         [mkRecord None (Some "Holy Spirit, come")] 1) "holy spirit" = Some 1
  /\ get (Analyzer.find_phrases ["holy spirit"]
            ([mkRecord None (Some "Holy Spirit, come")]
             ++ [mkRecord None (Some "the holy spirit")]) 1) "holy spirit"
     = Some 2.
Proof.
  destruct (find_phrases_monotone ["holy spirit"] 1
              [mkRecord None (Some "Holy Spirit, come")]
              (mkRecord None (Some "the holy spirit")) "holy spirit")
    as [_ [_ H]].
  split; [reflexivity|]. exact (proj2 (proj2 (H 1 eq_refl))).
Defined.

(** The sample series stays a draft while another series is saved,
    published and deleted. *)
Lemma saved_series_is_draft_witness :
  exists d,
    fst (Library.get_series_details
           (Library.run_all string (fun j => j) "[]" sample_clock
              (snd (sample_save Library.initial_world))
              [Library.OpSave string sample_series;
               Library.OpUpdateStatus string "published" 2;
               Library.OpDelete string 2])
           1) = Some d
    /\ Library.series_id (Library.det_series d) = 1%Z
    /\ Library.status (Library.det_series d) = "draft".
Proof.
  destruct (saved_series_is_draft string (fun j => j) "[]" sample_clock []
              sample_series None) as [_ [_ [_ H]]].
  apply (H [Library.OpSave string sample_series;
            Library.OpUpdateStatus string "published" 2;
            Library.OpDelete string 2]).
  reflexivity.
Defined.

End Instances.


(* ===================================================================== *)
(** * Part III. Further properties of the code                            *)
(* ===================================================================== *)

(** ** The context scanner: what is reported and what is not *)

Section ScanMore.
Import PyStr Context.

Lemma positions_go_sound (sub s : string) (k base p : nat) :
  In p (positions_go sub s k base) ->
  base + k <= p /\ occurs_at sub s (p - base).
Proof.
  unfold occurs_at.
  revert k base; induction s as [|c s IH]; intros k base H; [destruct H|].
  cbn [positions_go] in H. destruct k as [|k].
  - destruct (startswith (String c s) sub) eqn:E.
    + destruct H as [<-|H].
      * rewrite Nat.sub_diag. split; [lia | exact E].
      * apply IH in H as [L O]. split; [lia|].
        replace (p - base) with (S (p - S base)) by lia. exact O.
    + apply IH in H as [L O]. split; [lia|].
      replace (p - base) with (S (p - S base)) by lia. exact O.
  - apply IH in H as [L O]. split; [lia|].
    replace (p - base) with (S (p - S base)) by lia. exact O.
Qed.

Lemma positions_go_spaced (sub s : string) (k base : nat) :
  1 <= length sub -> spaced (length sub) (positions_go sub s k base).
Proof.
  intros NE. unfold spaced.
  revert k base; induction s as [|c s IH]; intros k base; [constructor|].
  cbn [positions_go]. destruct k as [|k]; [|apply IH].
  destruct (startswith (String c s) sub); [|apply IH].
  constructor; [apply IH|].
  rewrite Forall_forall. intros q Hq. apply positions_go_sound in Hq. lia.
Qed.

(** Every occurrence lies within one term-length after a counted
    position. *)
Lemma positions_go_complete (sub s : string) (k base q : nat) :
  1 <= length sub -> k <= q -> occurs_at sub s q ->
  exists p, In p (positions_go sub s k base)
            /\ p <= base + q < p + length sub.
Proof.
  intros NE. unfold occurs_at.
  revert k base q; induction s as [|c s IH]; intros k base q K O.
  - exfalso. assert (D : drop q EmptyString = EmptyString) by now destruct q.
    rewrite D in O. apply startswith_length in O. simpl in O. lia.
  - cbn [positions_go]. destruct k as [|k].
    + destruct (startswith (String c s) sub) eqn:E.
      * destruct (Nat.lt_ge_cases q (length sub)) as [L|L].
        -- exists base. split; [now left | lia].
        -- destruct q as [|q]; [lia|].
           destruct (IH (length sub - 1) (S base) q) as [p [Hp B]];
             [lia | exact O |].
           exists p. split; [now right | lia].
      * destruct q as [|q]; [simpl in O; congruence|].
        destruct (IH 0 (S base) q) as [p [Hp B]]; [lia | exact O |].
        exists p. split; [exact Hp | lia].
    + destruct q as [|q]; [lia|].
      destruct (IH k (S base) q) as [p [Hp B]]; [lia | exact O |].
      exists p. split; [exact Hp | lia].
Qed.

(** What the loop over one row returns. *)
Lemma scan_record_occurrences (search_term : string) (context_chars : Z)
    (r : record) :
  search_term <> EmptyString ->
  scan_record (fun text => S (length text)) search_term context_chars r
  = Some (record_occurrences search_term context_chars r).
Proof.
  intros NE. unfold scan_record, record_occurrences, record_positions.
  destruct (rec_text r) as [[|a t]|]; [| |reflexivity].
  - destruct search_term as [|x y]; [congruence | reflexivity].
  - destruct (scan_positions (S (length (String a t))) (rec_title r)
                (String a t) search_term context_chars 0 NE)
      as [occs [E [P Q]]]; [lia | lia |].
    rewrite E. f_equal. cbn [drop] in P. rewrite <- P.
    clear E P. induction Q as [|o occs [T C] _ IH]; [reflexivity|].
    simpl. rewrite <- IH. f_equal. destruct o as [ti co po]. simpl in *.
    now subst.
Qed.

Lemma scan_rows_occurrences (search_term : string) (context_chars : Z)
    (rows : corpus) :
  search_term <> EmptyString ->
  scan_rows (fun text => S (length text)) search_term context_chars rows
  = Some (flat_map (record_occurrences search_term context_chars) rows).
Proof.
  intros NE. induction rows as [|r rows IH]; [reflexivity|].
  cbn [scan_rows flat_map].
  now rewrite scan_record_occurrences, IH.
Qed.

Lemma length_lower_term (s : string) : 1 <= length s -> 1 <= length (lower s).
Proof. now rewrite length_lower. Qed.

(** X1. For a non-empty search term, when the query does not refuse the
    pattern, [find_all_contexts] returns, row by row in storage order,
    one occurrence for each position at which [str.count] counts the
    lowered term in the lowered text of a row that satisfies the
    condition of the query, with the title of the row; on a table with a
    row and a pattern of more than 50000 bytes it raises the error of the
    query.  Each reported position is a place where the lowered term
    stands in the lowered text, and the positions of one row ascend, each
    at least one term-length after the one before: no occurrence is
    reported twice and no two overlap.  Texts and terms are those of the
    embedding, of code points below 256, on which [str.lower] keeps every
    character in its place. *)
Theorem find_all_contexts_occurrences (c : corpus) (a : ascii) (t : string)
    (context_chars : Z) :
  (c = [] \/ Sqlite.too_complex ("%" ++ lower (String a t) ++ "%") = false ->
   find_all_contexts c (String a t) context_chars
   = Some (Ok (flat_map (record_occurrences (String a t) context_chars)
                        (matched c (String a t)))))
  /\ (c <> [] ->
      Sqlite.too_complex ("%" ++ lower (String a t) ++ "%") = true ->
      find_all_contexts c (String a t) context_chars
      = Some (Raise Sqlite.too_complex_message))
  /\ (forall r o,
        In o (record_occurrences (String a t) context_chars r) ->
        occ_title o = rec_title r
        /\ exists text,
             rec_text r = Some text
             /\ occurs_at (lower (String a t)) (lower text) (occ_position o)
             /\ occ_position o + length (String a t) <= length text)
  /\ (forall r,
        spaced (length (String a t))
               (map occ_position
                    (record_occurrences (String a t) context_chars r))).
Proof.
  split; [|split; [|split]].
  - intros H. unfold find_all_contexts, find_all_contexts_fuel, select.
    rewrite (select_where_ok _ _ _ H). fold (matched c (String a t)).
    now rewrite scan_rows_occurrences.
  - intros N T. unfold find_all_contexts, find_all_contexts_fuel, select.
    now rewrite (select_where_raise _ _ _ N T).
  - intros r o H. unfold record_occurrences, record_positions in H.
    destruct (rec_text r) as [text|] eqn:E; [|destruct H].
    apply in_map_iff in H as [p [<- H]]. cbn [occ_title occ_position].
    split; [reflexivity|]. exists text. split; [reflexivity|].
    apply positions_go_sound in H as [_ O]. rewrite Nat.sub_0_r in O.
    split; [exact O|].
    unfold occurs_at in O. apply startswith_length in O.
    rewrite length_drop, !length_lower in O.
    assert (1 <= length (String a t)) by (simpl; lia). lia.
  - intros r. unfold record_occurrences, record_positions.
    destruct (rec_text r) as [text|]; [|constructor].
    rewrite map_map. cbn [occ_position]. rewrite map_id.
    rewrite <- (length_lower (String a t)).
    apply positions_go_spaced. rewrite length_lower. simpl. lia.
Qed.

(** X2. Nothing is missed inside a row the query returns: wherever the
    lowered term stands in the lowered text of such a row, an occurrence
    of that row is reported that starts at most one term-length before
    it, that is, the reported occurrence is this one or overlaps it. *)
Theorem find_all_contexts_complete (c : corpus) (a : ascii) (t : string)
    (context_chars : Z) (rows : corpus) (r : record) (text : string)
    (q : nat) :
  select c (String a t) = Ok rows ->
  In r rows ->
  rec_text r = Some text ->
  occurs_at (lower (String a t)) (lower text) q ->
  exists occs o,
    find_all_contexts c (String a t) context_chars = Some (Ok occs)
    /\ In o occs
    /\ occ_title o = rec_title r
    /\ occ_context o
       = context_at text (String a t) context_chars (occ_position o)
    /\ occ_position o <= q < occ_position o + length (String a t).
Proof.
  intros Q M E O.
  destruct (positions_go_complete (lower (String a t)) (lower text) 0 0 q)
    as [p [Hp B]]; [simpl; lia | lia | exact O |].
  rewrite length_lower in B.
  exists (flat_map (record_occurrences (String a t) context_chars) rows),
         (mkOccurrence (rec_title r)
                       (context_at text (String a t) context_chars p) p).
  split.
  - unfold find_all_contexts, find_all_contexts_fuel. rewrite Q.
    now rewrite scan_rows_occurrences.
  - split; [|now repeat split].
    apply in_flat_map. exists r. split; [exact M|].
    unfold record_occurrences, record_positions. rewrite E.
    now apply (in_map (fun p => mkOccurrence (rec_title r)
                 (context_at text (String a t) context_chars p) p)).
Qed.

Lemma scan_rows_none (fuel : string -> nat) (search_term : string)
    (context_chars : Z) (rows : corpus) (r : record) :
  In r rows ->
  scan_record fuel search_term context_chars r = None ->
  scan_rows fuel search_term context_chars rows = None.
Proof.
  induction rows as [|x rows IH]; intros H N; [destruct H|].
  cbn [scan_rows]. destruct H as [<-|H].
  - now rewrite N.
  - rewrite (IH H N). now destruct (scan_record _ _ _ x).
Qed.

(** X4. With an empty search term the scan of the first row that has a
    non-empty text never ends: whatever number of rounds the loop is
    given, it has not returned. *)
Theorem find_all_contexts_empty_term (fuel : string -> nat) (c : corpus)
    (context_chars : Z) (r : record) (a : ascii) (t : string) :
  In r c ->
  rec_text r = Some (String a t) ->
  find_all_contexts_fuel fuel c EmptyString context_chars = None.
Proof.
  intros H E. unfold find_all_contexts_fuel, select.
  rewrite select_where_ok by (right; reflexivity).
  rewrite (scan_rows_none _ _ _ _ r); [reflexivity | |].
  - apply filter_In. split; [exact H|]. rewrite E.
    unfold Sqlite.lower_like, Sqlite.like.
    change (Sqlite.c_str ("%" ++ lower EmptyString ++ "%"))
      with (String "%" "%").
    apply like_any.
    exists EmptyString, (Sqlite.c_str (Sqlite.lower (String a t))).
    split; [reflexivity | apply like_percent].
  - unfold scan_record. rewrite E. apply scan_empty_term. lia.
Qed.

End ScanMore.

Section ScanFilter.
Import PyStr Context.

Ltac by_char c :=
  destruct c as [[] [] [] [] [] [] [] []]; vm_compute; try reflexivity;
  try discriminate.

Lemma sql_lower_char_ascii (c : ascii) :
  (code c <? 128) = true -> Sqlite.lower_char c = lower_char c.
Proof. by_char c. Qed.

Lemma sql_lower_py_lower_char (c : ascii) :
  Sqlite.lower_char (lower_char c) = lower_char c.
Proof. by_char c. Qed.

Lemma sql_lower_ascii (s : string) :
  is_ascii s = true -> Sqlite.lower s = lower s.
Proof.
  induction s as [|c s IH]; simpl; [reflexivity|]. intros H.
  apply andb_true_iff in H as [H1 H2].
  now rewrite sql_lower_char_ascii, IH.
Qed.

Lemma sql_lower_py_lower (s : string) : Sqlite.lower (lower s) = lower s.
Proof.
  induction s as [|c s IH]; simpl; [reflexivity|].
  now rewrite sql_lower_py_lower_char, IH.
Qed.

Lemma is_ascii_app (a b : string) :
  is_ascii (a ++ b)%string = is_ascii a && is_ascii b.
Proof.
  induction a as [|c a IH]; simpl; [reflexivity|].
  now rewrite IH, andb_assoc.
Qed.

Lemma like_char_refl (c : ascii) : Sqlite.like_char c c = true.
Proof. unfold Sqlite.like_char. apply Ascii.eqb_refl. Qed.

(** A text matches the pattern spelled like itself, wildcards or not. *)
Lemma like_same_prefix (p q t : string) :
  Sqlite.pattern_compare q t = true ->
  Sqlite.pattern_compare (p ++ q)%string (p ++ t)%string = true.
Proof.
  intros H. induction p as [|c p IH]; [exact H|].
  simpl append. destruct (Ascii.eqb c "%") eqn:E1.
  - apply Ascii.eqb_eq in E1. subst c. apply like_any.
    exists (String "%" EmptyString), (p ++ t)%string. now split.
  - cbn [Sqlite.pattern_compare]. rewrite E1.
    destruct (Ascii.eqb c "_"); [exact IH|].
    now rewrite like_char_refl, IH.
Qed.

(** X3. The query does not lose an ASCII text: when it does not refuse
    the pattern, a row whose text is ASCII without NUL and holds the
    search term, letter case apart, is among the rows it returns; and
    when the term has no [%], [_] or NUL, such a row is returned only if
    it holds the term. *)
Theorem matched_ascii (c : corpus) (search_term : string) (r : record)
    (text : string) :
  In r c -> rec_text r = Some text -> is_ascii text = true ->
  nul_free text = true ->
  (contains (lower text) (lower search_term) = true ->
   Sqlite.too_complex ("%" ++ lower search_term ++ "%") = false ->
   exists rows, select c search_term = Ok rows /\ In r rows)
  /\ (wildcard_free search_term = true -> nul_free search_term = true ->
      forall rows, select c search_term = Ok rows -> In r rows ->
      contains (lower text) (lower search_term) = true).
Proof.
  intros H E A Z. split.
  - intros C T. exists (matched c search_term). unfold select.
    rewrite select_where_ok by now right.
    split; [reflexivity|]. unfold matched.
    apply filter_In. split; [exact H|]. rewrite E.
    unfold Sqlite.lower_like, Sqlite.like.
    rewrite c_str_sql_lower, (c_str_nul_free _ Z), (sql_lower_ascii _ A).
    apply contains_iff in C as [x [y C]].
    assert (N : nul_free (lower search_term) = true).
    { pose proof (nul_free_lower text) as L. rewrite Z, C in L.
      rewrite !nul_free_app in L.
      apply andb_true_iff in L as [_ L]. now apply andb_true_iff in L as [L _]. }
    rewrite (c_str_pattern _ N), C.
    change ("%" ++ lower search_term ++ "%")%string
      with (String "%" (lower search_term ++ "%")).
    apply like_any. exists x, (lower search_term ++ y)%string.
    split; [reflexivity|]. apply like_same_prefix, like_percent.
  - intros W N rows Q M.
    assert (M' : Sqlite.lower_like (rec_text r) search_term = true).
    { rewrite (select_ok_matched _ _ _ Q) in M. unfold matched in M.
      now apply filter_In in M as [_ M]. }
    rewrite E in M'.
    apply (lower_like_contains _ _ W N) in M'
      as [before [mid [after [T M']]]].
    rewrite (c_str_nul_free _ Z) in T. subst text.
    rewrite !is_ascii_app in A. apply andb_true_iff in A as [_ A].
    apply andb_true_iff in A as [A _].
    rewrite (sql_lower_ascii _ A), sql_lower_py_lower in M'.
    apply contains_iff. exists (lower before), (lower after).
    now rewrite !lower_app, M'.
Qed.

(** Outside ASCII the query and the scan disagree on letter case: the
    text [É] holds the term [é] once lowered by Python, yet the row does
    not satisfy the condition; and a text is read by the query up to its
    first NUL only, while the scan reads all of it. *)
Remark matched_latin1 :
  contains (lower (String (ascii_of_nat 201) ""))
           (lower (String (ascii_of_nat 233) "")) = true
  /\ select [mkRecord None (Some (String (ascii_of_nat 201) ""))]
            (String (ascii_of_nat 233) "") = Ok []
  /\ contains (lower (String "a" (String Ascii.zero "grace"))) (lower "grace")
     = true
  /\ select [mkRecord None (Some (String "a" (String Ascii.zero "grace")))]
            "grace" = Ok [].
Proof. repeat split; vm_compute; reflexivity. Qed.

End ScanFilter.

Section ContextWindow.
Import PyStr Context.

Lemma lower_take (n : nat) (s : string) : lower (take n s) = take n (lower s).
Proof.
  revert s; induction n as [|n IH]; intros [|c s]; simpl; auto.
  now rewrite IH.
Qed.

Lemma lower_drop (n : nat) (s : string) : lower (drop n s) = drop n (lower s).
Proof. revert s; induction n as [|n IH]; intros [|c s]; simpl; auto. Qed.

Lemma take_app_ge (n : nat) (a b : string) :
  length a <= n -> take n (a ++ b)%string = (a ++ take (n - length a) b)%string.
Proof.
  revert n; induction a as [|c a IH]; intros n L; simpl.
  - now rewrite Nat.sub_0_r.
  - destruct n as [|n]; [simpl in L; lia|]. simpl. f_equal. apply IH.
    simpl in L. lia.
Qed.

(** A slice with bounds inside the text. *)
Lemma slice_inside (s : string) (i j : nat) :
  i <= j -> j <= length s ->
  slice s (Z.of_nat i) (Z.of_nat j) = take (j - i) (drop i s).
Proof.
  intros L1 L2. unfold slice, slice_index.
  destruct (Z.of_nat i <? 0)%Z eqn:E1; [apply Z.ltb_lt in E1; lia|].
  destruct (Z.of_nat j <? 0)%Z eqn:E2; [apply Z.ltb_lt in E2; lia|].
  rewrite !Z.min_l by lia. rewrite <- Nat2Z.inj_sub by lia.
  now rewrite !Nat2Z.id.
Qed.

(** X5. For a text and a term of code points below 256, on which
    [str.lower] keeps every character in its place, and a context size
    that is not negative, the context reported for an occurrence is the
    stripped window of the text around it between two ellipses: a piece
    of the text that holds the matched term, letter case apart, and is no
    longer than the term and twice the context size together. *)
Theorem context_at_window (text search_term : string) (context_chars : Z)
    (pos : nat) :
  (0 <= context_chars)%Z ->
  occurs_at (lower search_term) (lower text) pos ->
  exists before window after,
    text = (before ++ window ++ after)%string
    /\ context_at text search_term context_chars pos
       = ("..." ++ strip window ++ "...")%string
    /\ (Z.of_nat (length window)
        <= Z.of_nat (length search_term) + 2 * context_chars)%Z
    /\ exists x y, lower window = (x ++ lower search_term ++ y)%string.
Proof.
  intros C O. unfold occurs_at in O.
  pose proof (startswith_length _ _ O) as L.
  rewrite length_drop, !length_lower in L.
  apply startswith_split in O. rewrite length_lower in O.
  set (n := length search_term) in *.
  set (i := Z.to_nat (Z.max 0 (Z.of_nat pos - context_chars))).
  set (j := Z.to_nat (Z.min (Z.of_nat (length text))
                            (Z.of_nat pos + Z.of_nat n + context_chars))).
  assert (Hi : i <= pos) by (subst i; lia).
  destruct (Nat.eq_dec n 0) as [Z0|NZ].
  - (* an empty term occurs anywhere up to the end of the text *)
    assert (Hp : pos <= length text \/ length text < pos) by lia.
    assert (Hj : i <= j \/ j < i) by lia.
    exists (take i text), (take (j - i) (drop i text)),
           (drop (j - i) (drop i text)).
    split; [now rewrite !take_drop|]. split.
    + unfold context_at. fold n.
      replace (Z.max 0 (Z.of_nat pos - context_chars)) with (Z.of_nat i)
        by (subst i; lia).
      replace (Z.min (Z.of_nat (length text))
                     (Z.of_nat pos + Z.of_nat n + context_chars))
        with (Z.of_nat j) by (subst j; lia).
      destruct Hj as [Hj|Hj].
      * rewrite slice_inside; [reflexivity | exact Hj | subst j; lia].
      * unfold slice, slice_index.
        destruct (Z.of_nat i <? 0)%Z eqn:E1; [apply Z.ltb_lt in E1; lia|].
        destruct (Z.of_nat j <? 0)%Z eqn:E2; [apply Z.ltb_lt in E2; lia|].
        replace (Z.to_nat (Z.min (Z.of_nat j) (Z.of_nat (length text))
                           - Z.min (Z.of_nat i) (Z.of_nat (length text))))
          with 0 by lia.
        replace (j - i) with 0 by lia. reflexivity.
    + split.
      * rewrite length_take, length_drop. subst i j. lia.
      * assert (E : lower search_term = EmptyString).
        { destruct search_term; [reflexivity | subst n; simpl in Z0; lia]. }
        rewrite E. exists EmptyString, (lower (take (j - i) (drop i text))).
        reflexivity.
  - assert (Hj : pos + n <= j) by (subst j; lia).
    assert (Hl : j <= length text) by (subst j; lia).
    exists (take i text), (take (j - i) (drop i text)),
           (drop (j - i) (drop i text)).
    split; [now rewrite !take_drop|]. split.
    + unfold context_at. fold n.
      replace (Z.max 0 (Z.of_nat pos - context_chars)) with (Z.of_nat i)
        by (subst i; lia).
      replace (Z.min (Z.of_nat (length text))
                     (Z.of_nat pos + Z.of_nat n + context_chars))
        with (Z.of_nat j) by (subst j; lia).
      rewrite slice_inside; [reflexivity | lia | exact Hl].
    + split.
      * rewrite length_take, length_drop. subst i j. lia.
      * rewrite lower_take, lower_drop.
        rewrite <- (take_drop (pos - i) (drop i (lower text))).
        rewrite drop_drop. replace (i + (pos - i)) with pos by lia.
        rewrite O.
        assert (Lx : length (take (pos - i) (drop i (lower text))) = pos - i).
        { rewrite length_take, length_drop, length_lower. lia. }
        rewrite take_app_ge by lia. rewrite Lx.
        rewrite take_app_ge by (rewrite length_lower; fold n; lia).
        eexists. eexists. reflexivity.
Qed.

End ContextWindow.

(** ** Counting: keywords and phrases *)

Section CountMore.
Import PyStr Dict.

Lemma occurs_at_nil (sub : string) (q : nat) :
  1 <= length sub -> ~ occurs_at sub EmptyString q.
Proof.
  unfold occurs_at. intros NE O.
  assert (D : drop q EmptyString = EmptyString) by now destruct q.
  rewrite D in O. apply startswith_length in O. simpl in O. lia.
Qed.

Lemma spaced_pred (len : nat) (qs : list nat) :
  spaced len qs -> Forall (fun q => 1 <= q) qs -> spaced len (map pred qs).
Proof.
  unfold spaced. induction 1 as [|q qs Sq IH F]; intros P; simpl;
    [constructor|].
  inversion P as [|? ? P1 P2]; subst. constructor; [now apply IH|].
  rewrite Forall_forall in *. intros x Hx.
  apply in_map_iff in Hx as [y [<- Hy]].
  specialize (F y Hy). specialize (P2 y Hy). lia.
Qed.

(** No family of occurrences that do not overlap is larger than the
    count. *)
Lemma count_go_max (sub s : string) (k : nat) (qs : list nat) :
  1 <= length sub ->
  spaced (length sub) qs ->
  Forall (fun q => k <= q /\ occurs_at sub s q) qs ->
  List.length qs <= count_go sub s k.
Proof.
  intros NE. revert k qs; induction s as [|c s IH]; intros k qs Sp F.
  - destruct qs as [|q qs]; [simpl; lia|].
    inversion F as [|? ? [_ O] _]; subst. now apply occurs_at_nil in O.
  - assert (Shift : forall k' l,
               spaced (length sub) l ->
               Forall (fun q => S k' <= q /\ occurs_at sub (String c s) q) l ->
               List.length l <= count_go sub s k').
    { intros k' l Sl Fl. rewrite <- (length_map pred).
      apply IH.
      - apply spaced_pred; [exact Sl|].
        eapply Forall_impl; [|exact Fl]. intros q [L _]. lia.
      - rewrite Forall_forall in *. intros x Hx.
        apply in_map_iff in Hx as [y [<- Hy]].
        destruct (Fl y Hy) as [L O]. destruct y as [|y]; [lia|].
        simpl. split; [lia | exact O]. }
    cbn [count_go]. destruct k as [|k]; [|now apply Shift].
    destruct (startswith (String c s) sub) eqn:E.
    + destruct qs as [|q qs]; [simpl; lia|]. simpl. apply le_n_S.
      inversion Sp as [|? ? S1 S2]; subst.
      inversion F as [|? ? _ F2]; subst.
      apply Shift; [exact S1|].
      rewrite Forall_forall in *. intros x Hx.
      specialize (S2 x Hx). destruct (F2 x Hx) as [_ O]. split; [lia | exact O].
    + apply Shift; [exact Sp|].
      rewrite Forall_forall in *. intros x Hx.
      destruct (F x Hx) as [_ O]. split; [|exact O].
      destruct x as [|x]; [|lia]. unfold occurs_at in O. simpl in O. congruence.
Qed.

Lemma occurs_at_inside (x sub y s : string) (q : nat) :
  occurs_at (x ++ sub ++ y) s q -> occurs_at sub s (q + length x).
Proof.
  unfold occurs_at. intros O. apply startswith_split in O.
  rewrite <- drop_drop, O, app_assoc_str, drop_app_exact.
  rewrite app_assoc_str. apply startswith_app.
Qed.

(** A string never occurs more often than a non-empty piece of it. *)
Lemma count_inside (s x y : string) (a : ascii) (t : string) :
  count s (x ++ String a t ++ y) <= count s (String a t).
Proof.
  set (sub := String a t). set (big := (x ++ sub ++ y)%string).
  assert (NB : 1 <= length big).
  { subst big sub. rewrite !str_length_app. simpl. lia. }
  assert (Eb : count s big = count_go big s 0).
  { unfold count. destruct big; [simpl in NB; lia | reflexivity]. }
  rewrite Eb. change (count s sub) with (count_go sub s 0).
  rewrite <- (positions_go_length big s 0 0).
  rewrite <- (length_map (fun q => q + length x)).
  apply count_go_max.
  - subst sub. simpl. lia.
  - pose proof (positions_go_spaced big s 0 0 NB) as Sp.
    unfold spaced in *. induction Sp as [|q qs Sq IH F]; simpl; [constructor|].
    constructor; [exact IH|].
    rewrite Forall_forall in *. intros z Hz.
    apply in_map_iff in Hz as [w [<- Hw]]. specialize (F w Hw).
    subst big. rewrite !str_length_app in F. subst sub. cbn [String.length] in *. lia.
  - rewrite Forall_forall. intros z Hz.
    apply in_map_iff in Hz as [w [<- Hw]].
    apply positions_go_sound in Hw as [_ O]. rewrite Nat.sub_0_r in O.
    split; [lia|]. now apply (occurs_at_inside x sub y).
Qed.

Lemma lower_join (sep : string) (l : list string) :
  lower (join sep l) = join (lower sep) (map lower l).
Proof.
  induction l as [|x l IH]; [reflexivity|].
  destruct l as [|y l]; [reflexivity|].
  change (join sep (x :: y :: l)) with (x ++ sep ++ join sep (y :: l))%string.
  rewrite !lower_app, IH. reflexivity.
Qed.

(** Both methods count in the same buffer. *)
Lemma keywords_all_text (c : corpus) :
  Keywords.all_text c = Analyzer.all_text_lower c.
Proof.
  unfold Keywords.all_text, Analyzer.all_text_lower, Analyzer.all_text.
  now rewrite lower_join.
Qed.

Lemma of_items_keys_nodup {V : Type} (l : list (string * V)) :
  NoDup (keys (of_items l)).
Proof.
  unfold of_items.
  assert (G : forall acc : dict V,
             NoDup (keys acc) ->
             NoDup (keys (fold_left (fun d kv => set d (fst kv) (snd kv))
                                    l acc))).
  { induction l as [|kv l IH]; intros acc N; simpl; [exact N|].
    now apply IH, keys_set_nodup. }
  apply G. constructor.
Qed.

Lemma count_loop_keys (text : string) (ks : list string) (d : dict nat) :
  incl ks (keys d) -> keys (Keywords.count_loop text ks d) = keys d.
Proof.
  unfold Keywords.count_loop.
  revert d; induction ks as [|k ks IH]; intros d I; simpl; [reflexivity|].
  assert (K : keys (set d k (count text k)) = keys d).
  { apply keys_set_old, I. now left. }
  rewrite IH; [exact K|]. rewrite K. intros x Hx. apply I. now right.
Qed.

Lemma count_loop_get (text : string) (ks : list string) (d : dict nat)
    (k : string) :
  get (Keywords.count_loop text ks d) k
  = if existsb (String.eqb k) ks then Some (count text k) else get d k.
Proof.
  unfold Keywords.count_loop.
  revert d; induction ks as [|x ks IH]; intros d; simpl; [reflexivity|].
  rewrite IH, get_set. destruct (existsb (String.eqb k) ks).
  - now rewrite orb_true_r.
  - rewrite orb_false_r, (String.eqb_sym k x).
    destruct (String.eqb x k) eqn:E; [|reflexivity].
    apply String.eqb_eq in E. now subst.
Qed.

Lemma existsb_eqb_in (k : string) (ks : list string) :
  In k ks -> existsb (String.eqb k) ks = true.
Proof.
  intros H. apply existsb_exists. exists k. split; [exact H|].
  apply String.eqb_refl.
Qed.

Lemma count_keywords_get (c : corpus) (k : string) :
  In k (keys Keywords.keywords) ->
  get (Keywords.count_keywords c) k = Some (count (Keywords.all_text c) k).
Proof.
  intros H. unfold Keywords.count_keywords.
  set (d := Keywords.count_loop _ _ _).
  assert (N : NoDup (keys d)).
  { subst d. rewrite count_loop_keys by apply incl_refl.
    apply of_items_keys_nodup. }
  rewrite of_items_nodup by now apply sorted_desc_keys_nodup.
  rewrite <- (get_perm _ _ k N) by (apply Permutation_sym, sorted_desc_perm).
  subst d. rewrite count_loop_get. now rewrite existsb_eqb_in.
Qed.

Lemma count_keywords_sorted_form (c : corpus) :
  Keywords.count_keywords c
  = sorted_desc (Keywords.count_loop (Keywords.all_text c)
                   (keys Keywords.keywords) Keywords.keywords)
  /\ NoDup (keys (Keywords.count_loop (Keywords.all_text c)
                    (keys Keywords.keywords) Keywords.keywords)).
Proof.
  assert (N : NoDup (keys (Keywords.count_loop (Keywords.all_text c)
                             (keys Keywords.keywords) Keywords.keywords))).
  { rewrite count_loop_keys by apply incl_refl. apply of_items_keys_nodup. }
  split; [|exact N].
  unfold Keywords.count_keywords. apply of_items_nodup.
  now apply sorted_desc_keys_nodup.
Qed.

Lemma count_keywords_keys (c : corpus) :
  Permutation (keys (Keywords.count_keywords c)) (keys Keywords.keywords).
Proof.
  destruct (count_keywords_sorted_form c) as [E _]. rewrite E.
  unfold keys at 1.
  rewrite (Permutation_map fst (sorted_desc_perm _)).
  fold (keys (Keywords.count_loop (Keywords.all_text c)
                (keys Keywords.keywords) Keywords.keywords)).
  now rewrite count_loop_keys by apply incl_refl.
Qed.

Lemma find_all_phrases_eq (c : corpus) (m : Z) :
  Analyzer.find_all_phrases c m
  = Analyzer.find_phrases Analyzer.target_phrases c m.
Proof. reflexivity. Qed.

Lemma keywords_length : List.length (keys Keywords.keywords) = 34.
Proof. vm_compute. reflexivity. Qed.

Lemma keywords_lowercase :
  Forall (fun k => lower k = k /\ 1 <= length k) (keys Keywords.keywords).
Proof.
  assert (B : forallb (fun k => String.eqb (lower k) k && (1 <=? length k))
                (keys Keywords.keywords) = true) by (vm_compute; reflexivity).
  rewrite forallb_forall in B. apply Forall_forall. intros k H.
  specialize (B k H). apply andb_true_iff in B as [B1 B2].
  split; [now apply String.eqb_eq | now apply Nat.leb_le].
Qed.

(** X6. [count_keywords] returns each of the 34 keywords once, in
    descending order of count, with the number of times [str.count] finds
    it in the buffer that [find_all_phrases] counts in: lowering the texts
    before or after they are joined makes no difference, so a keyword
    that [find_all_phrases] also reports has the same count in both. *)
Theorem count_keywords_table (c : corpus) :
  Permutation (keys (Keywords.count_keywords c)) (keys Keywords.keywords)
  /\ NoDup (keys (Keywords.count_keywords c))
  /\ List.length (Keywords.count_keywords c) = 34
  /\ desc_by_count (Keywords.count_keywords c)
  /\ (forall k, In k (keys Keywords.keywords) ->
        get (Keywords.count_keywords c) k = Some (Analyzer.phrase_count c k))
  /\ (forall k n m, In k (keys Keywords.keywords) ->
        get (Analyzer.find_all_phrases c m) k = Some n ->
        get (Keywords.count_keywords c) k = Some n).
Proof.
  destruct (count_keywords_sorted_form c) as [E N].
  pose proof (count_keywords_keys c) as P.
  assert (G : forall k, In k (keys Keywords.keywords) ->
                get (Keywords.count_keywords c) k
                = Some (Analyzer.phrase_count c k)).
  { intros k H. rewrite (count_keywords_get c k H).
    unfold Analyzer.phrase_count. rewrite keywords_all_text.
    pose proof keywords_lowercase as L. rewrite Forall_forall in L.
    destruct (L k H) as [-> _]. reflexivity. }
  split; [exact P|]. split; [|split; [|split; [|split; [exact G|]]]].
  - rewrite E. now apply sorted_desc_keys_nodup.
  - rewrite <- (length_map fst). fold (keys (Keywords.count_keywords c)).
    rewrite (Permutation_length P). apply keywords_length.
  - rewrite E. apply sorted_desc_sorted.
  - intros k n m H F. rewrite (G k H).
    rewrite find_all_phrases_eq, find_phrases_get in F.
    destruct (existsb (String.eqb k) Analyzer.target_phrases
              && (m <=? Z.of_nat (Analyzer.phrase_count c k))%Z)%bool;
      [exact F | discriminate].
Qed.

(** X7. A keyword is never counted less often than a longer keyword that
    contains it: whatever the corpus, the count of a keyword made of [k]
    with text before or after it is at most the count of [k], as with
    "holy spirit" and "spirit". *)
Theorem count_keywords_inside (c : corpus) (x y : string) (a : ascii)
    (t : string) (n_long n_short : nat) :
  get (Keywords.count_keywords c) (x ++ String a t ++ y) = Some n_long ->
  get (Keywords.count_keywords c) (String a t) = Some n_short ->
  n_long <= n_short.
Proof.
  intros H1 H2.
  assert (K : forall k n, get (Keywords.count_keywords c) k = Some n ->
                          n = count (Keywords.all_text c) k).
  { intros k n H.
    assert (I : In k (keys Keywords.keywords)).
    { apply (Permutation_in _ (count_keywords_keys c)).
      unfold keys. change k with (fst (k, n)). apply in_map, get_in, H. }
    rewrite (count_keywords_get c k I) in H. congruence. }
  rewrite (K _ _ H1), (K _ _ H2). apply count_inside.
Qed.

End CountMore.

(** ** The series library: lookups, listings and ids *)

Section LibraryMore.
Import Library.

Variable json : Type.
Variable json_dumps : json -> string.
Variable empty_list : json.
Variable isoformat_now : nat -> string.

Local Abbreviation save := (save_series_to_library json json_dumps empty_list
                                               isoformat_now).
Local Abbreviation run_op := (run json json_dumps empty_list isoformat_now).
Local Abbreviation run_ops := (run_all json json_dumps empty_list isoformat_now).
Local Abbreviation new_rows := (new_post_rows json json_dumps empty_list
                                          isoformat_now).
Local Abbreviation save_eq := (save_spec json json_dumps empty_list
                                         isoformat_now).
Local Abbreviation lib_of w := (init_series_library (store w)).

(** The row [update_status] writes in place of [s]. *)
Local Abbreviation updated new_status sid :=
  (fun s => if (series_id s =? sid)%Z
            then mkSeries (series_id s) (series_title s) (topic s) (num_posts s)
                          (audience s) (style s) (post_length s) (date_created s)
                          (source_databases s) (total_words s) (total_cost s)
                          new_status (tags s) (notes s)
            else s).

Lemma find_snoc_miss {A : Type} (f : A -> bool) (l : list A) (x : A) :
  f x = false -> List.find f (l ++ [x]) = List.find f l.
Proof.
  intros H. induction l as [|y l IH]; simpl; [now rewrite H|].
  now destruct (f y).
Qed.

Lemma find_filter_keep {A : Type} (f g : A -> bool) (l : list A) :
  (forall x, f x = true -> g x = true) ->
  List.find f (filter g l) = List.find f l.
Proof.
  intros H. induction l as [|x l IH]; simpl; [reflexivity|].
  destruct (g x) eqn:G; simpl.
  - now destruct (f x).
  - destruct (f x) eqn:F; [|exact IH]. rewrite (H x F) in G. discriminate.
Qed.

Lemma filter_filter_keep {A : Type} (f g : A -> bool) (l : list A) :
  (forall x, f x = true -> g x = true) ->
  filter f (filter g l) = filter f l.
Proof.
  intros H. induction l as [|x l IH]; simpl; [reflexivity|].
  destruct (g x) eqn:G; simpl.
  - destruct (f x); [now rewrite IH | exact IH].
  - destruct (f x) eqn:F; [|exact IH]. rewrite (H x F) in G. discriminate.
Qed.

Lemma find_updated_other (new_status : string) (sid sid' : Z)
    (rows : list series_row) :
  sid' <> sid ->
  List.find (fun s => (series_id s =? sid)%Z) (map (updated new_status sid') rows)
  = List.find (fun s => (series_id s =? sid)%Z) rows.
Proof.
  intros N. induction rows as [|s rows IH]; simpl; [reflexivity|].
  destruct (series_id s =? sid')%Z eqn:E; cbn [series_id].
  - apply Z.eqb_eq in E.
    assert (F : (series_id s =? sid)%Z = false) by (apply Z.eqb_neq; lia).
    now rewrite F.
  - now rewrite IH.
Qed.

Lemma find_updated_same (new_status : string) (sid : Z)
    (rows : list series_row) :
  List.find (fun s => (series_id s =? sid)%Z) (map (updated new_status sid) rows)
  = option_map (fun s => set_status s new_status)
               (List.find (fun s => (series_id s =? sid)%Z) rows).
Proof.
  induction rows as [|s rows IH]; simpl; [reflexivity|].
  destruct (series_id s =? sid)%Z eqn:E; cbn [series_id]; rewrite E;
    [reflexivity | exact IH].
Qed.

(** The world a read leaves behind. *)
Lemma fetch_world (w : world) (sid : Z) :
  snd (get_series_details w sid) = mkWorld (Some (lib_of w)) (ticks w).
Proof.
  unfold get_series_details. now destruct (List.find _ _).
Qed.

Lemma fetch_initialised (w : world) (sid : Z) :
  fst (get_series_details (mkWorld (Some (lib_of w)) (ticks w)) sid)
  = fst (get_series_details w sid).
Proof. reflexivity. Qed.

(** X8. An operation on another series does not change what a lookup
    returns: after any operation that is neither a status update nor a
    deletion of the series [sid], nor a save that returns [sid],
    [get_series_details] gives for [sid] the series row and the posts it
    gave before. *)
Theorem get_series_details_frame (w : world) (o : operation json) (sid : Z) :
  touches json sid o = false ->
  (forall sd, o = OpSave json sd -> fst (save w sd) <> sid) ->
  fst (get_series_details (run_op w o) sid) = fst (get_series_details w sid).
Proof.
  intros T NS.
  destruct o as [|sd| |sid'|sid'|term|st sid']; cbn [run touches] in *.
  - apply fetch_initialised.
  - specialize (NS sd eq_refl). rewrite save_eq in NS |- *.
    cbn [fst snd] in *. unfold get_series_details.
    cbn [store init_series_library series_rows post_rows ticks].
    rewrite find_snoc_miss by (cbn [series_id]; apply Z.eqb_neq; exact NS).
    rewrite filter_app, (filter_none _ (new_rows _ _ _ _)), app_nil_r.
    + now destruct (List.find _ _).
    + eapply Forall_impl;
        [|apply (new_rows_series json json_dumps empty_list isoformat_now)].
      intros p E. cbn in E. rewrite E. apply Z.eqb_neq. exact NS.
  - apply fetch_initialised.
  - rewrite fetch_world. apply fetch_initialised.
  - apply Z.eqb_neq in T. unfold delete_series, get_series_details.
    cbn [store init_series_library series_rows post_rows ticks].
    rewrite find_filter_keep, filter_filter_keep;
      [now destruct (List.find _ _) | |].
    + intros p E. apply Z.eqb_eq in E. apply negb_true_iff, Z.eqb_neq. lia.
    + intros s E. apply Z.eqb_eq in E. apply negb_true_iff, Z.eqb_neq. lia.
  - apply fetch_initialised.
  - apply Z.eqb_neq in T. unfold update_status, get_series_details.
    cbn [store init_series_library series_rows post_rows ticks].
    rewrite find_updated_other by exact T. now destruct (List.find _ _).
Qed.

(** *** Ids *)

Lemma nodup_map_filter {A B : Type} (f : A -> B) (g : A -> bool) (l : list A) :
  NoDup (map f l) -> NoDup (map f (filter g l)).
Proof.
  induction l as [|x l IH]; simpl; intros N; [constructor|].
  inversion N as [|? ? N1 N2]; subst.
  destruct (g x); [|now apply IH]. simpl. constructor; [|now apply IH].
  intros H. apply N1. apply in_map_iff in H as [y [E H]].
  apply filter_In in H as [H _]. rewrite <- E. now apply in_map.
Qed.

Lemma map_id_updated (new_status : string) (sid : Z) (rows : list series_row) :
  map series_id (map (updated new_status sid) rows) = map series_id rows.
Proof.
  rewrite map_map. apply map_ext. intros s.
  now destruct (series_id s =? sid)%Z.
Qed.

(** Every operation keeps the ids below the sequence and distinct. *)
Lemma run_ids_unique (w : world) (o : operation json) :
  ids_bounded (lib_of w) -> ids_unique (lib_of w) ->
  ids_bounded (lib_of (run_op w o)) /\ ids_unique (lib_of (run_op w o)).
Proof.
  intros B U.
  destruct (run_ids_bounded json json_dumps empty_list isoformat_now w o B)
    as [lib [E B']].
  rewrite E. cbn [init_series_library]. split; [exact B'|].
  revert E. unfold ids_unique in *.
  destruct o as [|sd| |sid|sid|term|st sid]; cbn [run].
  - intros [= <-]. exact U.
  - rewrite save_eq. cbn [snd store]. intros [= <-]. cbn [series_rows].
    rewrite map_app. cbn [map series_id].
    apply (Permutation_NoDup (l := (series_seq (lib_of w) + 1)%Z
                                   :: map series_id (series_rows (lib_of w)))).
    + apply Permutation_cons_append.
    + constructor; [|exact U]. intros H. apply in_map_iff in H as [s [Es Hs]].
      specialize (B s Hs). lia.
  - intros [= <-]. exact U.
  - rewrite fetch_world. intros [= <-]. exact U.
  - unfold delete_series. cbn [store]. intros [= <-]. cbn [series_rows].
    now apply nodup_map_filter.
  - intros [= <-]. exact U.
  - unfold update_status. cbn [store]. intros [= <-]. cbn [series_rows].
    now rewrite map_id_updated.
Qed.

Lemma run_ops_ids_unique (ops : list (operation json)) (w : world) :
  ids_bounded (lib_of w) -> ids_unique (lib_of w) ->
  ids_bounded (lib_of (run_ops w ops)) /\ ids_unique (lib_of (run_ops w ops)).
Proof.
  revert w; induction ops as [|o ops IH]; intros w B U; [now split|].
  destruct (run_ids_unique w o B U) as [B' U']. exact (IH _ B' U').
Qed.

Lemma reachable_ids (ops : list (operation json)) :
  ids_bounded (lib_of (run_ops initial_world ops))
  /\ ids_unique (lib_of (run_ops initial_world ops)).
Proof.
  apply run_ops_ids_unique.
  - intros s [].
  - constructor.
Qed.

(** No operation lowers the AUTOINCREMENT sequence. *)
Lemma run_seq_mono (w : world) (o : operation json) :
  (series_seq (lib_of w) <= series_seq (lib_of (run_op w o)))%Z.
Proof.
  destruct o as [|sd| |sid|sid|term|st sid]; cbn [run].
  - reflexivity.
  - rewrite save_eq. cbn. lia.
  - reflexivity.
  - rewrite fetch_world. reflexivity.
  - reflexivity.
  - reflexivity.
  - reflexivity.
Qed.

Lemma run_ops_seq_mono (ops : list (operation json)) (w : world) :
  (series_seq (lib_of w) <= series_seq (lib_of (run_ops w ops)))%Z.
Proof.
  revert w; induction ops as [|o ops IH]; intros w; [reflexivity|].
  cbn [run_all fold_left]. etransitivity; [apply (run_seq_mono w o) | apply IH].
Qed.

(** X9. Series ids are never reused.  In every library reached by the
    library operations no two series share an id, the id a save returns is
    above the id of every series in the library, and it is below the id
    returned by any later save, whatever happens in between, deletions
    included. *)
Theorem series_ids_never_reused (ops : list (operation json))
    (sd : series_data json) :
  ids_unique (lib_of (run_ops initial_world ops))
  /\ (forall s, In s (series_rows (lib_of (run_ops initial_world ops))) ->
        (series_id s < fst (save (run_ops initial_world ops) sd))%Z)
  /\ (forall (later : list (operation json)) (sd' : series_data json),
        (fst (save (run_ops initial_world ops) sd)
         < fst (save (run_ops (snd (save (run_ops initial_world ops) sd)) later)
                     sd'))%Z).
Proof.
  destruct (reachable_ids ops) as [B U].
  set (w := run_ops initial_world ops) in *.
  split; [exact U|]. split.
  - intros s Hs. specialize (B s Hs). rewrite save_eq. cbn. lia.
  - intros later sd'.
    pose proof (run_ops_seq_mono later (snd (save w sd))) as M.
    rewrite (save_eq _ sd'). cbn [fst].
    rewrite save_eq in M |- *. cbn in M |- *. lia.
Qed.

(** *** Listings *)

Lemma string_compare_trans (a b c : string) :
  String.compare a b <> Gt -> String.compare b c <> Gt ->
  String.compare a c <> Gt.
Proof.
  revert b c; induction a as [|x a IH]; intros [|y b] [|z c]; simpl;
    try congruence.
  unfold Ascii.compare.
  destruct (N.compare_spec (N_of_ascii x) (N_of_ascii y)) as [E1|L1|G1];
    destruct (N.compare_spec (N_of_ascii y) (N_of_ascii z)) as [E2|L2|G2];
    destruct (N.compare_spec (N_of_ascii x) (N_of_ascii z)) as [E3|L3|G3];
    try congruence; try lia.
  apply IH.
Qed.

Lemma string_leb_trans (a b c : string) :
  String.leb a b = true -> String.leb b c = true -> String.leb a c = true.
Proof.
  unfold String.leb. intros H1 H2.
  pose proof (string_compare_trans a b c) as T.
  destruct (String.compare a b), (String.compare b c), (String.compare a c);
    try reflexivity; try discriminate; exfalso; apply T; congruence.
Qed.

Lemma string_leb_false (a b : string) :
  String.leb a b = false -> String.leb b a = true.
Proof.
  intros H. destruct (String.leb_total a b) as [T|T]; congruence.
Qed.

(** Rows in descending order of creation date. *)
Local Abbreviation date_desc :=
  (fun a b : series_row =>
     String.leb (date_created b) (date_created a) = true).

Lemma insert_by_date_desc_sorted (s : series_row) (l : list series_row) :
  StronglySorted date_desc l ->
  StronglySorted date_desc (insert_by_date_desc s l).
Proof.
  induction l as [|r l IH]; simpl; intros Sl.
  - repeat constructor.
  - inversion Sl as [|? ? S1 S2]; subst.
    destruct (String.leb (date_created r) (date_created s)) eqn:E.
    + constructor; [exact Sl|]. constructor; [exact E|].
      rewrite Forall_forall in *. intros z Hz.
      exact (string_leb_trans _ _ _ (S2 z Hz) E).
    + constructor; [now apply IH|].
      rewrite Forall_forall in *. intros z Hz.
      apply (Permutation_in _ (insert_by_date_desc_perm s l)) in Hz.
      destruct Hz as [<-|Hz]; [now apply string_leb_false | now apply S2].
Qed.

Lemma order_by_date_desc_sorted (l : list series_row) :
  StronglySorted date_desc (order_by_date_desc l).
Proof.
  induction l as [|s l IH]; simpl;
    [constructor | now apply insert_by_date_desc_sorted].
Qed.

Lemma newest_first_map (l : list series_row) :
  StronglySorted date_desc l -> newest_first (map summarize l).
Proof.
  unfold newest_first. induction 1 as [|s l Sl IH F]; simpl; constructor;
    [exact IH|].
  rewrite Forall_forall in *. intros z Hz.
  apply in_map_iff in Hz as [r [<- Hr]]. exact (F r Hr).
Qed.

(** X10. [get_all_series] lists every series of the library once, newest
    first, and leaves the library as it is; in a library reached by the
    library operations no id is listed twice. *)
Theorem get_all_series_listing (w : world) :
  Permutation (fst (get_all_series w))
              (map summarize (series_rows (lib_of w)))
  /\ newest_first (fst (get_all_series w))
  /\ snd (get_all_series w) = mkWorld (Some (lib_of w)) (ticks w)
  /\ (forall ops : list (operation json),
        NoDup (map sum_series_id
                   (fst (get_all_series (run_ops initial_world ops))))).
Proof.
  unfold get_all_series. cbn [fst snd].
  split; [|split; [|split; [reflexivity|]]].
  - apply Permutation_map, order_by_date_desc_perm.
  - apply newest_first_map, order_by_date_desc_sorted.
  - intros ops. destruct (reachable_ids ops) as [_ U].
    rewrite map_map.
    apply (Permutation_NoDup (l := map series_id
                                     (series_rows (lib_of (run_ops initial_world ops)))));
      [|exact U].
    apply Permutation_sym.
    exact (Permutation_map series_id (order_by_date_desc_perm _)).
Qed.

Lemma insert_by_date_desc_head (s : series_row) (l : list series_row) :
  Forall (fun x => String.leb (date_created x) (date_created s) = true) l ->
  insert_by_date_desc s l = s :: l.
Proof.
  destruct l as [|r l]; [reflexivity|]. intros F.
  inversion F as [|? ? H _]; subst. simpl. now rewrite H.
Qed.

Lemma filter_insert_by_date_desc (f : series_row -> bool) (s : series_row)
    (l : list series_row) :
  StronglySorted date_desc l ->
  filter f (insert_by_date_desc s l)
  = if f s then insert_by_date_desc s (filter f l) else filter f l.
Proof.
  induction l as [|r l IH]; intros Sl.
  - simpl. now destruct (f s).
  - inversion Sl as [|? ? S1 S2]; subst. specialize (IH S1).
    cbn [insert_by_date_desc].
    destruct (String.leb (date_created r) (date_created s)) eqn:E.
    + cbn [filter]. destruct (f s) eqn:Fs; [|reflexivity].
      destruct (f r) eqn:Fr.
      * cbn [insert_by_date_desc]. now rewrite E.
      * rewrite insert_by_date_desc_head; [reflexivity|].
        rewrite Forall_forall in *. intros z Hz.
        apply filter_In in Hz as [Hz _].
        exact (string_leb_trans _ _ _ (S2 z Hz) E).
    + cbn [filter]. destruct (f r) eqn:Fr.
      * rewrite IH. destruct (f s); [|reflexivity].
        cbn [insert_by_date_desc]. now rewrite E.
      * exact IH.
Qed.

(** Filtering commutes with [ORDER BY date_created DESC]. *)
Lemma filter_order_by_date_desc (f : series_row -> bool) (l : list series_row) :
  filter f (order_by_date_desc l) = order_by_date_desc (filter f l).
Proof.
  induction l as [|s l IH]; [reflexivity|].
  cbn [order_by_date_desc fold_right].
  fold (order_by_date_desc l).
  rewrite filter_insert_by_date_desc by apply order_by_date_desc_sorted.
  rewrite IH. cbn [filter]. now destruct (f s).
Qed.

Lemma filter_map_summarize (f : summary -> bool) (l : list series_row) :
  filter f (map summarize l) = map summarize (filter (fun s => f (summarize s)) l).
Proof.
  induction l as [|s l IH]; simpl; [reflexivity|].
  destruct (f (summarize s)); simpl; now rewrite IH.
Qed.

(** A text matches the pattern spelled like itself up to ASCII letter
    case, wildcards or not. *)
Lemma like_ci_same_prefix (p p' q t : string) :
  Sqlite.lower p' = Sqlite.lower p ->
  Sqlite.pattern_compare q t = true ->
  Sqlite.pattern_compare (p ++ q)%string (p' ++ t)%string = true.
Proof.
  revert p'; induction p as [|c p IH]; intros [|c' p'] E H; simpl in E;
    try discriminate; [exact H|].
  injection E as Ec Ep. specialize (IH p' Ep H).
  simpl append. destruct (Ascii.eqb c "%") eqn:E1.
  - apply Ascii.eqb_eq in E1. subst c. apply like_any.
    exists (String c' EmptyString), (p' ++ t)%string. now split.
  - cbn [Sqlite.pattern_compare]. rewrite E1.
    destruct (Ascii.eqb c "_"); [exact IH|].
    unfold Sqlite.like_char. rewrite Ec, Ascii.eqb_refl. exact IH.
Qed.

Lemma like_holds_ci (search_term text : string) :
  nul_free search_term = true ->
  holds_ci (Sqlite.c_str text) search_term ->
  Sqlite.like ("%" ++ search_term ++ "%")%string text = true.
Proof.
  intros N [before [mid [after [T E]]]]. unfold Sqlite.like.
  rewrite (c_str_pattern _ N), T.
  change ("%" ++ search_term ++ "%")%string
    with (String "%" (search_term ++ "%")).
  apply like_any. exists before, (mid ++ after)%string.
  split; [reflexivity|]. apply like_ci_same_prefix; [exact E|].
  apply like_percent.
Qed.

Lemma like_wildcard_free (search_term text : string) :
  wildcard_free search_term = true -> nul_free search_term = true ->
  Sqlite.like ("%" ++ search_term ++ "%")%string text = true ->
  holds_ci (Sqlite.c_str text) search_term.
Proof.
  intros W N H. unfold Sqlite.like in H. rewrite (c_str_pattern _ N) in H.
  change ("%" ++ search_term ++ "%")%string
    with (String "%" (search_term ++ "%")) in H.
  apply like_any in H as [before [rest [T H]]].
  rewrite like_literal in H by exact W.
  apply ci_prefix_spec in H as [mid [after [-> E]]].
  now exists before, mid, after.
Qed.

(** X11. When the query does not refuse the pattern (the library is
    empty or the pattern [%term%] has at most 50000 bytes),
    [search_series] returns the listing of [get_all_series] with the
    series whose title and topic do not match the pattern left out, in
    the same order; on a library with a series and a longer pattern it
    raises the error of the query; in both cases it leaves the library
    as it is.  An empty term leaves nothing out.  For a term without NUL,
    a series whose title or topic holds the term before its first NUL
    character, ASCII letter case apart, matches; and when the term has no
    [%] or [_] either, only those do. *)
Theorem search_series_listing (w : world) (search_term : string) :
  (series_rows (lib_of w) = []
   \/ Sqlite.too_complex ("%" ++ search_term ++ "%") = false ->
   fst (search_series w search_term)
   = Ok (filter (series_matches search_term) (fst (get_all_series w))))
  /\ (series_rows (lib_of w) <> [] ->
      Sqlite.too_complex ("%" ++ search_term ++ "%") = true ->
      fst (search_series w search_term) = Raise Sqlite.too_complex_message)
  /\ snd (search_series w search_term) = snd (get_all_series w)
  /\ fst (search_series w EmptyString) = Ok (fst (get_all_series w))
  /\ (Sqlite.too_complex ("%" ++ search_term ++ "%") = false ->
      nul_free search_term = true ->
      forall s,
        holds_ci (Sqlite.c_str (sum_series_title s)) search_term
        \/ holds_ci (Sqlite.c_str (sum_topic s)) search_term ->
        series_matches search_term s = true)
  /\ (Sqlite.too_complex ("%" ++ search_term ++ "%") = false ->
      wildcard_free search_term = true -> nul_free search_term = true ->
      forall s, series_matches search_term s = true ->
                holds_ci (Sqlite.c_str (sum_series_title s)) search_term
                \/ holds_ci (Sqlite.c_str (sum_topic s)) search_term).
Proof.
  assert (E : forall term,
             series_rows (lib_of w) = []
             \/ Sqlite.too_complex ("%" ++ term ++ "%") = false ->
             fst (search_series w term)
             = Ok (filter (series_matches term) (fst (get_all_series w)))).
  { intros term H. unfold search_series, get_all_series. cbn [fst].
    rewrite (select_where_ok _ _ _ H).
    rewrite filter_map_summarize, filter_order_by_date_desc. reflexivity. }
  split; [apply E|]. split; [|split; [reflexivity|split; [|split]]].
  - intros N T. unfold search_series. cbn [fst].
    now rewrite (select_where_raise _ _ _ N T).
  - rewrite E by (right; reflexivity). f_equal.
    apply filter_all. rewrite Forall_forall. intros s _.
    unfold series_matches. apply orb_true_iff. left.
    apply like_holds_ci; [reflexivity|].
    exists EmptyString, EmptyString, (Sqlite.c_str (sum_series_title s)).
    now split.
  - intros _ N s M. unfold series_matches. apply orb_true_iff.
    destruct M as [M|M]; [left | right]; now apply like_holds_ci.
  - intros _ W N s M. unfold series_matches in M.
    apply orb_true_iff in M as [M|M];
      [left | right]; now apply like_wildcard_free.
Qed.



Lemma insert_by_date_desc_map (f : series_row -> series_row) (s : series_row)
    (l : list series_row) :
  (forall x, date_created (f x) = date_created x) ->
  insert_by_date_desc (f s) (map f l) = map f (insert_by_date_desc s l).
Proof.
  intros D. induction l as [|r l IH]; simpl; [reflexivity|].
  rewrite !D. destruct (String.leb (date_created r) (date_created s));
    [reflexivity|]. simpl. now rewrite IH.
Qed.

Lemma order_by_date_desc_map (f : series_row -> series_row)
    (l : list series_row) :
  (forall x, date_created (f x) = date_created x) ->
  order_by_date_desc (map f l) = map f (order_by_date_desc l).
Proof.
  intros D. induction l as [|s l IH]; [reflexivity|].
  cbn [map order_by_date_desc fold_right].
  fold (order_by_date_desc (map f l)). fold (order_by_date_desc l).
  rewrite IH. now apply insert_by_date_desc_map.
Qed.

Lemma updated_twice (st1 st2 : string) (sid : Z) (s : series_row) :
  updated st2 sid (updated st1 sid s) = updated st2 sid s.
Proof.
  cbv beta. destruct (series_id s =? sid)%Z eqn:E; cbn; rewrite ?E; cbn;
    reflexivity.
Qed.

(** X12. After the status update of the series [sid], a lookup of [sid]
    gives the row it gave before with the new status in place of the old
    one, and the same posts; it gives nothing if it gave nothing.  The
    listing keeps its order and changes in nothing but that status, and of
    two updates in a row the second one stands. *)
Theorem update_status_fetch (w : world) (new_status : string) (sid : Z) :
  fst (get_series_details (update_status w new_status sid) sid)
  = option_map (fun d => mkDetails (set_status (det_series d) new_status)
                                   (det_posts d))
               (fst (get_series_details w sid))
  /\ fst (get_all_series (update_status w new_status sid))
     = map (fun s => if (sum_series_id s =? sid)%Z
                     then mkSummary (sum_series_id s) (sum_series_title s)
                                    (sum_topic s) (sum_num_posts s)
                                    (sum_audience s) (sum_date_created s)
                                    new_status (sum_total_words s)
                     else s)
           (fst (get_all_series w))
  /\ (forall st, update_status (update_status w st sid) new_status sid
                 = update_status w new_status sid).
Proof.
  split; [|split].
  - unfold update_status, get_series_details.
    cbn [store init_series_library series_rows post_rows ticks].
    rewrite find_updated_same. now destruct (List.find _ _).
  - unfold update_status, get_all_series.
    cbn [store init_series_library series_rows fst].
    rewrite order_by_date_desc_map
      by (intros x; now destruct (series_id x =? sid)%Z).
    rewrite !map_map. apply map_ext. intros s. unfold summarize at 2.
    cbn [sum_series_id]. now destruct (series_id s =? sid)%Z.
  - intros st. unfold update_status.
    cbn [store init_series_library series_rows post_rows series_seq posts_seq
         ticks].
    do 3 f_equal. rewrite map_map. apply map_ext. intros s.
    apply updated_twice.
Qed.

Lemma filter_idem {A : Type} (f : A -> bool) (l : list A) :
  filter f (filter f l) = filter f l.
Proof. now apply filter_filter_keep. Qed.

(** X13. After [delete_series] a lookup of the deleted id gives nothing
    and the listing is the one before without that id, in the same order;
    a second deletion changes nothing; and deleting an id that no series
    has leaves a library without orphans as it is. *)
Theorem delete_series_fetch (w : world) (sid : Z) :
  fst (get_series_details (delete_series w sid) sid) = None
  /\ fst (get_all_series (delete_series w sid))
     = filter (fun s => negb (sum_series_id s =? sid)%Z)
              (fst (get_all_series w))
  /\ delete_series (delete_series w sid) sid = delete_series w sid
  /\ (fst (get_series_details w sid) = None ->
      no_orphans (lib_of w) ->
      delete_series w sid = mkWorld (Some (lib_of w)) (ticks w)).
Proof.
  split; [|split; [|split]].
  - unfold delete_series, get_series_details.
    cbn [store init_series_library series_rows post_rows ticks].
    destruct (List.find _ _) as [s|] eqn:F; [|reflexivity].
    apply find_some in F as [Hs E]. apply filter_In in Hs as [_ N].
    rewrite E in N. discriminate.
  - unfold delete_series, get_all_series.
    cbn [store init_series_library series_rows fst].
    now rewrite filter_map_summarize, filter_order_by_date_desc.
  - unfold delete_series.
    cbn [store init_series_library series_rows post_rows series_seq posts_seq
         ticks].
    now rewrite !filter_idem.
  - intros F N. unfold delete_series, get_series_details in *.
    destruct (List.find _ _) as [s|] eqn:Fs; [discriminate|]. clear F.
    assert (A : Forall (fun s => negb (series_id s =? sid)%Z = true)
                       (series_rows (lib_of w))).
    { rewrite Forall_forall. intros s Hs.
      now rewrite (find_none _ _ Fs s Hs). }
    assert (P : Forall (fun p => negb (post_series_id p =? sid)%Z = true)
                       (post_rows (lib_of w))).
    { rewrite Forall_forall. intros p Hp. destruct (N p Hp) as [s [Hs E]].
      rewrite <- E. now rewrite (find_none _ _ Fs s Hs). }
    rewrite (filter_all _ _ A), (filter_all _ _ P).
    now destruct (lib_of w).
Qed.

(** *** The library page *)

Lemma insert_by_title_perm (s : summary) (l : list summary) :
  Permutation (LibraryPage.insert_by_title s l) (s :: l).
Proof.
  induction l as [|r l IH]; simpl; [reflexivity|].
  destruct (String.leb (sum_series_title s) (sum_series_title r));
    [reflexivity|].
  rewrite IH. apply perm_swap.
Qed.

Lemma sort_by_title_perm (l : list summary) :
  Permutation (LibraryPage.sort_by_title l) l.
Proof.
  induction l as [|s l IH]; simpl; [reflexivity|].
  rewrite insert_by_title_perm. now constructor.
Qed.

(** X14. A series that has just been saved is on the library page: with
    an empty search box and the status filter on "All" or on "Draft",
    however the filter is spelled in letter case, the page builds its
    list without an error and lists the saved series under the returned
    id as a draft, in each of the sort orders. *)
Theorem library_page_shows_saved (ops : list (operation json))
    (sd : series_data json) (filter_status sort_order : string) :
  filter_status = "All" \/ PyStr.lower filter_status = "draft" ->
  exists shown s,
    fst (LibraryPage.all_series
           (snd (save (run_ops initial_world ops) sd))
           EmptyString filter_status sort_order) = Ok shown
    /\ In s shown
    /\ sum_series_id s = fst (save (run_ops initial_world ops) sd)
    /\ sum_series_title s = sd_title json sd
    /\ sum_status s = "draft".
Proof.
  intros F. set (w := run_ops initial_world ops).
  set (row := mkSeries (series_seq (lib_of w) + 1)%Z
                (sd_title json sd) (sd_topic json sd) (sd_num_posts json sd)
                (sd_audience json sd) (sd_style json sd)
                (sd_post_length json sd) (isoformat_now (ticks w))
                (json_dumps (sd_source_databases json sd))
                (sd_total_words json sd)
                (or_default (sd_cost json sd) PrimFloat.zero)
                "draft" None None).
  unfold LibraryPage.all_series. rewrite save_eq. cbn [snd store ticks].
  cbn [init_series_library]. unfold get_all_series.
  cbn [store init_series_library series_rows fst snd].
  set (found := map summarize (order_by_date_desc _)).
  assert (Hf : In (summarize row) found).
  { subst found. apply in_map.
    apply (Permutation_in _ (Permutation_sym (order_by_date_desc_perm _))).
    apply in_or_app. right. left. reflexivity. }
  set (filtered := if negb (String.eqb filter_status "All") then _ else _).
  assert (Hg : In (summarize row) filtered).
  { subst filtered. destruct (negb (String.eqb filter_status "All")) eqn:N;
      [|exact Hf].
    apply filter_In. split; [exact Hf|]. apply String.eqb_eq.
    destruct F as [-> | ->]; [discriminate | reflexivity]. }
  eexists. exists (summarize row).
  split; [reflexivity|]. split; [|split; [|split]].
  - destruct (String.eqb sort_order "Oldest First");
      [now apply in_rev in Hg|].
    destruct (String.eqb sort_order "A-Z"); [|exact Hg].
    exact (Permutation_in _ (Permutation_sym (sort_by_title_perm _)) Hg).
  - reflexivity.
  - reflexivity.
  - reflexivity.
Qed.

End LibraryMore.

(** ** The devotional parser: what the fields hold *)

Section ParserMore.
Import PyStr Devotional.

Lemma piece_of_refl (s : string) : piece_of s s.
Proof. exists EmptyString, EmptyString. now rewrite app_empty_r. Qed.

Lemma piece_of_trans (x y z : string) :
  piece_of x y -> piece_of y z -> piece_of x z.
Proof.
  intros [a [b ->]] [c [d ->]]. exists (c ++ a)%string, (b ++ d)%string.
  now rewrite !app_assoc_str.
Qed.

Lemma piece_of_left (x y : string) : piece_of x (x ++ y).
Proof. now exists EmptyString, y. Qed.

Lemma piece_of_right (x y : string) : piece_of y (x ++ y).
Proof. exists x, EmptyString. now rewrite app_empty_r. Qed.

Lemma piece_of_take (n : nat) (s : string) : piece_of (take n s) s.
Proof. rewrite <- (take_drop n s) at 2. apply piece_of_left. Qed.

Lemma piece_of_drop (n : nat) (s : string) : piece_of (drop n s) s.
Proof. rewrite <- (take_drop n s) at 2. apply piece_of_right. Qed.

Lemma piece_of_strip (s : string) : piece_of (strip s) s.
Proof.
  unfold strip. destruct (lstrip_prefix s) as [w1 E1].
  destruct (rstrip_suffix (lstrip s)) as [w2 E2].
  exists w1, w2. now rewrite <- E2.
Qed.

Lemma piece_of_split_fuel (fuel : nat) (s sep u : string) :
  In u (split_fuel fuel s sep) -> piece_of u s.
Proof.
  revert s; induction fuel as [|fuel IH]; intros s; cbn [split_fuel];
    destruct (find s sep) as [i|].
  - intros [<-|[]]. apply piece_of_take.
  - intros [<-|[]]. apply piece_of_refl.
  - intros [<-|H]; [apply piece_of_take|].
    eapply piece_of_trans; [exact (IH _ H) | apply piece_of_drop].
  - intros [<-|[]]. apply piece_of_refl.
Qed.

Lemma piece_of_first_split (s sep a b : string) :
  first_split s sep a b -> piece_of a s /\ piece_of b s.
Proof.
  intros [-> _]. split; [apply piece_of_left|].
  rewrite <- app_assoc_str. apply piece_of_right.
Qed.

(** What a text does not hold, no piece of it holds. *)
Lemma contains_piece (x s sep : string) :
  piece_of x s -> contains s sep = false -> contains x sep = false.
Proof.
  intros [a [b ->]] H. destruct (contains x sep) eqn:C; [|reflexivity].
  apply contains_iff in C as [c [d ->]].
  assert (T : contains (a ++ (c ++ sep ++ d) ++ b) sep = true).
  { apply contains_iff. exists (a ++ c)%string, (d ++ b)%string.
    now rewrite !app_assoc_str. }
  congruence.
Qed.

(** The text before the first separator does not hold it. *)
Lemma first_split_before (s sep a b : string) :
  sep <> EmptyString -> first_split s sep a b -> contains a sep = false.
Proof.
  intros NE H. apply split_once_first in H. unfold split_once in H.
  destruct (find s sep) as [i|] eqn:F; [|discriminate]. injection H as <- _.
  unfold contains. now rewrite (find_take_none _ _ _ NE F).
Qed.

Lemma lstrip_idem (s : string) : lstrip (lstrip s) = lstrip s.
Proof.
  induction s as [|c s IH]; [reflexivity|]. simpl.
  destruct (isspace c) eqn:E; [exact IH|]. simpl. now rewrite E.
Qed.

Lemma rstrip_idem (s : string) : rstrip (rstrip s) = rstrip s.
Proof.
  induction s as [|c s IH]; [reflexivity|]. cbn [rstrip].
  destruct (rstrip s) as [|x r] eqn:R.
  - destruct (isspace c) eqn:E; [reflexivity|]. simpl. now rewrite E.
  - change (rstrip (String c (String x r)))
      with (match rstrip (String x r) with
            | EmptyString =>
                if isspace c then EmptyString else String c EmptyString
            | r0 => String c r0
            end).
    now rewrite IH.
Qed.

(** Stripping on the right keeps a first character that is no space. *)
Lemma lstrip_rstrip (s : string) : lstrip s = s -> lstrip (rstrip s) = rstrip s.
Proof.
  destruct s as [|c s]; [reflexivity|]. intros H.
  assert (E : isspace c = false).
  { simpl in H. destruct (isspace c) eqn:E; [|reflexivity].
    destruct (lstrip_prefix s) as [w P].
    apply (f_equal length) in H, P. rewrite str_length_app in P.
    simpl in H. lia. }
  cbn [rstrip]. destruct (rstrip s); rewrite ?E; simpl; rewrite ?E;
    reflexivity.
Qed.

Lemma strip_idem (s : string) : strip (strip s) = strip s.
Proof.
  unfold strip. rewrite lstrip_rstrip by apply lstrip_idem.
  apply rstrip_idem.
Qed.

Lemma in_parse_sections (us : list string) (d : devotional) :
  In d (parse_sections us) ->
  exists u, In u us /\ parse_section u = Some d.
Proof.
  induction us as [|u us IH]; simpl; [intros []|].
  destruct (parse_section u) as [d'|] eqn:E.
  - intros [<-|H]; [exists u; now split; [left|]|].
    destruct (IH H) as [v [Hv Ev]]. exists v. split; [now right | exact Ev].
  - intros H. destruct (IH H) as [v [Hv Ev]]. exists v.
    split; [now right | exact Ev].
Qed.

Lemma in_scripture_lines (lines : list string) (s : string) :
  In s (scripture_lines lines) ->
  s <> EmptyString
  /\ exists line, In line lines /\ s = strip (drop 1 (strip line)).
Proof.
  induction lines as [|line lines IH]; [intros []|].
  assert (K : In s (scripture_lines lines) ->
              s <> EmptyString
              /\ exists line0, In line0 (line :: lines)
                               /\ s = strip (drop 1 (strip line0))).
  { intros H. destruct (IH H) as [N [l [Hl E]]]. split; [exact N|].
    exists l. split; [now right | exact E]. }
  cbn [scripture_lines].
  destruct (startswith (strip line) "-"); [|exact K].
  destruct (nonempty (strip (drop 1 (strip line)))) eqn:N; [|exact K].
  intros [<-|H]; [|now apply K]. split.
  - intros E. rewrite E in N. discriminate.
  - exists line. split; [now left | reflexivity].
Qed.

Lemma in_units (content u : string) :
  In u (units content) ->
  piece_of u content /\ contains u START = false.
Proof.
  unfold units, split. intros H0.
  assert (H : In u (split_fuel (length content) content START)).
  { destruct (split_fuel _ _ _); [exact H0 | now right]. }
  clear H0. split.
  - exact (piece_of_split_fuel _ _ _ _ H).
  - assert (NE : START <> EmptyString) by discriminate.
    pose proof (split_fuel_pieces (length content) content START NE (le_n _))
      as P.
    rewrite Forall_forall in P. now apply P.
Qed.

(** X15. Whatever the service returns, the fields of the devotionals
    parsed from it are clean: the title, every paragraph and every
    scripture is left as it is by [strip] and holds neither the start nor
    the end marker; paragraphs and scriptures are not empty; no paragraph
    holds a blank line or the label [KEY SCRIPTURES:], no scripture a line
    break, and the title does not hold the label [NARRATIVE:]. *)
Theorem parse_devotionals_fields (content : string) :
  Forall (fun d =>
            clean_field (dev_title d)
            /\ contains (dev_title d) NARRATIVE = false
            /\ Forall (fun p =>
                         p <> EmptyString /\ clean_field p
                         /\ contains p (String newline (String newline ""))
                            = false
                         /\ contains p KEY_SCRIPTURES = false)
                      (dev_narrative d)
            /\ Forall (fun s =>
                         s <> EmptyString /\ clean_field s
                         /\ contains s (String newline "") = false)
                      (dev_scriptures d))
         (parse_devotionals content).
Proof.
  rewrite Forall_forall. intros d Hd. unfold parse_devotionals in Hd.
  apply in_parse_sections in Hd as [u [Hu E]].
  apply in_units in Hu as [_ US].
  apply parse_section_fields in E
    as [body [rest [pre [remaining [title_part [rest2 [narrative_part
         [scripture_part [F0 [F1 [F2 [F3 [Et [En Es]]]]]]]]]]]]]].
  assert (NE0 : END_ <> EmptyString) by discriminate.
  assert (NE2 : NARRATIVE <> EmptyString) by discriminate.
  assert (NE3 : KEY_SCRIPTURES <> EmptyString) by discriminate.
  assert (NL1 : String newline "" <> EmptyString) by discriminate.
  assert (NL2 : String newline (String newline "") <> EmptyString)
    by discriminate.
  assert (BE : contains body END_ = false)
    by apply (first_split_before _ _ _ _ NE0 F0).
  assert (BS : contains body START = false).
  { apply (contains_piece _ u); [|exact US].
    apply (piece_of_first_split _ _ _ _ F0). }
  assert (P1 : piece_of remaining body).
  { eapply piece_of_trans; [apply (piece_of_first_split _ _ _ _ F1)|].
    apply piece_of_strip. }
  assert (P2 : piece_of title_part body).
  { eapply piece_of_trans; [apply (piece_of_first_split _ _ _ _ F2)|].
    exact P1. }
  assert (P3 : piece_of rest2 body).
  { eapply piece_of_trans; [apply (piece_of_first_split _ _ _ _ F2)|].
    exact P1. }
  assert (P4 : piece_of narrative_part body).
  { eapply piece_of_trans; [apply (piece_of_first_split _ _ _ _ F3)|].
    exact P3. }
  assert (P5 : piece_of scripture_part body).
  { eapply piece_of_trans; [apply (piece_of_first_split _ _ _ _ F3)|].
    exact P3. }
  assert (CF : forall x, piece_of x body -> strip x = x -> clean_field x).
  { intros x Px Sx. split; [exact Sx|].
    split; eapply contains_piece; eauto. }
  split; [|split; [|split]].
  - rewrite Et. apply CF; [|apply strip_idem].
    eapply piece_of_trans; [apply piece_of_strip | exact P2].
  - rewrite Et. apply (contains_piece _ title_part); [apply piece_of_strip|].
    apply (first_split_before _ _ _ _ NE2 F2).
  - rewrite En, Forall_forall. intros p Hp. unfold paragraphs in Hp.
    apply filter_In in Hp as [Hp N]. apply in_map_iff in Hp as [x [<- Hx]].
    assert (Px : piece_of x (strip narrative_part))
      by exact (piece_of_split_fuel _ _ _ _ Hx).
    assert (Q : piece_of (strip x) narrative_part).
    { eapply piece_of_trans; [apply piece_of_strip|].
      eapply piece_of_trans; [exact Px | apply piece_of_strip]. }
    split; [|split; [|split]].
    + intros Z. rewrite Z in N. discriminate.
    + apply CF; [|apply strip_idem]. eapply piece_of_trans; eauto.
    + apply (contains_piece _ x); [apply piece_of_strip|].
      unfold split in Hx.
      pose proof (split_fuel_pieces (length (strip narrative_part))
                    (strip narrative_part) (String newline (String newline ""))
                    NL2 (le_n _)) as Sp.
      rewrite Forall_forall in Sp. now apply Sp.
    + apply (contains_piece _ narrative_part); [exact Q|].
      apply (first_split_before _ _ _ _ NE3 F3).
  - rewrite Es, Forall_forall. intros s Hs.
    apply in_scripture_lines in Hs as [N [line [Hl ->]]].
    assert (Pl : piece_of line (strip scripture_part))
      by exact (piece_of_split_fuel _ _ _ _ Hl).
    assert (Q : piece_of (strip (drop 1 (strip line))) line).
    { eapply piece_of_trans; [apply piece_of_strip|].
      eapply piece_of_trans; [apply piece_of_drop | apply piece_of_strip]. }
    split; [exact N|]. split.
    + apply CF; [|apply strip_idem].
      eapply piece_of_trans; [exact Q|].
      eapply piece_of_trans; [exact Pl|].
      eapply piece_of_trans; [apply piece_of_strip | exact P5].
    + apply (contains_piece _ line); [exact Q|].
      unfold split in Hl.
      pose proof (split_fuel_pieces (length (strip scripture_part))
                    (strip scripture_part) (String newline "")
                    NL1 (le_n _)) as Sp.
      rewrite Forall_forall in Sp. now apply Sp.
Qed.

(** *** How many devotionals *)

Lemma split_fuel_length (fuel : nat) (s sep : string) :
  sep <> EmptyString -> length s <= fuel ->
  List.length (split_fuel fuel s sep) = S (count_go sep s 0).
Proof.
  intros NE. revert s; induction fuel as [|fuel IH]; intros s L;
    cbn [split_fuel]; destruct (find s sep) as [i|] eqn:F.
  - pose proof (find_bound _ _ _ F) as B.
    destruct sep; [congruence | simpl in B; lia].
  - rewrite <- (positions_go_length sep s 0 0).
    now rewrite (find_none_positions _ _ 0 NE F).
  - pose proof (find_bound _ _ _ F) as B.
    assert (1 <= length sep) by (destruct sep; [congruence | simpl; lia]).
    cbn [List.length]. rewrite IH by (rewrite length_drop; lia).
    rewrite <- (positions_go_length sep s 0 0).
    rewrite (find_some_positions _ _ _ 0 NE F). cbn [List.length].
    now rewrite positions_go_length.
  - rewrite <- (positions_go_length sep s 0 0).
    now rewrite (find_none_positions _ _ 0 NE F).
Qed.

Lemma drop_app_le (p : nat) (a b : string) :
  p <= length a -> drop p (a ++ b)%string = (drop p a ++ b)%string.
Proof.
  revert a; induction p as [|p IH]; intros [|c a] L; simpl in *; try lia;
    try reflexivity.
  apply IH. lia.
Qed.

Lemma spaced_app (len : nat) (l1 l2 : list nat) :
  spaced len l1 -> spaced len l2 ->
  (forall x y, In x l1 -> In y l2 -> x + len <= y) ->
  spaced len (l1 ++ l2).
Proof.
  unfold spaced. induction 1 as [|x l1 S1 IH F]; intros S2 H; [exact S2|].
  simpl. constructor.
  - apply IH; [exact S2|]. intros a b Ha Hb. apply H; [now right | exact Hb].
  - apply Forall_app. split; [exact F|].
    rewrite Forall_forall. intros y Hy. apply H; [now left | exact Hy].
Qed.

Lemma spaced_shift (len d : nat) (l : list nat) :
  spaced len l -> spaced len (map (fun q => d + q) l).
Proof.
  unfold spaced. induction 1 as [|x l Sl IH F]; simpl; constructor;
    [exact IH|].
  rewrite Forall_forall in *. intros y Hy.
  apply in_map_iff in Hy as [z [<- Hz]]. specialize (F z Hz). lia.
Qed.

(** Occurrences in two texts are still there, apart, in the two texts put
    together. *)
Lemma count_go_app_super (sub a b : string) :
  1 <= length sub ->
  count_go sub a 0 + count_go sub b 0 <= count_go sub (a ++ b)%string 0.
Proof.
  intros NE.
  rewrite <- (positions_go_length sub a 0 0), <- (positions_go_length sub b 0 0).
  rewrite <- (length_map (fun q => length a + q) (positions_go sub b 0 0)).
  rewrite <- List.length_app.
  assert (Ia : forall p, In p (positions_go sub a 0 0) ->
                         occurs_at sub a p /\ p + length sub <= length a).
  { intros p Hp. apply positions_go_sound in Hp as [_ O].
    rewrite Nat.sub_0_r in O. split; [exact O|].
    unfold occurs_at in O. apply startswith_length in O.
    rewrite length_drop in O. lia. }
  apply count_go_max; [exact NE | |].
  - apply spaced_app.
    + now apply positions_go_spaced.
    + apply spaced_shift. now apply positions_go_spaced.
    + intros x y Hx Hy. apply in_map_iff in Hy as [q [<- _]].
      destruct (Ia x Hx) as [_ L]. lia.
  - apply Forall_app. split; rewrite Forall_forall.
    + intros p Hp. destruct (Ia p Hp) as [O L]. split; [lia|].
      unfold occurs_at in *. rewrite drop_app_le by lia.
      now apply startswith_app_keep.
    + intros p Hp. apply in_map_iff in Hp as [q [<- Hq]]. split; [lia|].
      apply positions_go_sound in Hq as [_ O]. rewrite Nat.sub_0_r in O.
      unfold occurs_at in *. rewrite <- drop_drop, drop_app_exact. exact O.
Qed.

Lemma count_go_join (sub sep : string) (l : list string) :
  1 <= length sub ->
  list_sum (map (fun x => count_go sub x 0) l) <= count_go sub (join sep l) 0.
Proof.
  intros NE. induction l as [|x l IH]; [simpl; lia|].
  destruct l as [|y l]; [simpl; lia|].
  change (join sep (x :: y :: l)) with (x ++ sep ++ join sep (y :: l))%string.
  pose proof (count_go_app_super sub x (sep ++ join sep (y :: l)) NE) as H1.
  pose proof (count_go_app_super sub sep (join sep (y :: l)) NE) as H2.
  unfold list_sum in *. cbn [map fold_right] in *. lia.
Qed.

Lemma contains_count_go (s sub : string) :
  1 <= length sub -> contains s sub = true -> 1 <= count_go sub s 0.
Proof.
  intros NE C. apply contains_iff in C as [a [b ->]].
  destruct (positions_go_complete sub (a ++ sub ++ b) 0 0 (length a) NE)
    as [p [Hp _]]; [lia | |].
  - unfold occurs_at. rewrite drop_app_exact. apply startswith_app.
  - rewrite <- (positions_go_length sub _ 0 0).
    destruct (positions_go sub _ 0 0); [destruct Hp | simpl; lia].
Qed.

Lemma parse_sections_length (us : list string) :
  List.length (parse_sections us)
  <= list_sum (map (fun u => count_go END_ u 0) us).
Proof.
  induction us as [|u us IH]; [simpl; lia|].
  unfold list_sum in *. cbn [parse_sections map fold_right].
  destruct (parse_section u) as [d|] eqn:E; [|lia].
  assert (C : contains u END_ = true).
  { unfold parse_section in E. now destruct (contains u END_). }
  apply contains_count_go in C; [|simpl; lia]. simpl. lia.
Qed.

Lemma parse_sections_le (us : list string) :
  List.length (parse_sections us) <= List.length us.
Proof.
  induction us as [|u us IH]; [simpl; lia|]. cbn [parse_sections].
  destruct (parse_section u); simpl; lia.
Qed.

(** X16. The response has as many units as start markers, counted as
    [str.count] counts them, and the parser returns no more devotionals
    than there are start markers and no more than there are end
    markers. *)
Theorem parse_devotionals_count (content : string) :
  List.length (units content) = count content START
  /\ List.length (parse_devotionals content) <= count content START
  /\ List.length (parse_devotionals content) <= count content END_.
Proof.
  assert (NE : START <> EmptyString) by discriminate.
  assert (U : List.length (units content) = count content START).
  { unfold units, split.
    pose proof (split_fuel_length (length content) content START NE (le_n _))
      as L.
    destruct (split_fuel _ _ _); [discriminate L|].
    simpl in L |- *. now injection L. }
  split; [exact U|]. split.
  - rewrite <- U. apply parse_sections_le.
  - unfold parse_devotionals. etransitivity; [apply parse_sections_length|].
    unfold units, split.
    pose proof (split_fuel_join (length content) content START NE (le_n _))
      as J.
    assert (E1 : 1 <= length END_) by (simpl; lia).
    pose proof (count_go_join END_ START
                  (split_fuel (length content) content START) E1) as C.
    rewrite J in C. change (count content END_) with (count_go END_ content 0).
    unfold list_sum in *.
    destruct (split_fuel _ _ _) as [|x l]; cbn [tl map fold_right] in *; lia.
Qed.

End ParserMore.

(** ** The further properties at sample data *)

Section FurtherInstances.
Import PyStr Dict Context.

(** The term "aa" stands at position 1 of "aaa"; the occurrence reported
    at position 0 overlaps it. *)
Lemma find_all_contexts_complete_witness :
  exists occs o,
    find_all_contexts [mkRecord (Some "A") (Some "aaa")] "aa" 200
    = Some (Ok occs)
    /\ In o occs
    /\ occ_title o = Some "A"
    /\ occ_context o = context_at "aaa" "aa" 200 (occ_position o)
    /\ occ_position o <= 1 < occ_position o + 2.
Proof.
  apply (find_all_contexts_complete [mkRecord (Some "A") (Some "aaa")]
           "a" "a" 200 [mkRecord (Some "A") (Some "aaa")]
           (mkRecord (Some "A") (Some "aaa")) "aaa" 1).
  - reflexivity.
  - left. reflexivity.
  - reflexivity.
  - reflexivity.
Defined.

(** A text about grace is gone through for the term in capitals. *)
Lemma matched_ascii_witness :
  exists rows,
    select [mkRecord None (Some "Amazing Grace")] "GRACE" = Ok rows
    /\ In (mkRecord None (Some "Amazing Grace")) rows.
Proof.
  apply (matched_ascii [mkRecord None (Some "Amazing Grace")] "GRACE"
           (mkRecord None (Some "Amazing Grace")) "Amazing Grace").
  - left. reflexivity.
  - reflexivity.
  - reflexivity.
  - reflexivity.
  - reflexivity.
  - reflexivity.
Defined.

(** One row with a one-letter text and a thousand rounds. *)
Lemma find_all_contexts_empty_term_witness :
  find_all_contexts_fuel (fun _ => 1000) [mkRecord None (Some "a")] "" 200
  = None.
Proof.
  apply (find_all_contexts_empty_term (fun _ => 1000)
           [mkRecord None (Some "a")] 200 (mkRecord None (Some "a")) "a" "").
  - left. reflexivity.
  - reflexivity.
Defined.

(** The window of three characters around "Grace". *)
Lemma context_at_window_witness :
  exists before window after,
    "Amazing Grace, how sweet" = (before ++ window ++ after)%string
    /\ context_at "Amazing Grace, how sweet" "grace" 3 8
       = ("..." ++ strip window ++ "...")%string
    /\ (Z.of_nat (length window) <= Z.of_nat (length "grace") + 2 * 3)%Z
    /\ exists x y, lower window = (x ++ lower "grace" ++ y)%string.
Proof.
  apply (context_at_window "Amazing Grace, how sweet" "grace" 3 8).
  - lia.
  - reflexivity.
Defined.

(** "holy spirit" once, "spirit" twice. *)
Lemma count_keywords_inside_witness :
  get (Keywords.count_keywords [mkRecord None (Some "Holy Spirit, spirit")])
      "holy spirit" = Some 1
  /\ get (Keywords.count_keywords [mkRecord None (Some "Holy Spirit, spirit")])
         "spirit" = Some 2
  /\ 1 <= 2.
Proof.
  split; [reflexivity|]. split; [reflexivity|].
  apply (count_keywords_inside [mkRecord None (Some "Holy Spirit, spirit")]
           "holy " "" "s" "pirit" 1 2); reflexivity.
Defined.

(** A second save returns the id 2 and leaves the series 1 as it was. *)
Lemma get_series_details_frame_witness :
  fst (Library.get_series_details
         (Library.run string (fun j => j) "[]" sample_clock
                      (snd (sample_save Library.initial_world))
                      (Library.OpSave string sample_series)) 1)
  = fst (Library.get_series_details (snd (sample_save Library.initial_world)) 1).
Proof.
  apply (get_series_details_frame string (fun j => j) "[]" sample_clock).
  - reflexivity.
  - intros sd H. injection H as <-. vm_compute. discriminate.
Defined.

(** The sample series on the page, filter on "Draft", sorted by title. *)
Lemma library_page_shows_saved_witness :
  exists shown s,
    fst (LibraryPage.all_series (snd (sample_save Library.initial_world))
                                "" "Draft" "A-Z") = Ok shown
    /\ In s shown
    /\ Library.sum_series_id s = 1%Z
    /\ Library.sum_series_title s = "Grace"
    /\ Library.sum_status s = "draft".
Proof.
  apply (library_page_shows_saved string (fun j => j) "[]" sample_clock []
           sample_series "Draft" "A-Z").
  right. reflexivity.
Defined.

End FurtherInstances.
